(** * Booting up and reconciling the iptables chains of the policy manager

    A shallow embedding of the Linux chain management of package
    [policies] (stale chain set, command executor, restore-file builders,
    positioning of the jump from FORWARD to AZURE-NPM, backend detection and
    cleanup of the other backend), with the properties proved about it.

    Go values are embedded as follows: [string] and [[]byte] as [string]
    (a sequence of bytes), [int] as [Z] with the wrap-around of its 64 bits
    written out ([wrapInt]), [[]string] as [list string],
    [map[string]struct{}] as [gset string], [error] as [option error]
    ([None] is [nil]), and [(int, error)] as a pair.  Code that runs
    commands, reads the global [util.Iptables] or mutates the stale chain set
    lives in a state monad over the record [state], which also keeps the
    trace of what the run did to the outside: commands, listings, restore
    calls, receives on the release-lock channel, and what went to the error
    log and metrics.  Calls of [klog] only print and are left out.  The
    mutex of [reconcileManager] is not modelled: the functions below run with
    the lock held, and a forced takeover shows as the outcome of the receive
    on [releaseLockSignal]. *)

From stdpp Require Import gmap strings list pretty.
From Stdlib Require Import ZArith Ascii.

Local Open Scope string_scope.
Local Open Scope list_scope.
Local Open Scope Z_scope.

(** ** Package util *)

(** The constants of package [util] that the file refers to.  The package is
    not part of the sources at hand, so its values are taken as parameters:
    every definition and theorem below holds for whatever strings they are
    (with the few distinctness facts a theorem needs as its hypotheses). *)
Class Util := {
  IptablesAzureChain : string;
  IptablesAzureIngressChain : string;
  IptablesAzureIngressAllowMarkChain : string;
  IptablesAzureEgressChain : string;
  IptablesAzureAcceptChain : string;
  IptablesKubeServicesChain : string;
  IptablesForwardChain : string;
  IptablesJumpFlag : string;
  IptablesModuleFlag : string;
  IptablesCtstateModuleFlag : string;
  IptablesCtstateFlag : string;
  IptablesNewState : string;
  IptablesWaitFlag : string;
  IptablesDefaultWaitTime : string;
  IptablesTableFlag : string;
  IptablesFilterTable : string;
  IptablesMangleTable : string;
  IptablesNumericFlag : string;
  IptablesListFlag : string;
  IptablesLineNumbersFlag : string;
  IptablesDeletionFlag : string;
  IptablesInsertionFlag : string;
  IptablesDestroyFlag : string;
  IptablesFlushFlag : string;
  IptablesAppendFlag : string;
  IptablesDrop : string;
  IptablesAccept : string;
  IptablesRestoreCommit : string;
  IptablesMarkVerb : string;
  IptablesMarkFlag : string;
  IptablesAzureIngressDropMarkHex : string;
  IptablesAzureIngressAllowMarkHex : string;
  IptablesAzureEgressDropMarkHex : string;
  IptablesNft : string;
  IptablesLegacy : string;
  Grep : string;
  (* helpers of package policies defined outside the file at hand *)
  setMarkSpecs : string → list string;
  commentSpecs : string → list string
}.

(** Modelled from the spec: the placement of the jump from FORWARD to
    AZURE-NPM (the type of [PolicyManagerCfg.PlaceAzureChainFirst] and the
    two [util] values it is compared with are not in the sources).  The spec
    has two policies: "must be first", and "must immediately follow another
    well-known system jump rule if that rule is present, else first". *)
Inductive placement := PlaceAzureChainFirst | PlaceAzureChainAfterKubeServices.

Global Instance placement_eq_dec : EqDecision placement.
Proof. solve_decision. Defined.

(** ** Go library functions used by the file *)

(** [strings.Join] *)
Fixpoint Join (elems : list string) (sep : string) : string :=
  match elems with
  | [] => ""
  | [e] => e
  | e :: rest => e +:+ sep +:+ Join rest sep
  end.

(** [strings.HasPrefix] *)
Fixpoint HasPrefix (s pre : string) : bool :=
  match pre, s with
  | EmptyString, _ => true
  | String a pre', String b s' => bool_decide (a = b) && HasPrefix s' pre'
  | String _ _, EmptyString => false
  end.

(** [strings.Contains] *)
Fixpoint Contains (s substr : string) : bool :=
  HasPrefix s substr ||
  match s with
  | EmptyString => false
  | String _ s' => Contains s' substr
  end.

(** [strings.TrimSuffix]: [s] without the trailing [suffix], or [s] itself
    when it does not end with [suffix].  The rest of [s] equals [suffix] at
    one position at most, the one where the suffix starts. *)
Fixpoint TrimSuffix (s suffix : string) : string :=
  match s with
  | EmptyString => EmptyString
  | String a s' =>
      if bool_decide (s = suffix) then EmptyString else String a (TrimSuffix s' suffix)
  end.

(** [strings.HasSuffix] *)
Fixpoint HasSuffix (s suffix : string) : bool :=
  bool_decide (s = suffix) ||
  match s with
  | EmptyString => false
  | String _ s' => HasSuffix s' suffix
  end.

(** [bytes.Index]: the position of the first occurrence of [sep], or -1. *)
Fixpoint Index (s sep : string) : Z :=
  if HasPrefix s sep then 0
  else match s with
       | EmptyString => -1
       | String _ s' => let i := Index s' sep in if decide (i = -1) then -1 else i + 1
       end.

Definition newline : string := String "010"%char "".

(** Go's [int], 64 bits wide where azure-npm runs: the result of an addition
    or a subtraction wraps around into the range from [- 2 ^ 63] to
    [2 ^ 63 - 1]. *)
Definition wrapInt (z : Z) : Z := (z + 2 ^ 63) `mod` 2 ^ 64 - 2 ^ 63.

(** [strconv.Itoa] *)
Definition Itoa (n : Z) : string := pretty n.

(** [strconv.Atoi]: an optional sign, then decimal digits only; the value
    must fit in 64 bits.  [None] stands for a non-nil error. *)
Definition digit_of (a : Ascii.ascii) : option Z :=
  let n := Z.of_N (Ascii.N_of_ascii a) in
  if decide (48 ≤ n ≤ 57) then Some (n - 48) else None.

Fixpoint parse_digits (acc : Z) (s : string) : option Z :=
  match s with
  | EmptyString => Some acc
  | String a s' =>
      match digit_of a with
      | Some d => parse_digits (10 * acc + d) s'
      | None => None
      end
  end.

Definition Atoi (s : string) : option Z :=
  let '(neg, body) :=
    match s with
    | String "-"%char s' => (true, s')
    | String "+"%char s' => (false, s')
    | _ => (false, s)
    end in
  match body with
  | EmptyString => None
  | _ =>
      match parse_digits 0 body with
      | Some n =>
          let v := if neg : bool then - n else n in
          if decide (- 2 ^ 63 ≤ v ≤ 2 ^ 63 - 1) then Some v else None
      | None => None
      end
  end.

(** ** Errors *)

(** The failure of a command, as [CombinedOutput] reports it: either the
    process ran and exited with a status ([utilexec.ExitError], the only
    error [errors.As] recognises in the executor), or anything else (the
    binary could not be started, ...). *)
Inductive cmd_error :=
| ExitError (status : Z)
| StartError (msg : string).

(** Go [error] values built by the file.  Texts stay symbolic: a format
    string with its arguments, as written in the source. *)
Inductive error : Type :=
| errNoLineNumber
| errUnexpectedLineNumberString
| errDetectingIptablesVersion
| ExternalError (msg : string)                     (* an error returned by a collaborator *)
| Errorf (format : string) (args : list arg)       (* fmt.Errorf *)
| SimpleError (m : text)                           (* npmerrors.SimpleError *)
| SimpleErrorWrapper (m : text) (e : error)        (* npmerrors.SimpleErrorWrapper *)
with text : Type :=
| Lit (s : string)
| Sprintf (format : string) (args : list arg)      (* fmt.Sprintf *)
| Cat (a b : text)                                 (* a + b *)
with arg : Type :=
| ArgS (s : string)
| ArgT (t : text)
| ArgD (n : Z)
| ArgV (e : option error)
| ArgW (e : cmd_error).

Coercion Lit : string >-> text.

Record exitErrorInfo := {
  exitCode : Z;
  stdErr : string;
  messageToLog : string
}.

Definition doesNotExistErrorCode : Z := 1.
Definition couldntLoadTargetErrorCode : Z := 2.
Definition minLineNumberStringLength : Z := 3.

Definition removeDeprecatedJumpIgnoredErrors : list exitErrorInfo := [
  {| exitCode := doesNotExistErrorCode;
     stdErr := "No chain/target/match by that name";
     messageToLog := "didn't delete deprecated jump rule from FORWARD chain to AZURE-NPM chain likely because NPM v1 was not used prior" |};
  {| exitCode := couldntLoadTargetErrorCode;
     stdErr := "Couldn't load target `AZURE-NPM':No such file or directory";
     messageToLog := "didn't delete deprecated jump rule from FORWARD chain to AZURE-NPM chain likely because AZURE-NPM chain doesn't exist" |};
  {| exitCode := couldntLoadTargetErrorCode;
     stdErr := "Chain 'AZURE-NPM' does not exist";
     messageToLog := "in nft tables, didn't delete deprecated jump rule from FORWARD chain to AZURE-NPM chain likely because AZURE-NPM chain doesn't exist" |};
  {| exitCode := doesNotExistErrorCode;
     stdErr := "Bad rule (does a matching rule exist in that chain?)";
     messageToLog := "probably tried to delete a jump rule that didn't exist in nft tables" |}
].

(** ** The environment *)

(** Go leaves the order of [for k := range m] open.  The model fixes no
    order either: it ranges over a map in the order [rangeOrder] gives, which
    can be any enumeration of the keys. *)
Class MapRange := {
  rangeOrder : gset string → list string;
  rangeOrder_perm : ∀ m, rangeOrder m ≡ₚ elements m
}.

(** Modelled from the spec: [ioutil.FileCreator] is not in the sources.  The
    spec has "an accumulator with [AddLine(chainHeader, rule...)], producing
    a single ordered payload"; a line is kept as the items it was added
    with. *)
Definition FileCreator := list (list string).

Definition AddLine (items : list string) (creator : FileCreator) : FileCreator :=
  creator ++ [items].

(** Modelled from the spec: [newCreatorWithChains] is not in the sources.  The
    spec's payload has "a chain declaration ([:CHAINNAME - -])" for every
    chain to create, and nothing else before the lines the builders add. *)
Definition newCreatorWithChains (chainNames : list string) : FileCreator :=
  (λ chainName, [":" +:+ chainName; "-"; "-"]) <$> chainNames.

(** What the engine consumes from outside (spec, External Interfaces): running
    a command, listing FORWARD through grep, enumerating the chains present,
    applying a restore payload, and the non-blocking receive on
    [reconcileManager.releaseLockSignal].  None of it is in the sources; each
    is an arbitrary function of the state of the world, which it may change.
    [AllCurrentAzureChains] and [restore] read the global [util.Iptables],
    passed as their first argument. *)
Class IOShim := {
  World : Type;
  CombinedOutput : string → list string → World → (string * option cmd_error) * World;
  PipeCommandToGrep :
    string * list string → string * list string → World → (string * bool * option error) * World;
  AllCurrentAzureChains : string → string → World → (gset string * option error) * World;
  restore : string → FileCreator → World → option error * World;
  selectReleaseLockSignal : World → bool * World
}.

Section Policies.
Context {U : Util} {R : MapRange} {IO : IOShim}.

(** What a run does to the outside, in order. *)
Inductive event :=
| EvCommand (name : string) (args : list string) (output : string) (err : option cmd_error)
| EvPipeToGrep (command grep : string * list string) (searchResults : string) (gotMatches : bool) (err : option error)
| EvAllCurrentAzureChains (iptables : string) (chains : gset string) (err : option error)
| EvRestore (iptables : string) (creator : FileCreator) (err : option error)
| EvSelectSignal (received : bool)
| EvSendErrorLogAndMetric (msg : text)
| EvSendLog (msg : text).

(** ** Package-level values *)

Definition iptablesAzureChains : list string := [
  IptablesAzureChain;
  IptablesAzureIngressChain;
  IptablesAzureIngressAllowMarkChain;
  IptablesAzureEgressChain;
  IptablesAzureAcceptChain
].

Definition jumpToAzureChainArgs : list string := [
  IptablesJumpFlag;
  IptablesAzureChain;
  IptablesModuleFlag;
  IptablesCtstateModuleFlag;
  IptablesCtstateFlag;
  IptablesNewState
].

Definition jumpFromForwardToAzureChainArgs : list string :=
  [IptablesForwardChain] ++ jumpToAzureChainArgs.

Definition listForwardEntriesArgs : list string := [
  IptablesWaitFlag; IptablesDefaultWaitTime; IptablesTableFlag; IptablesFilterTable;
  IptablesNumericFlag; IptablesListFlag; IptablesForwardChain; IptablesLineNumbersFlag
].

Definition spaceByte : string := " ".

Definition deprecatedJumpFromForwardToAzureChainArgs : list string := [
  IptablesForwardChain;
  IptablesJumpFlag;
  IptablesAzureChain
].

Definition listHintChainArgs : list string :=
  ["KUBE-IPTABLES-HINT"; IptablesTableFlag; IptablesMangleTable; IptablesNumericFlag].
Definition listCanaryChainArgs : list string :=
  ["KUBE-KUBELET-CANARY"; IptablesTableFlag; IptablesMangleTable; IptablesNumericFlag].

(** ** The stale chain set *)

Record staleChains := { chainsToCleanup : gset string }.

Definition newStaleChains : staleChains := {| chainsToCleanup := ∅ |}.

(** [iptablesAzureChainsMap] is filled from [iptablesAzureChains] on the first
    call of [isBaseChain] and written nowhere else: every lookup is a lookup
    in the map that loop builds. *)
Definition iptablesAzureChainsMap : gset string :=
  foldl (λ m chain, {[chain]} ∪ m) ∅ iptablesAzureChains.

Definition isBaseChain (chain : string) : bool :=
  bool_decide (chain ∈ iptablesAzureChainsMap).

Definition staleChains_add (chain : string) (s : staleChains) : staleChains :=
  if negb (isBaseChain chain)
  then {| chainsToCleanup := {[chain]} ∪ chainsToCleanup s |}
  else s.

Definition staleChains_remove (chain : string) (s : staleChains) : staleChains :=
  {| chainsToCleanup := chainsToCleanup s ∖ {[chain]} |}.

Definition staleChains_emptyAndGetAll (s : staleChains) : list string * staleChains :=
  foldl (λ '(result, s) chain, (result ++ [chain], staleChains_remove chain s))
        ([], s) (rangeOrder (chainsToCleanup s)).

Definition staleChains_empty (s : staleChains) : staleChains :=
  {| chainsToCleanup := ∅ |}.

(** A caller of the stale chain set, one call after the other. *)
Inductive staleOp := Add (chain : string) | EmptyAndGetAll.

(** Runs the calls in order; gives the final set and the lists
    [emptyAndGetAll] returned, oldest first. *)
Fixpoint runStaleOps (ops : list staleOp) (s : staleChains) : staleChains * list (list string) :=
  match ops with
  | [] => (s, [])
  | Add chain :: ops' => runStaleOps ops' (staleChains_add chain s)
  | EmptyAndGetAll :: ops' =>
      let '(result, s') := staleChains_emptyAndGetAll s in
      let '(final, results) := runStaleOps ops' s' in
      (final, result :: results)
  end.

(** ** State and effects *)

Record state := {
  world : World;
  Iptables : string;               (* the global util.Iptables *)
  pMgr_staleChains : staleChains;  (* pMgr.staleChains *)
  trace : list event
}.

Definition M (A : Type) : Type := state → A * state.

Global Instance M_ret : MRet M := λ A a s, (a, s).
Global Instance M_bind : MBind M := λ A B f m s, let '(a, s') := m s in f a s'.

Definition emit (e : event) : M unit := λ s,
  (tt, {| world := world s; Iptables := Iptables s;
          pMgr_staleChains := pMgr_staleChains s; trace := trace s ++ [e] |}).

Definition withWorld {A} (f : World → A * World) : M A := λ s,
  let '(a, w) := f (world s) in
  (a, {| world := w; Iptables := Iptables s;
         pMgr_staleChains := pMgr_staleChains s; trace := trace s |}).

Definition getIptables : M string := λ s, (Iptables s, s).

Definition setIptables (v : string) : M unit := λ s,
  (tt, {| world := world s; Iptables := v;
          pMgr_staleChains := pMgr_staleChains s; trace := trace s |}).

Definition modifyStaleChains {A} (f : staleChains → A * staleChains) : M A := λ s,
  let '(a, sc) := f (pMgr_staleChains s) in
  (a, {| world := world s; Iptables := Iptables s;
         pMgr_staleChains := sc; trace := trace s |}).

(** Modelled from the spec: [util.SetIptablesToNft] and
    [util.SetIptablesToLegacy] are not in the sources; they set the
    process-wide backend mode, read by every command. *)
Definition SetIptablesToNft : M unit := setIptables IptablesNft.
Definition SetIptablesToLegacy : M unit := setIptables IptablesLegacy.

(** [pMgr.ioShim.Exec.Command(name, args...).CombinedOutput()] *)
Definition Command_CombinedOutput (name : string) (args : list string) :
    M (string * option cmd_error) :=
  '(output, err) ← withWorld (CombinedOutput name args);
  _ ← emit (EvCommand name args output err);
  mret (output, err).

Definition SendErrorLogAndMetric (msg : text) : M unit := emit (EvSendErrorLogAndMetric msg).
Definition SendLog (msg : text) : M unit := emit (EvSendLog msg).

(** ** The command executor *)

Definition ignoreErrorsAndRunIPTablesCommand
    (ignored : list exitErrorInfo) (operationFlag : string) (args : list string) :
    M (Z * option error) :=
  let allArgs := [IptablesWaitFlag; IptablesDefaultWaitTime; operationFlag] ++ args in
  iptables ← getIptables;
  '(output, err) ← Command_CombinedOutput iptables allArgs;
  match err with
  | Some (ExitError errCode) =>
      let allArgsString := Join allArgs " " in
      let outputString := TrimSuffix output newline in
      match List.find (λ info, bool_decide (errCode = exitCode info)
                               && Contains outputString (stdErr info)) ignored with
      | Some info => mret (errCode, None)
      | None =>
          _ ← (if decide (errCode > 0)
               then SendErrorLogAndMetric
                      (Sprintf "error: There was an error running command: [%s %s] Stderr: [%v, %s]"
                         [ArgS iptables; ArgS allArgsString; ArgW (ExitError errCode); ArgS outputString])
               else mret ());
          mret (errCode,
                Some (Errorf "failed to run iptables command [%s %s] Stderr: [%s]. err: [%w]"
                        [ArgS iptables; ArgS allArgsString; ArgS outputString; ArgW (ExitError errCode)]))
      end
  | _ => mret (0, None)
  end.

Definition runIPTablesCommand (operationFlag : string) (args : list string) :
    M (Z * option error) :=
  ignoreErrorsAndRunIPTablesCommand [] operationFlag args.

(** ** Loops in the monad *)

Fixpoint foldM {A B} (f : B → A → M B) (b : B) (l : list A) : M B :=
  match l with
  | [] => mret b
  | a :: l' => b' ← f b a; foldM f b' l'
  end.

Definition forM_ {A} (f : A → M unit) (l : list A) : M unit :=
  foldM (λ _ a, f a) tt l.

Definition staleChainsAdd (chain : string) : M unit :=
  modifyStaleChains (λ s, (tt, staleChains_add chain s)).

(** [aggregateError] after one more failure, as the three loops of the file
    build it; [wrapMsg] is the text of the wrapper when there was a previous
    error. *)
Definition aggregate (currentErrString wrapMsg : text) (aggregateError : option error) : option error :=
  match aggregateError with
  | None => Some (SimpleError currentErrString)
  | Some prev => Some (SimpleErrorWrapper wrapMsg prev)
  end.

(** ** Restore-file builders *)

Definition creatorForCleanup (chains : list string) : FileCreator :=
  let creator := newCreatorWithChains [] in
  let creator := foldl (λ creator chain, AddLine ["-F " +:+ chain] creator) creator chains in
  AddLine [IptablesRestoreCommit] creator.

Definition onMarkSpecs (mark : string) : list string := [
  IptablesModuleFlag;
  IptablesMarkVerb;
  IptablesMarkFlag;
  mark
].

Definition creatorForBootup (currentChains : gset string) : M FileCreator :=
  let chainsToCreate :=
    foldl (λ chainsToCreate chain,
             if decide (chain ∈ currentChains) then chainsToCreate
             else chainsToCreate ++ [chain])
          [] iptablesAzureChains in
  let creator := newCreatorWithChains chainsToCreate in
  _ ← modifyStaleChains (λ s, (tt, staleChains_empty s));
  creator ← foldM (λ creator chain,
                     let creator := AddLine ["-F " +:+ chain] creator in
                     _ ← staleChainsAdd chain;
                     mret creator)
                  creator (rangeOrder currentChains);
  (* add AZURE-NPM-INGRESS chain rules *)
  let ingressDropSpecs := [IptablesAppendFlag; IptablesAzureIngressChain; IptablesJumpFlag; IptablesDrop] in
  let ingressDropSpecs := ingressDropSpecs ++ onMarkSpecs IptablesAzureIngressDropMarkHex in
  let ingressDropSpecs := ingressDropSpecs
        ++ commentSpecs ("DROP-ON-INGRESS-DROP-MARK-" +:+ IptablesAzureIngressDropMarkHex) in
  let creator := AddLine ingressDropSpecs creator in
  (* add AZURE-NPM-INGRESS-ALLOW-MARK chain *)
  let markIngressAllowSpecs := [IptablesAppendFlag; IptablesAzureIngressAllowMarkChain] in
  let markIngressAllowSpecs := markIngressAllowSpecs ++ setMarkSpecs IptablesAzureIngressAllowMarkHex in
  let markIngressAllowSpecs := markIngressAllowSpecs
        ++ commentSpecs ("SET-INGRESS-ALLOW-MARK-" +:+ IptablesAzureIngressAllowMarkHex) in
  let creator := AddLine markIngressAllowSpecs creator in
  let creator := AddLine [IptablesAppendFlag; IptablesAzureIngressAllowMarkChain;
                          IptablesJumpFlag; IptablesAzureEgressChain] creator in
  (* add AZURE-NPM-EGRESS chain rules *)
  let egressDropSpecs := [IptablesAppendFlag; IptablesAzureEgressChain; IptablesJumpFlag; IptablesDrop] in
  let egressDropSpecs := egressDropSpecs ++ onMarkSpecs IptablesAzureEgressDropMarkHex in
  let egressDropSpecs := egressDropSpecs
        ++ commentSpecs ("DROP-ON-EGRESS-DROP-MARK-" +:+ IptablesAzureEgressDropMarkHex) in
  let creator := AddLine egressDropSpecs creator in
  let jumpOnIngressMatchSpecs := [IptablesAppendFlag; IptablesAzureEgressChain;
                                  IptablesJumpFlag; IptablesAzureAcceptChain] in
  let jumpOnIngressMatchSpecs := jumpOnIngressMatchSpecs ++ onMarkSpecs IptablesAzureIngressAllowMarkHex in
  let jumpOnIngressMatchSpecs := jumpOnIngressMatchSpecs
        ++ commentSpecs ("ACCEPT-ON-INGRESS-ALLOW-MARK-" +:+ IptablesAzureIngressAllowMarkHex) in
  let creator := AddLine jumpOnIngressMatchSpecs creator in
  (* add AZURE-NPM-ACCEPT chain rules *)
  let creator := AddLine [IptablesAppendFlag; IptablesAzureAcceptChain;
                          IptablesJumpFlag; IptablesAccept] creator in
  let creator := AddLine [IptablesRestoreCommit] creator in
  mret creator.

(** ** Cleaning up stale chains *)

(** The [deleteLoop] of [cleanupChains] on [chains[k:]], with the
    [aggregateError] built so far. *)
Fixpoint deleteLoop (chains : list string) (aggregateError : option error) : M (option error) :=
  match chains with
  | [] => mret aggregateError
  | chain :: rest =>
      received ← withWorld selectReleaseLockSignal;
      _ ← emit (EvSelectSignal received);
      if received : bool then
        (* for j := k; j < len(chains); j++ *)
        _ ← forM_ staleChainsAdd (chain :: rest);
        mret aggregateError
      else
        '(errCode, err) ← runIPTablesCommand IptablesDestroyFlag [chain];
        if bool_decide (err ≠ None) && bool_decide (errCode ≠ doesNotExistErrorCode) then
          _ ← staleChainsAdd chain;
          let currentErrString :=
            Sprintf "failed to clean up chain %s with err [%v]" [ArgS chain; ArgV err] in
          deleteLoop rest
            (aggregate currentErrString
               (Sprintf "%s and had previous error" [ArgT currentErrString]) aggregateError)
        else deleteLoop rest aggregateError
  end.

Definition cleanupChains (chains : list string) : M (option error) :=
  aggregateError ← deleteLoop chains None;
  match aggregateError with
  | Some e => mret (Some (SimpleErrorWrapper "failed to clean up some chains" e))
  | None => mret None
  end.

(** ** Positioning the jump from FORWARD to AZURE-NPM *)

Definition chainLineNumber (chain : string) : M (Z * option error) :=
  iptables ← getIptables;
  let listForwardEntriesCommand := (iptables, listForwardEntriesArgs) in
  let grepCommand := (Grep, [chain]) in
  '(searchResults, gotMatches, err) ←
    withWorld (PipeCommandToGrep listForwardEntriesCommand grepCommand);
  _ ← emit (EvPipeToGrep listForwardEntriesCommand grepCommand searchResults gotMatches err);
  match err with
  | Some e =>
      mret (0, Some (SimpleErrorWrapper
                       (Sprintf "failed to determine line number for jump from FORWARD chain to %s chain"
                          [ArgS chain]) e))
  | None =>
      let len := Z.of_nat (String.length searchResults) in
      let unexpected :=
        (0, Some (SimpleErrorWrapper
                    (Sprintf "unable to parse line number. searchResults: [%s]" [ArgS searchResults])
                    errUnexpectedLineNumberString)) in
      if negb gotMatches then mret (0, None)
      else if decide (minLineNumberStringLength ≤ len) then
        let firstSpaceIndex := Index searchResults spaceByte in
        if decide (firstSpaceIndex > 0 ∧ firstSpaceIndex < len) then
          let lineNumberString := String.substring 0 (Z.to_nat firstSpaceIndex) searchResults in
          match Atoi lineNumberString with
          | None =>
              mret (0, Some (SimpleErrorWrapper
                               (Sprintf "unable to parse line number. lineNumberString: [%s]. searchResults: [%s]"
                                  [ArgS lineNumberString; ArgS searchResults])
                               errNoLineNumber))
          | Some lineNum => mret (lineNum, None)
          end
        else mret unexpected
      else mret unexpected
  end.

(** The rest of [positionAzureChainJumpRule] once [targetIndex] is known. *)
Definition placeAzureChainJumpRule (azureChainLineNum targetIndex : Z) : M (option error) :=
  if decide (azureChainLineNum = targetIndex) then mret None
  else
    (* delete the azure jump if it exists and update the target index *)
    deleted ←
      (if decide (azureChainLineNum ≠ 0) then
         _ ← SendErrorLogAndMetric
               "Info: Reconciler deleting and re-adding jump from FORWARD chain to AZURE-NPM chain table.";
         '(deleteErrCode, deleteErr) ←
           runIPTablesCommand IptablesDeletionFlag jumpFromForwardToAzureChainArgs;
         match deleteErr with
         | Some e =>
             let baseErrString := "failed to delete jump from FORWARD chain to AZURE-NPM chain" in
             _ ← SendErrorLogAndMetric
                   (Sprintf "error: %s with error code %d and error %s"
                      [ArgS baseErrString; ArgD deleteErrCode; ArgV deleteErr]);
             mret (inl (SimpleErrorWrapper baseErrString e))
         | None =>
             mret (inr (if decide (azureChainLineNum < targetIndex)
                        then wrapInt (targetIndex - 1) else targetIndex))
         end
       else mret (inr targetIndex));
    match deleted with
    | inl e => mret (Some e)
    | inr targetIndex =>
        (* add (back) the azure jump *)
        let args :=
          if decide (targetIndex = 1) then jumpFromForwardToAzureChainArgs
          else [IptablesForwardChain; Itoa targetIndex] ++ jumpToAzureChainArgs in
        '(insertErrCode, err) ← runIPTablesCommand IptablesInsertionFlag args;
        match err with
        | Some e =>
            let baseErrString := "failed to insert jump from FORWARD chain to AZURE-NPM chain" in
            _ ← SendErrorLogAndMetric
                  (Sprintf "error: %s with error code %d and error %s"
                     [ArgS baseErrString; ArgD insertErrCode; ArgV err]);
            mret (Some (SimpleErrorWrapper baseErrString e))
        | None => mret None
        end
    end.

Definition positionAzureChainJumpRule (pMgr_PlaceAzureChainFirst : placement) : M (option error) :=
  (* get the line number for the azure jump *)
  '(azureChainLineNum, err) ← chainLineNumber IptablesAzureChain;
  match err with
  | Some e =>
      let baseErrString := "failed to get index of jump from FORWARD chain to AZURE-NPM chain" in
      _ ← SendErrorLogAndMetric (Sprintf "error: %s: %s" [ArgS baseErrString; ArgV err]);
      mret (Some (SimpleErrorWrapper baseErrString e))
  | None =>
      if bool_decide (pMgr_PlaceAzureChainFirst = PlaceAzureChainFirst)
         && bool_decide (azureChainLineNum = 1)
      then mret None
      else
        (* place the azure jump in the first position, unless we want option 2 and the kube jump exists *)
        if decide (pMgr_PlaceAzureChainFirst = PlaceAzureChainAfterKubeServices) then
          '(kubeChainLineNum, err) ← chainLineNumber IptablesKubeServicesChain;
          match err with
          | Some e =>
              let baseErrString := "failed to get index of jump from FORWARD chain to KUBE-SERVICES chain" in
              _ ← SendErrorLogAndMetric (Sprintf "error: %s: %s" [ArgS baseErrString; ArgV err]);
              mret (Some (SimpleErrorWrapper baseErrString e))
          | None =>
              placeAzureChainJumpRule azureChainLineNum
                (if decide (kubeChainLineNum ≠ 0) then wrapInt (kubeChainLineNum + 1) else 1)
          end
        else placeAzureChainJumpRule azureChainLineNum 1
  end.

(** ** Detecting the backend *)

Definition hintOrCanaryChainExist (iptablesCmd : string) : M bool :=
  prevIptables ← getIptables;
  _ ← setIptables iptablesCmd;
  result ←
    ('(_, hintErr) ← runIPTablesCommand IptablesListFlag listHintChainArgs;
     match hintErr with
     | None =>
         _ ← SendLog (Cat "found hint chain. will use iptables version: %s" iptablesCmd);
         mret true
     | Some _ =>
         (* check for canary chain *)
         '(_, canaryErr) ← runIPTablesCommand IptablesListFlag listCanaryChainArgs;
         match canaryErr with
         | Some _ => mret false
         | None =>
             _ ← SendLog (Cat "found canary chain. will use iptables version: " iptablesCmd);
             mret true
         end
     end);
  (* deferred *)
  _ ← setIptables prevIptables;
  mret result.

Definition detectIptablesVersion : M (option error) :=
  nft ← hintOrCanaryChainExist IptablesNft;
  if nft : bool then
    _ ← SetIptablesToNft;
    mret None
  else
    legacy ← hintOrCanaryChainExist IptablesLegacy;
    if legacy : bool then
      _ ← SetIptablesToLegacy;
      mret None
    else mret (Some errDetectingIptablesVersion).

(** ** Cleaning up the other backend *)

(** Modelled from the spec: [restore] is not in the sources; it applies the
    payload "by one command invocation (a batch restore call)". *)
Definition restoreCreator (creator : FileCreator) : M (option error) :=
  iptables ← getIptables;
  err ← withWorld (restore iptables creator);
  _ ← emit (EvRestore iptables creator err);
  mret err.

Definition currentAzureChains : M (gset string * option error) :=
  iptables ← getIptables;
  '(currentChains, err) ← withWorld (AllCurrentAzureChains iptables IptablesDefaultWaitTime);
  _ ← emit (EvAllCurrentAzureChains iptables currentChains err);
  mret (currentChains, err).

(** Steps 1.1 and 1.2 of [cleanupOtherIptables]: one attempt to delete a jump
    to AZURE-NPM; gives the new value of [deletedJumpRule]. *)
Definition deleteJumpRule (deletedJumpRule : bool) (args : list string) (msg : string) : M bool :=
  '(errCode, err) ←
    ignoreErrorsAndRunIPTablesCommand removeDeprecatedJumpIgnoredErrors IptablesDeletionFlag args;
  if decide (errCode = 0) then mret true
  else
    match err with
    | Some _ =>
        _ ← SendErrorLogAndMetric (Sprintf msg [ArgD errCode; ArgV err]);
        mret deletedJumpRule
    | None => mret deletedJumpRule
    end.

(** The loop of step 3.2 of [cleanupOtherIptables] over the chains other than
    AZURE-NPM, from the [aggregateError] the flush of AZURE-NPM left, and the
    report that follows it. *)
Definition flushOtherChains (currentChains : gset string) (aggregateError : option error) : M unit :=
  aggregateError ←
    foldM (λ aggregateError chain,
             if decide (chain = IptablesAzureChain) then mret aggregateError
             else
               '(errCode, err) ← runIPTablesCommand IptablesFlushFlag [chain];
               if bool_decide (err ≠ None) && bool_decide (errCode ≠ doesNotExistErrorCode) then
                 let currentErrString :=
                   Sprintf "failed to flush chain %s with err [%v]" [ArgS chain; ArgV err] in
                 mret (aggregate currentErrString
                         (Cat currentErrString " and had previous error") aggregateError)
               else mret aggregateError)
          aggregateError (rangeOrder currentChains);
  match aggregateError with
  | Some _ =>
      SendErrorLogAndMetric
        (Sprintf "[cleanup] benign failure to flush chains with error: %s" [ArgV aggregateError])
  | None => mret ()
  end.

(** Step 3.2 of [cleanupOtherIptables], taken when the restore call failed:
    flush the chains one by one.  [Some e] is the [return] from inside the
    step; [None] means the function goes on with step 4. *)
Definition flushOneByOne (currentChains : gset string) (deletedJumpRule : bool) : M (option error) :=
  flushed ←
    (if decide (IptablesAzureChain ∈ currentChains) then
       '(_, err) ← runIPTablesCommand IptablesFlushFlag [IptablesAzureChain];
       match err with
       | Some e =>
           if negb deletedJumpRule
           then mret (inl (SimpleErrorWrapper
                             "[cleanup] must crash and retry. failed to delete jump rule and flush AZURE-NPM chain with error" e))
           else mret (inr err)
       | None => mret (inr err)
       end
     else mret (inr None));
  match flushed with
  | inl e => mret (Some e)
  | inr aggregateError =>
      _ ← flushOtherChains currentChains aggregateError;
      mret None
  end.

(** Step 4 of [cleanupOtherIptables]. *)
Definition deleteAllChains (chains : list string) : M unit :=
  aggregateError ←
    foldM (λ aggregateError chain,
             '(errCode, err) ← runIPTablesCommand IptablesDestroyFlag [chain];
             if bool_decide (err ≠ None) && bool_decide (errCode ≠ doesNotExistErrorCode) then
               let currentErrString :=
                 Sprintf "failed to delete chain %s with err [%v]" [ArgS chain; ArgV err] in
               mret (aggregate currentErrString
                       (Cat currentErrString " and had previous error") aggregateError)
             else mret aggregateError)
          None chains;
  match aggregateError with
  | Some _ =>
      SendErrorLogAndMetric
        (Sprintf "[cleanup] benign failure to delete chains with error: %s" [ArgV aggregateError])
  | None => mret ()
  end.

(** [cleanupOtherIptables] between the switch to the other backend and the
    deferred switch back. *)
Definition cleanupOtherIptables_body : M (option error) :=
  let deletedJumpRule := false in
  (* 1.1. delete the deprecated jump to AZURE-NPM *)
  deletedJumpRule ←
    deleteJumpRule deletedJumpRule deprecatedJumpFromForwardToAzureChainArgs
      "[cleanup] failed to delete deprecated jump rule from FORWARD chain to AZURE-NPM chain for unexpected reason with exit code %d and error: %s";
  (* 1.2. delete the jump to AZURE-NPM *)
  deletedJumpRule ←
    deleteJumpRule deletedJumpRule jumpFromForwardToAzureChainArgs
      "[cleanup] failed to delete jump rule from FORWARD chain to AZURE-NPM chain for unexpected reason with exit code %d and error: %s";
  (* 2. get current chains *)
  '(currentChains, err) ← currentAzureChains;
  match err with
  | Some e =>
      mret (Some (SimpleErrorWrapper "[cleanup] failed to get current chains for bootup" e))
  | None =>
      if decide (size currentChains = 0%nat) then mret None
      else
        (* 3.1. try to flush all chains at once *)
        let chains := if decide (IptablesAzureChain ∈ currentChains) then [IptablesAzureChain] else [] in
        let chains :=
          foldl (λ chains chain,
                   if decide (chain = IptablesAzureChain) then chains else chains ++ [chain])
                chains (rangeOrder currentChains) in
        let creator := creatorForCleanup chains in
        restoreErr ← restoreCreator creator;
        fatal ←
          match restoreErr with
          | Some _ =>
              _ ← SendErrorLogAndMetric
                    (Sprintf "[cleanup] failed to flush all chains with error: %s" [ArgV restoreErr]);
              (* 3.2. if we failed to flush all chains, then try to flush and delete them one by one *)
              flushOneByOne currentChains deletedJumpRule
          | None => mret None
          end;
        match fatal with
        | Some e => mret (Some e)
        | None =>
            (* 4. delete all chains *)
            _ ← deleteAllChains chains;
            mret None
        end
  end.

Definition cleanupOtherIptables : M (option error) :=
  iptables ← getIptables;
  let hadNFT := bool_decide (iptables = IptablesNft) in
  _ ← (if hadNFT then SetIptablesToLegacy else SetIptablesToNft);
  result ← cleanupOtherIptables_body;
  (* deferred *)
  _ ← (if hadNFT then SetIptablesToNft else SetIptablesToLegacy);
  mret result.

(** ** Reconciling *)

(** The part of [reconcile] between [Lock] and the deferred [Unlock]. *)
Definition reconcileLocked : M unit :=
  staleChains ← modifyStaleChains staleChains_emptyAndGetAll;
  if decide (length staleChains = 0%nat) then mret ()
  else
    err ← cleanupChains staleChains;
    match err with
    | Some _ =>
        let msg :=
          Sprintf "failed to clean up old policy chains with the following error: %s" [ArgV err] in
        SendErrorLogAndMetric (Sprintf "error: %s" [ArgT msg])
    | None => mret ()
    end.

(** [reconcile].  [Lock] and [Unlock] themselves are not modelled: the run
    is that of the one goroutine that holds the lock from [Lock] on. *)
Definition reconcile (pMgr_PlaceAzureChainFirst : placement) : M unit :=
  err ← positionAzureChainJumpRule pMgr_PlaceAzureChainFirst;
  _ ← match err with
      | Some _ =>
          let msg := Sprintf "failed to reconcile jump rule to Azure-NPM due to %s" [ArgV err] in
          SendErrorLogAndMetric (Sprintf "error: %s" [ArgT msg])
      | None => mret ()
      end;
  reconcileLocked.

(** ** Booting up *)

Definition bootupAfterDetectAndCleanup (pMgr_PlaceAzureChainFirst : placement) : M (option error) :=
  (* 1. delete the deprecated jump to AZURE-NPM *)
  '(deprecatedErrCode, deprecatedErr) ←
    ignoreErrorsAndRunIPTablesCommand removeDeprecatedJumpIgnoredErrors IptablesDeletionFlag
      deprecatedJumpFromForwardToAzureChainArgs;
  _ ← (if decide (deprecatedErrCode = 0) then mret ()
       else
         match deprecatedErr with
         | Some _ =>
             SendErrorLogAndMetric
               (Sprintf "failed to delete deprecated jump rule from FORWARD chain to AZURE-NPM chain for unexpected reason with exit code %d and error: %s"
                  [ArgD deprecatedErrCode; ArgV deprecatedErr])
         | None => mret ()
         end);
  '(currentChains, err) ← currentAzureChains;
  match err with
  | Some e => mret (Some (SimpleErrorWrapper "failed to get current chains for bootup" e))
  | None =>
      (* 2. cleanup old NPM chains, and configure base chains and their rules. *)
      creator ← creatorForBootup currentChains;
      err ← restoreCreator creator;
      match err with
      | Some e => mret (Some (SimpleErrorWrapper "failed to run iptables-restore for bootup" e))
      | None =>
          (* 3. add/reposition the jump to AZURE-NPM *)
          err ← positionAzureChainJumpRule pMgr_PlaceAzureChainFirst;
          match err with
          | Some e =>
              let baseErrString :=
                "failed to add/reposition jump from FORWARD chain to AZURE-NPM chain" in
              _ ← SendErrorLogAndMetric
                    (Sprintf "error: %s with error: %s" [ArgS baseErrString; ArgV err]);
              mret (Some (SimpleErrorWrapper baseErrString e))
          | None => mret None
          end
      end
  end.

(** ** Observations on a trace *)

(** The commands run, with the error [CombinedOutput] gave, in order. *)
Fixpoint commandsOf (evs : list event) : list (string * list string * option cmd_error) :=
  match evs with
  | [] => []
  | EvCommand name args _ err :: evs' => (name, args, err) :: commandsOf evs'
  | _ :: evs' => commandsOf evs'
  end.

(** The outcomes of the receives on [releaseLockSignal], in order. *)
Fixpoint signalsOf (evs : list event) : list bool :=
  match evs with
  | [] => []
  | EvSelectSignal received :: evs' => received :: signalsOf evs'
  | _ :: evs' => signalsOf evs'
  end.

(** [runIPTablesCommand] gives a non-nil error exactly for an exit error. *)
Definition exitFailure (err : option cmd_error) : bool :=
  match err with
  | Some (ExitError _) => true
  | _ => false
  end.

(** The arguments of the command [runIPTablesCommand] runs. *)
Definition allArgsOf (operationFlag : string) (args : list string) : list string :=
  [IptablesWaitFlag; IptablesDefaultWaitTime; operationFlag] ++ args.

(** The state after a command: the world moved on and the command is on the
    trace, followed by [evs]. *)
Definition afterCommand (st : state) (name : string) (args : list string)
    (output : string) (err : option cmd_error) (w : World) (evs : list event) : state :=
  {| world := w; Iptables := Iptables st; pMgr_staleChains := pMgr_staleChains st;
     trace := trace st ++ EvCommand name args output err :: evs |}.




(** The position the placement policy asks for, given the line number of
    the jump to KUBE-SERVICES (0 when there is none): first, or right after
    that jump when it exists. *)
Definition targetIndexOf (placeAzureChainFirst : placement) (kubeChainLineNum : Z) : Z :=
  match placeAzureChainFirst with
  | PlaceAzureChainFirst => 1
  | PlaceAzureChainAfterKubeServices =>
      if decide (kubeChainLineNum ≠ 0) then kubeChainLineNum + 1 else 1
  end.

(** Both listings of FORWARD succeed: the jump to AZURE-NPM is at line
    [azureChainLineNum] (0: absent) and, where the policy looks for it, the
    jump to KUBE-SERVICES at line [kubeChainLineNum]. *)
Definition lineNumbersRead (placeAzureChainFirst : placement) (st : state)
    (azureChainLineNum kubeChainLineNum : Z) : Prop :=
  (chainLineNumber IptablesAzureChain st).1 = (azureChainLineNum, None) ∧
  (placeAzureChainFirst = PlaceAzureChainAfterKubeServices →
   (chainLineNumber IptablesKubeServicesChain (chainLineNumber IptablesAzureChain st).2).1
   = (kubeChainLineNum, None)).

(** The two forms of the insert: without an index, and with one. *)
Definition plainInsertArgs : list string :=
  allArgsOf IptablesInsertionFlag
    ([IptablesForwardChain; IptablesJumpFlag; IptablesAzureChain; IptablesModuleFlag;
      IptablesCtstateModuleFlag; IptablesCtstateFlag; IptablesNewState]).

Definition numericInsertArgs (index : Z) : list string :=
  allArgsOf IptablesInsertionFlag
    ([IptablesForwardChain; Itoa index; IptablesJumpFlag; IptablesAzureChain; IptablesModuleFlag;
      IptablesCtstateModuleFlag; IptablesCtstateFlag; IptablesNewState]).

Definition insertArgsAt (index : Z) : list string :=
  if decide (index = 1) then plainInsertArgs else numericInsertArgs index.

Definition deleteJumpArgs : list string :=
  allArgsOf IptablesDeletionFlag
    ([IptablesForwardChain; IptablesJumpFlag; IptablesAzureChain; IptablesModuleFlag;
      IptablesCtstateModuleFlag; IptablesCtstateFlag; IptablesNewState]).

(** The backend [cleanupOtherIptables] cleans up: the one that is not in
    use. *)
Definition otherIptables (iptables : string) : string :=
  if bool_decide (iptables = IptablesNft) then IptablesLegacy else IptablesNft.

(** The claim on the decrement, in the spec's words: after the delete, the
    target, one past the KUBE-SERVICES jump, is decremented exactly when that
    jump was above the deleted one (at a smaller line number). *)
Definition claimed_insert_index (azureChainLineNum kubeChainLineNum : Z) : Z :=
  let target := kubeChainLineNum + 1 in
  if decide (kubeChainLineNum < azureChainLineNum) then target - 1 else target.

Definition claimed_decrement_rule (st : state) (azureChainLineNum kubeChainLineNum : Z) : Prop :=
  lineNumbersRead PlaceAzureChainAfterKubeServices st azureChainLineNum kubeChainLineNum →
  ∀ evs e rest,
    trace (positionAzureChainJumpRule PlaceAzureChainAfterKubeServices st).2 = trace st ++ evs →
    commandsOf evs = (Iptables st, deleteJumpArgs, e) :: rest →
    exitFailure e = false →
    (λ c, c.1) <$> rest
    = [(Iptables st, insertArgsAt (claimed_insert_index azureChainLineNum kubeChainLineNum))].

(** The claim on the errors of [cleanupOtherIptables], in the spec's words: a
    non-nil error only when deleting a jump to AZURE-NPM failed and flushing
    AZURE-NPM failed. *)
Definition claimed_error_only_on_double_failure (st : state) : Prop :=
  (cleanupOtherIptables st).1 ≠ None →
  ∀ evs, trace (cleanupOtherIptables st).2 = trace st ++ evs →
    (∃ name args err,
       (name, allArgsOf IptablesDeletionFlag args, err) ∈ commandsOf evs ∧
       exitFailure err = true) ∧
    (∃ name err,
       (name, allArgsOf IptablesFlushFlag [IptablesAzureChain], err) ∈ commandsOf evs ∧
       exitFailure err = true).

(** One of the two summaries [cleanupOtherIptables] sends to the error log
    and metrics after chains could not be flushed or deleted. *)
Definition benignFailureLogged (evs : list event) : Prop :=
  ∃ format err,
    format ∈ ["[cleanup] benign failure to flush chains with error: %s";
              "[cleanup] benign failure to delete chains with error: %s"] ∧
    EvSendErrorLogAndMetric (Sprintf format [ArgV (Some err)]) ∈ evs.

(** A command that failed with an exit code other than
    [doesNotExistErrorCode]. *)
Definition failedCommand (c : string * list string * option cmd_error) : Prop :=
  ∃ errCode, c.2 = Some (ExitError errCode) ∧ errCode ≠ doesNotExistErrorCode.

(** No base chain is in the set. *)
Definition noBaseChain (s : staleChains) : Prop :=
  ∀ chain, isBaseChain chain = true → chain ∉ chainsToCleanup s.

(** A loop that runs commands and aggregates their errors: once the
    aggregate is set it stays set, and a failed command sets it. *)
Definition aggregatingStep (f : option error → string → M (option error)) : Prop :=
  ∀ aggregateError chain st,
    ∃ evs,
      trace (f aggregateError chain st).2 = trace st ++ evs ∧
      (aggregateError ≠ None → (f aggregateError chain st).1 ≠ None) ∧
      (∀ c, c ∈ commandsOf evs → failedCommand c → (f aggregateError chain st).1 ≠ None).

(** Everything in [evs] that goes to iptables goes to the backend
    [iptables]: commands, listings, enumerations and restore calls. *)
Definition runsUnder (iptables : string) (evs : list event) : Prop :=
  ∀ ev, ev ∈ evs →
    match ev with
    | EvCommand name _ _ _ => name = iptables
    | EvPipeToGrep command _ _ _ _ => command.1 = iptables
    | EvAllCurrentAzureChains name _ _ => name = iptables
    | EvRestore name _ _ => name = iptables
    | _ => True
    end.

(** An entry of the ignore table matches the exit code and the output. *)
Definition ignorable (ignored : list exitErrorInfo) (errCode : Z) (output : string) : Prop :=
  ∃ info, info ∈ ignored ∧ exitCode info = errCode ∧
          Contains (TrimSuffix output newline) (stdErr info) = true.

(** A string of decimal digits. *)
Fixpoint isDigits (s : string) : bool :=
  match s with
  | EmptyString => true
  | String a s' => bool_decide (is_Some (digit_of a)) && isDigits s'
  end.

(** From [st] to [st'] the trace grew by [evs], and [util.Iptables] and the
    stale chain set are as they were. *)
Definition frames (st st' : state) (evs : list event) : Prop :=
  trace st' = trace st ++ evs ∧
  Iptables st' = Iptables st ∧
  pMgr_staleChains st' = pMgr_staleChains st.

(** Events that only report: to the error log and metrics, or to the log. *)
Definition isReport (ev : event) : Prop :=
  match ev with
  | EvSendErrorLogAndMetric _ | EvSendLog _ => True
  | _ => False
  end.

Definition onlyReports (evs : list event) : Prop := Forall isReport evs.

(** The commands the positioner may run, with their outcomes [cmds], and its
    result [r]: none when the jump is in place, the insert alone when there
    is no jump, the delete alone when it fails, the delete and the insert
    otherwise. *)
Definition positionerCommands (iptables : string) (azureChainLineNum targetIndex : Z)
    (cmds : list (string * list string * option cmd_error)) (r : option error) : Prop :=
  (cmds = [] ∧ r = None ∧ azureChainLineNum = targetIndex) ∨
  (∃ e, cmds = [(iptables, insertArgsAt targetIndex, e)] ∧ azureChainLineNum = 0 ∧
        (r = None ↔ exitFailure e = false)) ∨
  (∃ e cause, cmds = [(iptables, deleteJumpArgs, e)] ∧ exitFailure e = true ∧
        r = Some (SimpleErrorWrapper
                    "failed to delete jump from FORWARD chain to AZURE-NPM chain" cause)) ∨
  (∃ e1 e2 index,
        cmds = [(iptables, deleteJumpArgs, e1); (iptables, insertArgsAt index, e2)] ∧
        exitFailure e1 = false ∧ (r = None ↔ exitFailure e2 = false)).

(** The chain [x] is one that [cleanupChains] puts back: it is at an index
    of [chains] the loop did not reach (there are commands for the indices
    before only), or the command for its index failed. *)
Definition requeued (chains : list string)
    (cmds : list (string * list string * option cmd_error)) (x : string) : Prop :=
  ∃ i, chains !! i = Some x ∧
       ((length cmds ≤ i)%nat ∨ ∃ c, cmds !! i = Some c ∧ failedCommand c).

(** The stale set of [st'] is the chains of [currentChains] that are not
    base chains. *)
Definition staleIsPresentPolicyChains (currentChains : gset string) (st' : state) : Prop :=
  ∀ chain, chain ∈ chainsToCleanup (pMgr_staleChains st') ↔
           chain ∈ currentChains ∧ isBaseChain chain = false.

(** The command that deletes the deprecated jump from FORWARD to AZURE-NPM. *)
Definition deleteDeprecatedJumpArgs : list string :=
  allArgsOf IptablesDeletionFlag [IptablesForwardChain; IptablesJumpFlag; IptablesAzureChain].

(** From [st] to [st'] the events [evs] were added, every command among them
    under the backend of [st], no signal was polled, and [util.Iptables] and
    the stale set are as before. *)
Definition quiet (st st' : state) (evs : list event) : Prop :=
  frames st st' evs ∧ signalsOf evs = [] ∧ runsUnder (Iptables st) evs.

Definition Quiet {A} (m : M A) : Prop := ∀ st, ∃ evs, quiet st (m st).2 evs.

(** The list [chains] that [cleanupOtherIptables] builds from the enumerated
    chains: AZURE-NPM first when it is there, then the others as the map
    ranges. *)
Definition cleanupChainOrder (currentChains : gset string) : list string :=
  foldl (λ chains chain,
           if decide (chain = IptablesAzureChain) then chains else chains ++ [chain])
        (if decide (IptablesAzureChain ∈ currentChains) then [IptablesAzureChain] else [])
        (rangeOrder currentChains).

(** The command, without its result, that destroys [chain] under [iptables]. *)
Definition destroyCommand (iptables chain : string) : string * list string :=
  (iptables, allArgsOf IptablesDestroyFlag [chain]).

(** The target index as [positionAzureChainJumpRule] computes it, in Go's
    [int]: first, or one past the jump to KUBE-SERVICES when it exists. *)
Definition wrappedTargetIndex (placeAzureChainFirst : placement) (kubeChainLineNum : Z) : Z :=
  match placeAzureChainFirst with
  | PlaceAzureChainFirst => 1
  | PlaceAzureChainAfterKubeServices =>
      if decide (kubeChainLineNum ≠ 0) then wrapInt (kubeChainLineNum + 1) else 1
  end.

End Policies.

(** ** A concrete environment *)

(** The values the constants have in azure-npm, to run the model on examples. *)
Definition npmUtil : Util := {|
  IptablesAzureChain := "AZURE-NPM";
  IptablesAzureIngressChain := "AZURE-NPM-INGRESS";
  IptablesAzureIngressAllowMarkChain := "AZURE-NPM-INGRESS-ALLOW-MARK";
  IptablesAzureEgressChain := "AZURE-NPM-EGRESS";
  IptablesAzureAcceptChain := "AZURE-NPM-ACCEPT";
  IptablesKubeServicesChain := "KUBE-SERVICES";
  IptablesForwardChain := "FORWARD";
  IptablesJumpFlag := "-j";
  IptablesModuleFlag := "-m";
  IptablesCtstateModuleFlag := "conntrack";
  IptablesCtstateFlag := "--ctstate";
  IptablesNewState := "NEW";
  IptablesWaitFlag := "-w";
  IptablesDefaultWaitTime := "60";
  IptablesTableFlag := "-t";
  IptablesFilterTable := "filter";
  IptablesMangleTable := "mangle";
  IptablesNumericFlag := "-n";
  IptablesListFlag := "-L";
  IptablesLineNumbersFlag := "--line-numbers";
  IptablesDeletionFlag := "-D";
  IptablesInsertionFlag := "-I";
  IptablesDestroyFlag := "-X";
  IptablesFlushFlag := "-F";
  IptablesAppendFlag := "-A";
  IptablesDrop := "DROP";
  IptablesAccept := "ACCEPT";
  IptablesRestoreCommit := "COMMIT";
  IptablesMarkVerb := "mark";
  IptablesMarkFlag := "--mark";
  IptablesAzureIngressDropMarkHex := "0x4000";
  IptablesAzureIngressAllowMarkHex := "0x2000";
  IptablesAzureEgressDropMarkHex := "0x5000";
  IptablesNft := "iptables-nft";
  IptablesLegacy := "iptables";
  Grep := "grep";
  setMarkSpecs := λ mark, ["-j"; "MARK"; "--set-mark"; mark];
  commentSpecs := λ comment, ["-m"; "comment"; "--comment"; comment]
|}.

(** Ranging over a map in the order of [elements]. *)
Program Definition elementsRange : MapRange := {| rangeOrder := elements |}.
Next Obligation. done. Qed.

(** A scripted world, in the way of a fake exec: every capability answers
    with the next entry of its script, and with success once the script is
    used up. *)
Record script := {
  commandResults : list (string * option cmd_error);
  grepResults : list (string * bool * option error);
  chainResults : list (gset string * option error);
  restoreResults : list (option error);
  signalResults : list bool
}.

Definition scriptedShim : IOShim := {|
  World := script;
  CombinedOutput := λ _ _ w,
    (hd ("", None) (commandResults w),
     {| commandResults := tl (commandResults w); grepResults := grepResults w;
        chainResults := chainResults w; restoreResults := restoreResults w;
        signalResults := signalResults w |});
  PipeCommandToGrep := λ _ _ w,
    (hd ("", false, None) (grepResults w),
     {| commandResults := commandResults w; grepResults := tl (grepResults w);
        chainResults := chainResults w; restoreResults := restoreResults w;
        signalResults := signalResults w |});
  AllCurrentAzureChains := λ _ _ w,
    (hd (∅, None) (chainResults w),
     {| commandResults := commandResults w; grepResults := grepResults w;
        chainResults := tl (chainResults w); restoreResults := restoreResults w;
        signalResults := signalResults w |});
  restore := λ _ _ w,
    (hd None (restoreResults w),
     {| commandResults := commandResults w; grepResults := grepResults w;
        chainResults := chainResults w; restoreResults := tl (restoreResults w);
        signalResults := signalResults w |});
  selectReleaseLockSignal := λ w,
    (hd false (signalResults w),
     {| commandResults := commandResults w; grepResults := grepResults w;
        chainResults := chainResults w; restoreResults := restoreResults w;
        signalResults := tl (signalResults w) |})
|}.

Definition emptyScript : script := {|
  commandResults := []; grepResults := []; chainResults := [];
  restoreResults := []; signalResults := []
|}.

(** The state at process start under the scripted world [w]: backend
    [iptables], no stale chain, nothing done yet. *)
Definition initialState (iptables : string) (w : script) :
    @state scriptedShim :=
  @Build_state scriptedShim w iptables newStaleChains [].

(** *** Scenarios *)

Definition azureJumpLine (n : string) : string :=
  n +:+ "    AZURE-NPM  all  --  0.0.0.0/0            0.0.0.0/0            ctstate NEW".
Definition kubeJumpLine (n : string) : string :=
  n +:+ "    KUBE-SERVICES  all  --  0.0.0.0/0            0.0.0.0/0            ctstate NEW".

(** FORWARD as the two listings show it: the jump to AZURE-NPM at line
    [azure] and the jump to KUBE-SERVICES at line [kube], [None] for a jump
    that is not there.  Every command succeeds. *)
Definition forwardState (azure kube : option string) : @state scriptedShim :=
  let found (line : string → string) (n : option string) :=
    match n with
    | Some n => (line n, true, None)
    | None => ("", false, None)
    end in
  initialState "iptables"
    {| commandResults := [];
       grepResults := [found azureJumpLine azure; found kubeJumpLine kube];
       chainResults := []; restoreResults := []; signalResults := [] |}.

(** A drain of three stale chains that is told to stop before the second. *)
Definition takeoverState : @state scriptedShim :=
  initialState "iptables"
    {| commandResults := [("", None)]; grepResults := []; chainResults := [];
       restoreResults := []; signalResults := [false; true] |}.

(** Deleting a jump that is not there: exit code 1, known to the table. *)
Definition badRuleState : @state scriptedShim :=
  initialState "iptables"
    {| commandResults :=
         [("iptables: Bad rule (does a matching rule exist in that chain?)." +:+ newline,
           Some (ExitError 1))];
       grepResults := []; chainResults := []; restoreResults := []; signalResults := [] |}.

(** The iptables binary cannot be started. *)
Definition noBinaryState : @state scriptedShim :=
  initialState "iptables"
    {| commandResults := [("", Some (StartError "exec: iptables: executable file not found in $PATH"))];
       grepResults := []; chainResults := []; restoreResults := []; signalResults := [] |}.

(** Cleanup of the other backend: no jump to delete, the restore call fails,
    and so does the flush of AZURE-NPM. *)
Definition doubleFailureState : @state scriptedShim :=
  initialState "iptables-nft"
    {| commandResults :=
         [("iptables: Bad rule (does a matching rule exist in that chain?).", Some (ExitError 1));
          ("iptables: Bad rule (does a matching rule exist in that chain?).", Some (ExitError 1));
          ("iptables: Resource temporarily unavailable.", Some (ExitError 4))];
       grepResults := [];
       chainResults := [({["AZURE-NPM"; "AZURE-NPM-INGRESS"]}, None)];
       restoreResults := [Some (ExternalError "iptables-restore failed")];
       signalResults := [] |}.

(** Cleanup of the other backend: both jumps are deleted, then the chains
    cannot be enumerated. *)
Definition enumerationFailureState : @state scriptedShim :=
  initialState "iptables-nft"
    {| commandResults := [("", None); ("", None)];
       grepResults := [];
       chainResults := [(∅, Some (ExternalError "iptables-save failed"))];
       restoreResults := [];
       signalResults := [] |}.

(** The listing of FORWARD for the jump to AZURE-NPM fails. *)
Definition listingFailureState : @state scriptedShim :=
  initialState "iptables"
    {| commandResults := [];
       grepResults := [("", false, Some (ExternalError "grep: cannot start"))];
       chainResults := []; restoreResults := []; signalResults := [] |}.

(** Two policy chains are stale, and the first poll of the release signal
    finds it set.  FORWARD holds neither jump. *)
Definition interruptedReconcileState : @state scriptedShim :=
  @Build_state scriptedShim
    {| commandResults := []; grepResults := []; chainResults := [];
       restoreResults := []; signalResults := [true] |}
    "iptables"
    {| chainsToCleanup := {["AZURE-NPM-INGRESS-123"; "AZURE-NPM-EGRESS-456"]} |}
    [].

(** Bootup: there is no deprecated jump, two chains are present, and the
    restore call fails. *)
Definition bootRestoreFailureState : @state scriptedShim :=
  initialState "iptables-nft"
    {| commandResults :=
         [("iptables: Bad rule (does a matching rule exist in that chain?).", Some (ExitError 1))];
       grepResults := [];
       chainResults := [({["AZURE-NPM"; "AZURE-NPM-INGRESS-123"]}, None)];
       restoreResults := [Some (ExternalError "iptables-restore failed")];
       signalResults := [] |}.

(** Bootup or cleanup with two chains present and everything succeeding;
    FORWARD holds neither jump. *)
Definition twoChainsState : @state scriptedShim :=
  initialState "iptables-nft"
    {| commandResults := [];
       grepResults := [];
       chainResults := [({["AZURE-NPM"; "AZURE-NPM-INGRESS-123"]}, None)];
       restoreResults := [];
       signalResults := [] |}.

(** Cleanup of the other backend with two chains present: the restore call
    fails, the flushes and destroys chain by chain succeed. *)
Definition restoreFailureCleanupState : @state scriptedShim :=
  initialState "iptables-nft"
    {| commandResults := [];
       grepResults := [];
       chainResults := [({["AZURE-NPM"; "AZURE-NPM-INGRESS-123"]}, None)];
       restoreResults := [Some (ExternalError "iptables-restore failed")];
       signalResults := [] |}.

(** * Properties *)

Section Properties.
Context {U : Util} {R : MapRange} {IO : IOShim}.

(** ** The stale chain set *)

Lemma iptablesAzureChainsMap_elem chain :
  chain ∈ iptablesAzureChainsMap ↔ chain ∈ iptablesAzureChains.
Proof. unfold iptablesAzureChainsMap, iptablesAzureChains. simpl. set_solver. Qed.

Lemma isBaseChain_true chain :
  isBaseChain chain = true ↔ chain ∈ iptablesAzureChains.
Proof.
  unfold isBaseChain. rewrite bool_decide_eq_true.
  apply iptablesAzureChainsMap_elem.
Qed.

Lemma staleChains_add_base chain s :
  isBaseChain chain = true → staleChains_add chain s = s.
Proof. intros Hb. unfold staleChains_add. by rewrite Hb. Qed.

Lemma elem_of_staleChains_add c chain s :
  c ∈ chainsToCleanup (staleChains_add chain s) ↔
  c ∈ chainsToCleanup s ∨ (c = chain ∧ isBaseChain chain = false).
Proof.
  unfold staleChains_add. destruct (isBaseChain chain); simpl; set_solver.
Qed.

Lemma emptyAndGetAll_loop (l acc : list string) (s : staleChains) :
  foldl (λ '(result, s) chain, (result ++ [chain], staleChains_remove chain s)) (acc, s) l
  = (acc ++ l, {| chainsToCleanup := chainsToCleanup s ∖ list_to_set l |}).
Proof.
  revert acc s. induction l as [|c l IH]; intros acc s; simpl.
  - rewrite app_nil_r. destruct s as [m]. simpl. f_equal. f_equal. set_solver.
  - rewrite IH. rewrite <- app_assoc. simpl. f_equal. f_equal. set_solver.
Qed.

(** [emptyAndGetAll] returns the keys, in the order of the range, and leaves
    the set empty. *)
Lemma staleChains_emptyAndGetAll_eq s :
  staleChains_emptyAndGetAll s = (rangeOrder (chainsToCleanup s), newStaleChains).
Proof.
  unfold staleChains_emptyAndGetAll. rewrite emptyAndGetAll_loop. simpl.
  f_equal. unfold newStaleChains. f_equal.
  apply set_eq. intros x. rewrite elem_of_difference, elem_of_list_to_set.
  rewrite (rangeOrder_perm (chainsToCleanup s)), elem_of_elements. set_solver.
Qed.

Lemma elem_of_rangeOrder c (m : gset string) : c ∈ rangeOrder m ↔ c ∈ m.
Proof. by rewrite (rangeOrder_perm m), elem_of_elements. Qed.

Lemma noBaseChain_new : noBaseChain newStaleChains.
Proof. intros c _. simpl. set_solver. Qed.

Lemma noBaseChain_add chain s : noBaseChain s → noBaseChain (staleChains_add chain s).
Proof.
  intros Hs c Hc. rewrite elem_of_staleChains_add. intros [Hin|[-> Hn]].
  - by apply (Hs c).
  - congruence.
Qed.

Lemma runStaleOps_noBaseChain ops s :
  noBaseChain s →
  noBaseChain (runStaleOps ops s).1 ∧
  ∀ result chain, result ∈ (runStaleOps ops s).2 → isBaseChain chain = true → chain ∉ result.
Proof.
  revert s. induction ops as [|[chain|] ops IH]; intros s Hs; simpl.
  - split; [done|]. intros result chain Hin. by apply elem_of_nil in Hin.
  - apply IH. by apply noBaseChain_add.
  - rewrite staleChains_emptyAndGetAll_eq.
    destruct (IH newStaleChains noBaseChain_new) as [IH1 IH2].
    destruct (runStaleOps ops newStaleChains) as [final results]. simpl in *.
    split; [done|]. intros result chain Hin Hb.
    apply elem_of_cons in Hin as [->|Hin].
    + rewrite elem_of_rangeOrder. by apply Hs.
    + by apply (IH2 result).
Qed.

(** C1.  Whatever calls of [add] and [emptyAndGetAll] are made on a new stale
    chain set, a base chain (an element of [iptablesAzureChains]) is neither
    in the set afterwards nor in any list [emptyAndGetAll] returned, and
    [add] of a base chain leaves every set as it is. *)
Theorem stale_set_never_holds_base_chain (ops : list staleOp) (chain : string) :
  chain ∈ iptablesAzureChains →
  isBaseChain chain = true ∧
  chain ∉ chainsToCleanup (runStaleOps ops newStaleChains).1 ∧
  (∀ result, result ∈ (runStaleOps ops newStaleChains).2 → chain ∉ result) ∧
  (∀ s, staleChains_add chain s = s).
Proof.
  intros Hb. apply isBaseChain_true in Hb.
  destruct (runStaleOps_noBaseChain ops newStaleChains noBaseChain_new) as [H1 H2].
  split; [done|].
  split; [by apply H1|].
  split; [intros result Hin; by apply (H2 result)|].
  intros s. by apply staleChains_add_base.
Qed.

(** ** The command executor *)

(** Trimming the final newline of the output does not change which texts
    occur in it, for a text that does not end with a newline itself. *)
Lemma HasPrefix_TrimSuffix_newline (s sub : string) :
  HasSuffix sub newline = false →
  HasPrefix (TrimSuffix s newline) sub = HasPrefix s sub.
Proof.
  revert sub. induction s as [|a s IH]; intros sub Hsub; [done|].
  cbn [TrimSuffix]. destruct sub as [|b sub]; [by destruct (bool_decide _)|].
  cbn [HasSuffix] in Hsub. apply orb_false_iff in Hsub as [Hne Hsub].
  apply bool_decide_eq_false in Hne.
  destruct (bool_decide (String a s = newline)) eqn:Hnl.
  - apply bool_decide_eq_true in Hnl. injection Hnl as -> ->. simpl.
    destruct sub as [|c sub]; [|by rewrite andb_false_r].
    rewrite andb_true_r. symmetry. apply bool_decide_eq_false. intros ->. by apply Hne.
  - simpl. destruct sub as [|c sub]; [by destruct (TrimSuffix s newline), s|].
    by rewrite IH.
Qed.

Lemma Contains_TrimSuffix_newline (s sub : string) :
  HasSuffix sub newline = false →
  Contains (TrimSuffix s newline) sub = Contains s sub.
Proof.
  intros Hsub. induction s as [|a s IH]; [done|].
  pose proof (HasPrefix_TrimSuffix_newline (String a s) sub Hsub) as Hp.
  cbn [TrimSuffix] in *. destruct (bool_decide (String a s = newline)) eqn:Hnl.
  - apply bool_decide_eq_true in Hnl. injection Hnl as -> ->.
    cbn [Contains]. rewrite <- Hp. by destruct (HasPrefix "" sub).
  - cbn [Contains]. by rewrite Hp, IH.
Qed.

(** No text of the ignore table of the file ends with a newline. *)
Lemma removeDeprecatedJumpIgnoredErrors_no_newline info :
  info ∈ removeDeprecatedJumpIgnoredErrors → HasSuffix (stdErr info) newline = false.
Proof.
  unfold removeDeprecatedJumpIgnoredErrors. intros Hin.
  repeat (apply elem_of_cons in Hin as [->|Hin]; [vm_compute; reflexivity|]).
  by apply elem_of_nil in Hin.
Qed.

Ltac munfold :=
  unfold mbind, M_bind, mret, M_ret, withWorld, emit, getIptables, setIptables,
    modifyStaleChains, SendErrorLogAndMetric, SendLog in *.

Lemma snoc_snoc {A} (l : list A) x y : (l ++ [x]) ++ [y] = l ++ [x; y].
Proof. by rewrite <- app_assoc. Qed.

Lemma ignoreErrors_no_exit_error ignored operationFlag args st output err w :
  CombinedOutput (Iptables st) (allArgsOf operationFlag args) (world st) = ((output, err), w) →
  exitFailure err = false →
  ignoreErrorsAndRunIPTablesCommand ignored operationFlag args st
  = ((0, None), afterCommand st (Iptables st) (allArgsOf operationFlag args) output err w []).
Proof.
  intros Hc Hf. unfold ignoreErrorsAndRunIPTablesCommand, Command_CombinedOutput.
  munfold. fold (allArgsOf operationFlag args). rewrite Hc. simpl.
  destruct err as [[c|msg]|]; try discriminate; reflexivity.
Qed.

Lemma ignoreErrors_exit_error ignored operationFlag args st output errCode w :
  CombinedOutput (Iptables st) (allArgsOf operationFlag args) (world st)
    = ((output, Some (ExitError errCode)), w) →
  let allArgs := allArgsOf operationFlag args in
  let outputString := TrimSuffix output newline in
  ignoreErrorsAndRunIPTablesCommand ignored operationFlag args st
  = match List.find (λ info, bool_decide (errCode = exitCode info)
                             && Contains outputString (stdErr info)) ignored with
    | Some _ =>
        ((errCode, None),
         afterCommand st (Iptables st) allArgs output (Some (ExitError errCode)) w [])
    | None =>
        ((errCode,
          Some (Errorf "failed to run iptables command [%s %s] Stderr: [%s]. err: [%w]"
                  [ArgS (Iptables st); ArgS (Join allArgs " "); ArgS outputString;
                   ArgW (ExitError errCode)])),
         afterCommand st (Iptables st) allArgs output (Some (ExitError errCode)) w
           (if decide (errCode > 0)
            then [EvSendErrorLogAndMetric
                    (Sprintf "error: There was an error running command: [%s %s] Stderr: [%v, %s]"
                       [ArgS (Iptables st); ArgS (Join allArgs " ");
                        ArgW (ExitError errCode); ArgS outputString])]
            else []))
    end.
Proof.
  intros Hc allArgs outputString.
  unfold ignoreErrorsAndRunIPTablesCommand, Command_CombinedOutput.
  munfold. fold (allArgsOf operationFlag args). rewrite Hc. simpl.
  fold allArgs outputString.
  destruct (List.find _ ignored); [reflexivity|].
  destruct (decide (errCode > 0)); simpl; unfold afterCommand; simpl;
    rewrite <- ?app_assoc; reflexivity.
Qed.

(** C8.  A command that exits with a non-zero status: when an entry of the
    ignore table has that exit code and its [stdErr] occurs in the captured
    output (the string the executor logs and wraps, [output] without its
    final newline), the call gives that exit code and a nil error; when no
    entry does, it gives the exit code and an error that wraps the exit
    status and the captured output.  For a [stdErr] that does not end with a
    newline, as in the table of the file, occurring in the captured output
    with or without its final newline is the same. *)
Theorem ignorable_exit_is_success_other_exit_is_error
    (ignored : list exitErrorInfo) (operationFlag : string) (args : list string)
    (st : state) (output : string) (errCode : Z) (w : World) :
  CombinedOutput (Iptables st) (allArgsOf operationFlag args) (world st)
    = ((output, Some (ExitError errCode)), w) →
  errCode ≠ 0 →
  let outputString := TrimSuffix output newline in
  let matches info := exitCode info = errCode ∧ Contains outputString (stdErr info) = true in
  ((∃ info, info ∈ ignored ∧ matches info) →
   (ignoreErrorsAndRunIPTablesCommand ignored operationFlag args st).1 = (errCode, None))
  ∧
  ((∀ info, info ∈ ignored → ¬ matches info) →
   (ignoreErrorsAndRunIPTablesCommand ignored operationFlag args st).1
   = (errCode,
      Some (Errorf "failed to run iptables command [%s %s] Stderr: [%s]. err: [%w]"
              [ArgS (Iptables st); ArgS (Join (allArgsOf operationFlag args) " ");
               ArgS outputString; ArgW (ExitError errCode)])))
  ∧
  (∀ info, HasSuffix (stdErr info) newline = false →
           Contains outputString (stdErr info) = Contains output (stdErr info)).
Proof.
  intros Hc _ outputString matches.
  rewrite (ignoreErrors_exit_error ignored _ _ _ _ _ _ Hc). fold outputString.
  split; [|split; [|intros info; apply Contains_TrimSuffix_newline]].
  - intros (info & Hin & Hcode & Hout).
    destruct (List.find _ ignored) eqn:Hfind; [reflexivity|].
    apply list_elem_of_In in Hin.
    pose proof (find_none _ _ Hfind info Hin) as Hn. simpl in Hn.
    rewrite Hout, andb_true_r, bool_decide_eq_false in Hn. congruence.
  - intros Hno.
    destruct (List.find _ ignored) as [info|] eqn:Hfind; [|reflexivity].
    apply find_some in Hfind as [Hin Hm].
    apply andb_true_iff in Hm as [Hcode Hout]. apply bool_decide_eq_true in Hcode.
    exfalso. apply (Hno info); [by apply list_elem_of_In|]. by split.
Qed.

(** C10.  When running the command fails with an error that is not an exit
    error (the binary cannot be started, say), the executor gives exit code 0
    and a nil error, with an ignore table and without. *)
Theorem non_exit_error_is_reported_as_success
    (ignored : list exitErrorInfo) (operationFlag : string) (args : list string)
    (st : state) (output msg : string) (w : World) :
  CombinedOutput (Iptables st) (allArgsOf operationFlag args) (world st)
    = ((output, Some (StartError msg)), w) →
  (ignoreErrorsAndRunIPTablesCommand ignored operationFlag args st).1 = (0, None) ∧
  (runIPTablesCommand operationFlag args st).1 = (0, None).
Proof.
  intros Hc. unfold runIPTablesCommand.
  by rewrite !(ignoreErrors_no_exit_error _ _ _ _ _ _ _ Hc).
Qed.

Lemma commandsOf_app evs1 evs2 :
  commandsOf (evs1 ++ evs2) = commandsOf evs1 ++ commandsOf evs2.
Proof. induction evs1 as [|[] evs1 IH]; simpl; by rewrite ?IH. Qed.

Lemma signalsOf_app evs1 evs2 :
  signalsOf (evs1 ++ evs2) = signalsOf evs1 ++ signalsOf evs2.
Proof. induction evs1 as [|[] evs1 IH]; simpl; by rewrite ?IH. Qed.

Ltac trace_simpl :=
  repeat (progress (simpl; rewrite ?commandsOf_app, ?signalsOf_app)).

(** What one run of the plain executor does to the state. *)
Lemma runIPTablesCommand_shape operationFlag args st :
  ∃ output err w evs code e,
    CombinedOutput (Iptables st) (allArgsOf operationFlag args) (world st) = ((output, err), w) ∧
    runIPTablesCommand operationFlag args st
    = ((code, e), afterCommand st (Iptables st) (allArgsOf operationFlag args) output err w evs) ∧
    commandsOf evs = [] ∧ signalsOf evs = [] ∧
    (e = None ↔ exitFailure err = false) ∧
    (exitFailure err = false → code = 0) ∧
    (∀ c, err = Some (ExitError c) → code = c).
Proof.
  destruct (CombinedOutput (Iptables st) (allArgsOf operationFlag args) (world st))
    as [[output err] w] eqn:Hc.
  destruct (exitFailure err) eqn:Hf.
  - destruct err as [[c|msg]|]; try discriminate.
    pose proof (ignoreErrors_exit_error [] _ _ _ _ _ _ Hc) as Hrun. simpl in Hrun.
    eexists output, _, w, _, c, _. split; [reflexivity|].
    split; [exact Hrun|]. repeat split; try done.
    + by destruct (decide (c > 0)).
    + by destruct (decide (c > 0)).
    + congruence.
  - pose proof (ignoreErrors_no_exit_error [] _ _ _ _ _ _ Hc Hf) as Hrun.
    eexists output, err, w, [], 0, None. repeat split; try done.
    intros c ->. discriminate.
Qed.

(** ** Detecting the backend *)



(** ** Cleaning up stale chains *)

Lemma forM_staleChainsAdd chains st :
  forM_ staleChainsAdd chains st
  = (tt, {| world := world st; Iptables := Iptables st;
            pMgr_staleChains := foldl (λ s chain, staleChains_add chain s) (pMgr_staleChains st) chains;
            trace := trace st |}).
Proof.
  unfold forM_. revert st. induction chains as [|chain chains IH]; intros st; simpl.
  - by destruct st.
  - unfold staleChainsAdd at 1. munfold. simpl. by rewrite IH.
Qed.

Lemma elem_of_foldl_add c chains s :
  c ∈ chainsToCleanup (foldl (λ s chain, staleChains_add chain s) s chains) ↔
  c ∈ chainsToCleanup s ∨ (c ∈ chains ∧ isBaseChain c = false).
Proof.
  revert s. induction chains as [|chain chains IH]; intros s; simpl.
  - set_solver.
  - rewrite IH, elem_of_staleChains_add, elem_of_cons. naive_solver.
Qed.

Lemma deleteLoop_spec chains aggregateError st :
  ∃ evs n,
    trace (deleteLoop chains aggregateError st).2 = trace st ++ evs ∧
    Iptables (deleteLoop chains aggregateError st).2 = Iptables st ∧
    (∀ c, c ∈ chainsToCleanup (pMgr_staleChains (deleteLoop chains aggregateError st).2) →
          c ∈ chainsToCleanup (pMgr_staleChains st) ∨ (c ∈ chains ∧ isBaseChain c = false)) ∧
    (∀ c, c ∈ chainsToCleanup (pMgr_staleChains st) →
          c ∈ chainsToCleanup (pMgr_staleChains (deleteLoop chains aggregateError st).2)) ∧
    (λ c, c.1) <$> commandsOf evs
      = (λ chain, (Iptables st, allArgsOf IptablesDestroyFlag [chain])) <$> take n chains ∧
    ((n = length chains ∧ signalsOf evs = replicate n false) ∨
     ((n < length chains)%nat ∧ signalsOf evs = replicate n false ++ [true] ∧
      ∀ c, c ∈ drop n chains → isBaseChain c = false →
           c ∈ chainsToCleanup (pMgr_staleChains (deleteLoop chains aggregateError st).2))).
Proof.
  revert aggregateError st. induction chains as [|chain rest IH]; intros aggregateError st.
  - exists [], 0%nat. simpl. rewrite app_nil_r. naive_solver.
  - simpl. munfold.
    destruct (selectReleaseLockSignal (world st)) as [received w] eqn:Hsel. simpl.
    destruct received.
    + rewrite forM_staleChainsAdd. cbn [fst snd trace Iptables pMgr_staleChains].
      exists [EvSelectSignal true], 0%nat.
      split; [done|]. split; [done|].
      split; [intros c; rewrite elem_of_foldl_add; naive_solver|].
      split; [intros c Hc; apply elem_of_foldl_add; by left|].
      split; [done|]. right.
      split; [simpl; lia|]. split; [done|].
      intros c Hc Hb. apply elem_of_foldl_add. by right.
    + match goal with |- context [runIPTablesCommand _ _ ?s] => set (st1 := s) end.
      destruct (runIPTablesCommand_shape IptablesDestroyFlag [chain] st1)
        as (o1 & e1 & w1 & evs1 & c1 & r1 & _ & Hrun1 & Hcmd1 & Hsig1 & _).
      rewrite Hrun1. clear Hrun1. cbn [fst snd].
      destruct (bool_decide (r1 ≠ None) && bool_decide (c1 ≠ doesNotExistErrorCode));
        match goal with |- context [deleteLoop rest ?agg ?s] =>
          destruct (IH agg s) as (evs2 & n & Ht & Hi & Hin & Hmono & Hcmds & Hcase);
          set (st' := deleteLoop rest agg s) in *
        end;
        cbn [trace Iptables pMgr_staleChains world afterCommand st1] in *;
        exists (EvSelectSignal false
                :: EvCommand (Iptables st) (allArgsOf IptablesDestroyFlag [chain]) o1 e1 :: evs1 ++ evs2),
               (S n);
        (split; [by rewrite Ht, <- !app_assoc|]);
        (split; [done|]);
        (split; [intros c Hc; destruct (Hin c Hc) as [Hc'|[Hc' ?]];
                 rewrite ?elem_of_staleChains_add in *; set_solver|]);
        (split; [intros c Hc; apply Hmono; rewrite ?elem_of_staleChains_add; auto|]);
        (split; [cbn [commandsOf take]; rewrite commandsOf_app, Hcmd1, app_nil_l, !fmap_cons;
                 by rewrite Hcmds|]);
        cbn [signalsOf]; rewrite signalsOf_app, Hsig1, app_nil_l;
        (destruct Hcase as [[-> Hs]|(Hlt & Hs & Hrest)];
         [left; by rewrite Hs|right; rewrite Hs; repeat split; [lia|done]]).
Qed.

Lemma cleanupChains_state chains st :
  (cleanupChains chains st).2 = (deleteLoop chains None st).2.
Proof.
  unfold cleanupChains. munfold.
  by destruct (deleteLoop chains None st) as [[e|] st'].
Qed.

(** C3.  When the receive on [releaseLockSignal] before the deletion of
    [chains[k]] gets the signal (the [k]-th receive of the run, counting
    from 0, is the first and only one that does), the destroy commands run
    were those of [chains[0..k-1]] and no other, and every chain
    [chains[j]] with [k ≤ j] is in the stale set afterwards unless it is a
    base chain, which [add] keeps out. *)
Theorem forced_takeover_requeues_remaining_chains
    (chains : list string) (st : state) (evs : list event) (k : nat) :
  trace (cleanupChains chains st).2 = trace st ++ evs →
  signalsOf evs !! k = Some true →
  (k < length chains)%nat ∧
  signalsOf evs = replicate k false ++ [true] ∧
  (λ c, c.1) <$> commandsOf evs
    = (λ chain, (Iptables st, allArgsOf IptablesDestroyFlag [chain])) <$> take k chains ∧
  (∀ j chain, (k ≤ j)%nat → chains !! j = Some chain → isBaseChain chain = false →
     chain ∈ chainsToCleanup (pMgr_staleChains (cleanupChains chains st).2)) ∧
  (∀ chain, isBaseChain chain = true →
     chain ∈ chainsToCleanup (pMgr_staleChains (cleanupChains chains st).2) →
     chain ∈ chainsToCleanup (pMgr_staleChains st)).
Proof.
  rewrite cleanupChains_state. intros Ht Hk.
  destruct (deleteLoop_spec chains None st)
    as (evs' & n & Ht' & _ & Hin & _ & Hcmds & Hcase).
  rewrite Ht in Ht'. apply app_inv_head in Ht'. subst evs'.
  assert (k = n ∧ (n < length chains)%nat ∧ signalsOf evs = replicate n false ++ [true] ∧
          ∀ c, c ∈ drop n chains → isBaseChain c = false →
               c ∈ chainsToCleanup (pMgr_staleChains (deleteLoop chains None st).2))
    as (-> & Hlt & Hs & Hrest).
  { destruct Hcase as [[_ Hs]|(Hlt & Hs & Hrest)]; rewrite Hs in Hk.
    - apply lookup_replicate in Hk as [? _]. done.
    - split; [|done].
      destruct (decide (k < n)%nat) as [Hkn|Hkn].
      + rewrite lookup_app_l in Hk by (rewrite length_replicate; lia).
        apply lookup_replicate in Hk as [? _]. done.
      + apply lookup_lt_Some in Hk. rewrite length_app, length_replicate in Hk.
        simpl in Hk. lia. }
  split; [done|]. split; [done|]. split; [done|]. split.
  - intros j chain Hj Hlook Hb. apply Hrest; [|done].
    apply list_elem_of_lookup. exists (j - n)%nat.
    rewrite lookup_drop. by replace (n + (j - n))%nat with j by lia.
  - intros chain Hb Hc. destruct (Hin chain Hc) as [?|[_ ?]]; [done|congruence].
Qed.

(** ** The restore file for bootup *)

Lemma chainsToCreate_filter (currentChains : gset string) (l acc : list string) :
  foldl (λ chainsToCreate chain,
           if decide (chain ∈ currentChains) then chainsToCreate
           else chainsToCreate ++ [chain]) acc l
  = acc ++ filter (λ chain, chain ∉ currentChains) l.
Proof.
  revert acc. induction l as [|chain l IH]; intros acc; simpl.
  - by rewrite app_nil_r.
  - rewrite IH. destruct (decide (chain ∈ currentChains)) as [Hin|Hin].
    + by rewrite filter_cons_False by (intros ?; done).
    + rewrite filter_cons_True by done. by rewrite <- app_assoc.
Qed.

Lemma bootup_flush_loop (l : list string) (creator : FileCreator) st :
  foldM (λ creator chain,
           let creator := AddLine ["-F " +:+ chain] creator in
           _ ← staleChainsAdd chain;
           mret creator) creator l st
  = (creator ++ ((λ chain, ["-F " +:+ chain]) <$> l),
     {| world := world st; Iptables := Iptables st;
        pMgr_staleChains := foldl (λ s chain, staleChains_add chain s) (pMgr_staleChains st) l;
        trace := trace st |}).
Proof.
  revert creator st. induction l as [|chain l IH]; intros creator st; simpl.
  - rewrite app_nil_r. by destruct st.
  - unfold staleChainsAdd at 1. munfold. simpl. rewrite IH. simpl.
    unfold AddLine. by rewrite <- app_assoc.
Qed.

Lemma HasPrefix_app (pre s : string) : HasPrefix (pre +:+ s) pre = true.
Proof.
  induction pre as [|a pre IH]; simpl; [by destruct s|].
  by rewrite bool_decide_eq_true_2, IH.
Qed.

(** C2.  The payload for bootup: a declaration for every base chain that is
    not present, a flush for every chain that is, the rules of the ingress,
    ingress-allow-mark, egress and accept chains, and the commit line at the
    end.  No line appends a rule to AZURE-NPM. *)
Theorem bootup_payload_has_no_rule_for_root_chain (currentChains : gset string) (st : state) :
  NoDup iptablesAzureChains →
  HasPrefix IptablesAppendFlag ":" = false →
  let creator := (creatorForBootup currentChains st).1 in
  creator =
    ((λ chain, [":" +:+ chain; "-"; "-"])
       <$> filter (λ chain, chain ∉ currentChains) iptablesAzureChains)
    ++ ((λ chain, ["-F " +:+ chain]) <$> rangeOrder currentChains)
    ++ [ [IptablesAppendFlag; IptablesAzureIngressChain; IptablesJumpFlag; IptablesDrop]
           ++ onMarkSpecs IptablesAzureIngressDropMarkHex
           ++ commentSpecs ("DROP-ON-INGRESS-DROP-MARK-" +:+ IptablesAzureIngressDropMarkHex);
         [IptablesAppendFlag; IptablesAzureIngressAllowMarkChain]
           ++ setMarkSpecs IptablesAzureIngressAllowMarkHex
           ++ commentSpecs ("SET-INGRESS-ALLOW-MARK-" +:+ IptablesAzureIngressAllowMarkHex);
         [IptablesAppendFlag; IptablesAzureIngressAllowMarkChain; IptablesJumpFlag;
          IptablesAzureEgressChain];
         [IptablesAppendFlag; IptablesAzureEgressChain; IptablesJumpFlag; IptablesDrop]
           ++ onMarkSpecs IptablesAzureEgressDropMarkHex
           ++ commentSpecs ("DROP-ON-EGRESS-DROP-MARK-" +:+ IptablesAzureEgressDropMarkHex);
         [IptablesAppendFlag; IptablesAzureEgressChain; IptablesJumpFlag; IptablesAzureAcceptChain]
           ++ onMarkSpecs IptablesAzureIngressAllowMarkHex
           ++ commentSpecs ("ACCEPT-ON-INGRESS-ALLOW-MARK-" +:+ IptablesAzureIngressAllowMarkHex);
         [IptablesAppendFlag; IptablesAzureAcceptChain; IptablesJumpFlag; IptablesAccept] ]
    ++ [[IptablesRestoreCommit]] ∧
  (∀ chain, chain ∈ iptablesAzureChains → chain ∉ currentChains →
            [":" +:+ chain; "-"; "-"] ∈ creator) ∧
  (∀ chain, chain ∈ currentChains → ["-F " +:+ chain] ∈ creator) ∧
  (∀ chain rest, IptablesAppendFlag :: chain :: rest ∈ creator →
     chain ∈ [IptablesAzureIngressChain; IptablesAzureIngressAllowMarkChain;
              IptablesAzureEgressChain; IptablesAzureAcceptChain] ∧
     chain ≠ IptablesAzureChain) ∧
  last creator = Some [IptablesRestoreCommit].
Proof.
  intros Hnodup Hflag creator.
  match goal with |- creator = ?rhs ∧ _ =>
    assert (creator = rhs) as Heq; [|split; [exact Heq|]]
  end.
  { subst creator. unfold creatorForBootup. rewrite chainsToCreate_filter. munfold. simpl.
    rewrite bootup_flush_loop. simpl. unfold AddLine, newCreatorWithChains.
    rewrite <- !app_assoc. reflexivity. }
  clearbody creator. subst creator.
  split; [|split; [|split]].
  - intros chain Hb Hc. apply elem_of_app. left.
    apply list_elem_of_fmap. exists chain. split; [done|].
    by apply list_elem_of_filter.
  - intros chain Hc. apply elem_of_app. right. apply elem_of_app. left.
    apply list_elem_of_fmap. exists chain. split; [done|]. by apply elem_of_rangeOrder.
  - intros chain rest Hin.
    assert (chain ∈ [IptablesAzureIngressChain; IptablesAzureIngressAllowMarkChain;
                     IptablesAzureEgressChain; IptablesAzureAcceptChain]) as Hfour.
    { apply elem_of_app in Hin as [Hin|Hin].
      { apply list_elem_of_fmap in Hin as (c & Heq & _). injection Heq as Heq _.
        rewrite Heq in Hflag. by rewrite (HasPrefix_app ":" c) in Hflag. }
      apply elem_of_app in Hin as [Hin|Hin].
      { apply list_elem_of_fmap in Hin as (c & Heq & _). discriminate. }
      apply elem_of_app in Hin as [Hin|Hin].
      - simpl in Hin. set_solver.
      - set_solver. }
    split; [done|].
    unfold iptablesAzureChains in Hnodup. apply NoDup_cons in Hnodup as [Hnot _].
    intros ->. done.
  - by rewrite !app_assoc, last_snoc.
Qed.

(** ** Positioning the jump *)

Lemma chainLineNumber_state chain st :
  ∃ w ev,
    (chainLineNumber chain st).2
    = {| world := w; Iptables := Iptables st; pMgr_staleChains := pMgr_staleChains st;
         trace := trace st ++ [ev] |} ∧
    commandsOf [ev] = [].
Proof.
  unfold chainLineNumber. munfold. simpl.
  destruct (PipeCommandToGrep _ _ (world st)) as [[[searchResults gotMatches] err] w]. simpl.
  eexists w, (EvPipeToGrep _ _ _ _ _). split; [|reflexivity].
  destruct err; [reflexivity|].
  destruct gotMatches; simpl; [|reflexivity].
  repeat case_decide; try reflexivity.
  by destruct (Atoi _).
Qed.

Ltac int_bounds :=
  change (2 ^ 63) with 9223372036854775808 in *;
  change (2 ^ 64) with 18446744073709551616 in *.

Lemma wrapInt_id z : - 2 ^ 63 ≤ z ≤ 2 ^ 63 - 1 → wrapInt z = z.
Proof. intros Hz. unfold wrapInt. int_bounds. rewrite Z.mod_small by lia. lia. Qed.

Lemma Atoi_range s v : Atoi s = Some v → - 2 ^ 63 ≤ v ≤ 2 ^ 63 - 1.
Proof.
  unfold Atoi.
  destruct (match s with
            | String "-"%char s' => (true, s')
            | String "+"%char s' => (false, s')
            | _ => (false, s)
            end) as [neg body].
  destruct body as [|a body]; [discriminate|].
  destruct (parse_digits 0 (String a body)) as [n|]; [|discriminate].
  cbv zeta. case_decide; [|discriminate]. by intros [= <-].
Qed.

(** A line number read without error fits in an [int]. *)
Lemma chainLineNumber_range chain st n :
  (chainLineNumber chain st).1 = (n, None) → - 2 ^ 63 ≤ n ≤ 2 ^ 63 - 1.
Proof.
  unfold chainLineNumber. munfold. simpl.
  destruct (PipeCommandToGrep _ _ (world st)) as [[[searchResults gotMatches] err] w]. simpl.
  destruct err; [discriminate|].
  destruct gotMatches; simpl; [|intros [= <-]; lia].
  repeat case_decide; try discriminate.
  destruct (Atoi _) as [v|] eqn:Hv; [|discriminate].
  simpl. intros [= <-]. by apply Atoi_range in Hv.
Qed.

(** Where the sum stays below the wrap-around, the target the code computes
    is the one the placement policy asks for. *)
Lemma wrappedTargetIndex_eq cfg st azure kube :
  lineNumbersRead cfg st azure kube →
  kube < 2 ^ 63 - 1 →
  wrappedTargetIndex cfg kube = targetIndexOf cfg kube.
Proof.
  intros [_ Hk] Hlt. destruct cfg; simpl; [done|].
  case_decide; [|done]. apply wrapInt_id.
  specialize (Hk eq_refl). apply chainLineNumber_range in Hk. int_bounds. lia.
Qed.

Lemma wrappedTargetIndex_in_place cfg st azure kube :
  lineNumbersRead cfg st azure kube →
  azure = targetIndexOf cfg kube →
  wrappedTargetIndex cfg kube = targetIndexOf cfg kube.
Proof.
  intros Hread Heq. destruct cfg; [done|].
  apply (wrappedTargetIndex_eq _ st azure kube Hread).
  destruct Hread as [Ha _]. apply chainLineNumber_range in Ha.
  unfold targetIndexOf in Heq. int_bounds. case_decide; lia.
Qed.

Lemma positionAzureChainJumpRule_eq cfg st azure kube :
  lineNumbersRead cfg st azure kube →
  positionAzureChainJumpRule cfg st
  = placeAzureChainJumpRule azure (wrappedTargetIndex cfg kube)
      (match cfg with
       | PlaceAzureChainFirst => (chainLineNumber IptablesAzureChain st).2
       | PlaceAzureChainAfterKubeServices =>
           (chainLineNumber IptablesKubeServicesChain (chainLineNumber IptablesAzureChain st).2).2
       end).
Proof.
  intros [Ha Hk]. unfold positionAzureChainJumpRule. munfold.
  destruct (chainLineNumber IptablesAzureChain st) as [[a ea] st1]. simpl in *.
  injection Ha as -> ->.
  destruct cfg; simpl.
  - unfold placeAzureChainJumpRule.
    destruct (bool_decide (azure = 1)) eqn:Hb.
    + apply bool_decide_eq_true in Hb. subst. reflexivity.
    + reflexivity.
  - specialize (Hk eq_refl).
    destruct (chainLineNumber IptablesKubeServicesChain st1) as [[k ek] st2]. simpl in *.
    by injection Hk as -> ->.
Qed.

Lemma placeAzureChainJumpRule_in_place target st :
  placeAzureChainJumpRule target target st = (None, st).
Proof. unfold placeAzureChainJumpRule. by rewrite decide_True. Qed.

Lemma insert_args_eq targetIndex :
  allArgsOf IptablesInsertionFlag
    (if decide (targetIndex = 1) then jumpFromForwardToAzureChainArgs
     else [IptablesForwardChain; Itoa targetIndex] ++ jumpToAzureChainArgs)
  = insertArgsAt targetIndex.
Proof. unfold insertArgsAt. by destruct (decide (targetIndex = 1)). Qed.

(** The insert, the last step of [placeAzureChainJumpRule]. *)
Lemma insert_step targetIndex st :
  ∃ evs e,
    trace ((let args :=
              if decide (targetIndex = 1) then jumpFromForwardToAzureChainArgs
              else [IptablesForwardChain; Itoa targetIndex] ++ jumpToAzureChainArgs in
            '(insertErrCode, err) ← runIPTablesCommand IptablesInsertionFlag args;
            match err with
            | Some e =>
                let baseErrString := "failed to insert jump from FORWARD chain to AZURE-NPM chain" in
                _ ← SendErrorLogAndMetric
                      (Sprintf "error: %s with error code %d and error %s"
                         [ArgS baseErrString; ArgD insertErrCode; ArgV err]);
                mret (Some (SimpleErrorWrapper baseErrString e))
            | None => mret None
            end) st).2 = trace st ++ evs ∧
    commandsOf evs = [(Iptables st, insertArgsAt targetIndex, e)].
Proof.
  munfold. cbv zeta.
  destruct (runIPTablesCommand_shape IptablesInsertionFlag
              (if decide (targetIndex = 1) then jumpFromForwardToAzureChainArgs
               else [IptablesForwardChain; Itoa targetIndex] ++ jumpToAzureChainArgs) st)
    as (o1 & e1 & w1 & evs1 & c1 & r1 & _ & Hrun1 & Hcmd1 & _).
  rewrite Hrun1, insert_args_eq. clear Hrun1.
  destruct r1; simpl; eexists _, e1; (split; [rewrite <- ?app_assoc; reflexivity|]);
    trace_simpl; by rewrite Hcmd1.
Qed.

Lemma placeAzureChainJumpRule_absent target st :
  target ≠ 0 →
  ∃ evs e,
    trace (placeAzureChainJumpRule 0 target st).2 = trace st ++ evs ∧
    commandsOf evs = [(Iptables st, insertArgsAt target, e)].
Proof.
  intros Ht. unfold placeAzureChainJumpRule.
  rewrite decide_False by done. rewrite (decide_False (P := 0 ≠ 0)) by (intros ?; done).
  munfold. simpl. apply (insert_step target st).
Qed.

Lemma placeAzureChainJumpRule_present azure target st :
  azure ≠ 0 → azure ≠ target →
  ∃ evs e rest,
    trace (placeAzureChainJumpRule azure target st).2 = trace st ++ evs ∧
    commandsOf evs = (Iptables st, deleteJumpArgs, e) :: rest ∧
    (exitFailure e = true →
       rest = [] ∧ (placeAzureChainJumpRule azure target st).1 ≠ None) ∧
    (exitFailure e = false →
       (λ c, c.1) <$> rest
       = [(Iptables st,
           insertArgsAt (if decide (azure < target) then wrapInt (target - 1) else target))]).
Proof.
  intros Ha Ht. unfold placeAzureChainJumpRule.
  rewrite decide_False by done. rewrite (decide_True (P := azure ≠ 0)) by done.
  munfold. simpl.
  match goal with |- context [runIPTablesCommand _ _ ?s] => set (st1 := s) end.
  destruct (runIPTablesCommand_shape IptablesDeletionFlag jumpFromForwardToAzureChainArgs st1)
    as (o1 & e1 & w1 & evs1 & c1 & r1 & _ & Hrun1 & Hcmd1 & _ & Hnil1 & _).
  rewrite Hrun1. clear Hrun1. destruct r1 as [r1|]; simpl.
  - eexists _, e1, []. split; [rewrite <- !app_assoc; reflexivity|].
    split; [trace_simpl; by rewrite Hcmd1|].
    split; [done|]. intros Hf. apply Hnil1 in Hf. done.
  - match goal with |- context [insertArgsAt ?t] =>
      destruct (insert_step t (afterCommand st1 (Iptables st1) (allArgsOf IptablesDeletionFlag
                  jumpFromForwardToAzureChainArgs) o1 e1 w1 evs1)) as (evs2 & e2 & Ht2 & Hcmd2)
    end.
    munfold. cbv zeta in Ht2. simpl in Ht2. rewrite Ht2.
    eexists _, e1, _. split; [rewrite <- !app_assoc; reflexivity|].
    split; [trace_simpl; rewrite Hcmd1, Hcmd2; reflexivity|].
    split; [|done]. intros Hf. destruct Hnil1 as [Hn _]. rewrite Hn in Hf; done.
Qed.

(** The state once the line numbers are read: one or two listings on the
    trace, no command. *)
Lemma lineNumbers_state cfg st :
  ∃ evs,
    let st2 := match cfg with
               | PlaceAzureChainFirst => (chainLineNumber IptablesAzureChain st).2
               | PlaceAzureChainAfterKubeServices =>
                   (chainLineNumber IptablesKubeServicesChain
                      (chainLineNumber IptablesAzureChain st).2).2
               end in
    trace st2 = trace st ++ evs ∧ commandsOf evs = [] ∧
    Iptables st2 = Iptables st ∧ pMgr_staleChains st2 = pMgr_staleChains st.
Proof.
  destruct (chainLineNumber_state IptablesAzureChain st) as (w1 & ev1 & -> & H1).
  destruct cfg.
  - by exists [ev1].
  - match goal with |- context [chainLineNumber IptablesKubeServicesChain ?s] =>
      destruct (chainLineNumber_state IptablesKubeServicesChain s) as (w2 & ev2 & -> & H2)
    end.
    exists ([ev1] ++ [ev2]). cbn [trace Iptables pMgr_staleChains].
    rewrite <- app_assoc. split; [done|].
    split; [|done]. by rewrite commandsOf_app, H1, H2.
Qed.

(** C4.  When the jump to AZURE-NPM is at the line the placement policy asks
    for (line 1 under the place-first policy, say),
    [positionAzureChainJumpRule] returns nil and runs no command: no delete,
    no insert. *)
Theorem jump_in_place_runs_no_command
    (cfg : placement) (st : state) (azureChainLineNum kubeChainLineNum : Z) :
  lineNumbersRead cfg st azureChainLineNum kubeChainLineNum →
  azureChainLineNum = targetIndexOf cfg kubeChainLineNum →
  (positionAzureChainJumpRule cfg st).1 = None ∧
  commandsOf (trace (positionAzureChainJumpRule cfg st).2) = commandsOf (trace st) ∧
  Iptables (positionAzureChainJumpRule cfg st).2 = Iptables st ∧
  pMgr_staleChains (positionAzureChainJumpRule cfg st).2 = pMgr_staleChains st.
Proof.
  intros Hread Heq.
  rewrite (positionAzureChainJumpRule_eq _ _ _ _ Hread),
    (wrappedTargetIndex_in_place _ _ _ _ Hread Heq), <- Heq, placeAzureChainJumpRule_in_place.
  destruct (lineNumbers_state cfg st) as (evs & Ht & Hcmd & Hi & Hs). simpl in *.
  split; [done|]. rewrite Ht, commandsOf_app, Hcmd, app_nil_r. done.
Qed.

(** C5, as the code has it.  When the jump to AZURE-NPM exists away from the
    target, it is deleted first, and after a successful delete the jump is
    inserted at the target less one exactly when its old line number was
    smaller than the target.  Under the place-after-KUBE-SERVICES policy
    with the KUBE-SERVICES jump at line [k ≠ 0] this is: at [k + 1] when
    that jump was above the deleted one ([k] smaller than the old line
    number), and at [k] when it was not.  The line number of the
    KUBE-SERVICES jump is below the largest [int], so that one past it is
    still an [int]. *)
Theorem target_decremented_when_deleted_jump_was_above_target
    (cfg : placement) (st : state) (azureChainLineNum kubeChainLineNum : Z) :
  lineNumbersRead cfg st azureChainLineNum kubeChainLineNum →
  kubeChainLineNum < 2 ^ 63 - 1 →
  azureChainLineNum ≠ 0 →
  azureChainLineNum ≠ targetIndexOf cfg kubeChainLineNum →
  let target := targetIndexOf cfg kubeChainLineNum in
  let inserted := if decide (azureChainLineNum < target) then target - 1 else target in
  (∃ evs e rest,
     trace (positionAzureChainJumpRule cfg st).2 = trace st ++ evs ∧
     commandsOf evs = (Iptables st, deleteJumpArgs, e) :: rest ∧
     (exitFailure e = false →
      (λ c, c.1) <$> rest = [(Iptables st, insertArgsAt inserted)])) ∧
  (cfg = PlaceAzureChainAfterKubeServices → kubeChainLineNum ≠ 0 →
   inserted = if decide (kubeChainLineNum < azureChainLineNum)
              then kubeChainLineNum + 1 else kubeChainLineNum).
Proof.
  intros Hread Hbound Ha Ht. cbv zeta. split.
  - rewrite (positionAzureChainJumpRule_eq _ _ _ _ Hread),
      (wrappedTargetIndex_eq _ _ _ _ Hread Hbound).
    destruct (lineNumbers_state cfg st) as (evs0 & Ht0 & Hcmd0 & Hi0 & _).
    cbv zeta in *.
    match goal with |- context [placeAzureChainJumpRule _ _ ?s] => set (st2 := s) in * end.
    destruct (placeAzureChainJumpRule_present azureChainLineNum _ st2 Ha Ht)
      as (evs & e & rest & Htr & Hcmd & _ & Hok).
    exists (evs0 ++ evs), e, rest.
    split; [by rewrite Htr, Ht0, <- app_assoc|].
    rewrite commandsOf_app, Hcmd0, Hcmd, Hi0. split; [done|].
    intros Hf. specialize (Hok Hf). rewrite Hi0 in Hok. rewrite Hok.
    case_decide as Hlt; [|done].
    rewrite wrapInt_id; [done|].
    destruct Hread as [Hazure _]. apply chainLineNumber_range in Hazure.
    clear Hok. int_bounds. unfold targetIndexOf in *.
    destruct cfg; [lia|]. case_decide; lia.
  - intros -> Hk. simpl in *.
    rewrite decide_True in * by done.
    repeat case_decide; lia.
Qed.

(** C6.  When the jump to AZURE-NPM is absent (line number 0), it is
    inserted at the target with one command: under the
    place-after-KUBE-SERVICES policy with the KUBE-SERVICES jump at line
    [L > 0], at [L + 1] with the index given; at target 1 without an index;
    at any other target with the index given.  [L] is below the largest
    [int], so that [L + 1] is still an [int]. *)
Theorem absent_jump_is_inserted_at_target
    (cfg : placement) (st : state) (kubeChainLineNum : Z) :
  lineNumbersRead cfg st 0 kubeChainLineNum →
  kubeChainLineNum < 2 ^ 63 - 1 →
  targetIndexOf cfg kubeChainLineNum ≠ 0 →
  let target := targetIndexOf cfg kubeChainLineNum in
  (∃ evs e,
     trace (positionAzureChainJumpRule cfg st).2 = trace st ++ evs ∧
     commandsOf evs = [(Iptables st, insertArgsAt target, e)]) ∧
  (cfg = PlaceAzureChainAfterKubeServices → 0 < kubeChainLineNum →
   insertArgsAt target = numericInsertArgs (kubeChainLineNum + 1)) ∧
  (target = 1 → insertArgsAt target = plainInsertArgs) ∧
  (target ≠ 1 → insertArgsAt target = numericInsertArgs target).
Proof.
  intros Hread Hbound Ht. cbv zeta. split; [|split; [|split]].
  - rewrite (positionAzureChainJumpRule_eq _ _ _ _ Hread),
      (wrappedTargetIndex_eq _ _ _ _ Hread Hbound).
    destruct (lineNumbers_state cfg st) as (evs0 & Ht0 & Hcmd0 & Hi0 & _).
    cbv zeta in *.
    match goal with |- context [placeAzureChainJumpRule _ _ ?s] => set (st2 := s) in * end.
    destruct (placeAzureChainJumpRule_absent _ st2 Ht) as (evs & e & Htr & Hcmd).
    exists (evs0 ++ evs), e.
    split; [by rewrite Htr, Ht0, <- app_assoc|].
    by rewrite commandsOf_app, Hcmd0, Hcmd, Hi0.
  - intros -> HL. simpl. rewrite decide_True by lia.
    unfold insertArgsAt. rewrite decide_False by lia. done.
  - intros H1. unfold insertArgsAt. by rewrite decide_True.
  - intros H1. unfold insertArgsAt. by rewrite decide_False.
Qed.

(** ** Cleaning up the other backend *)

(** What one run of the executor with an ignore table does to the state. *)
Lemma ignoreErrors_shape ignored operationFlag args st :
  ∃ output err w evs,
    (ignoreErrorsAndRunIPTablesCommand ignored operationFlag args st).2
    = afterCommand st (Iptables st) (allArgsOf operationFlag args) output err w evs ∧
    commandsOf evs = [] ∧
    (exitFailure err = false →
       (ignoreErrorsAndRunIPTablesCommand ignored operationFlag args st).1 = (0, None)) ∧
    (∀ c, err = Some (ExitError c) →
       (ignoreErrorsAndRunIPTablesCommand ignored operationFlag args st).1.1 = c).
Proof.
  destruct (CombinedOutput (Iptables st) (allArgsOf operationFlag args) (world st))
    as [[output err] w] eqn:Hc.
  destruct (exitFailure err) eqn:Hf.
  - destruct err as [[c|msg]|]; try discriminate.
    rewrite (ignoreErrors_exit_error ignored _ _ _ _ _ _ Hc).
    destruct (List.find _ ignored).
    + eexists output, _, w, []. repeat split; try done. intros c' [= ->]. done.
    + eexists output, _, w, _. split; [reflexivity|].
      split; [by destruct (decide (c > 0))|]. split; [done|]. intros c' [= ->]. done.
  - rewrite (ignoreErrors_no_exit_error ignored _ _ _ _ _ _ Hc Hf).
    eexists output, err, w, []. repeat split; try done.
    intros c ->. discriminate.
Qed.

Lemma deleteJumpRule_spec deletedJumpRule args msg st :
  ∃ evs e w,
    (deleteJumpRule deletedJumpRule args msg st).2
    = {| world := w; Iptables := Iptables st; pMgr_staleChains := pMgr_staleChains st;
         trace := trace st ++ evs |} ∧
    commandsOf evs = [(Iptables st, allArgsOf IptablesDeletionFlag args, e)] ∧
    ((deleteJumpRule deletedJumpRule args msg st).1 = true ∨
     ((deleteJumpRule deletedJumpRule args msg st).1 = deletedJumpRule ∧
      ∃ c, e = Some (ExitError c) ∧ c ≠ 0)).
Proof.
  unfold deleteJumpRule. munfold.
  destruct (ignoreErrors_shape removeDeprecatedJumpIgnoredErrors IptablesDeletionFlag args st)
    as (o & e & w & evs & Hst & Hcmd & Hok & Hcode).
  destruct (ignoreErrorsAndRunIPTablesCommand _ _ _ st) as [[errCode err] st1].
  simpl in *. subst st1.
  destruct (decide (errCode = 0)) as [->|Hne].
  - eexists _, e, w. split; [reflexivity|]. split; [simpl; by rewrite Hcmd|]. by left.
  - assert (∃ c, e = Some (ExitError c) ∧ c ≠ 0) as Hexit.
    { destruct e as [[c|m]|].
      - exists c. split; [done|]. by rewrite <- (Hcode c eq_refl).
      - specialize (Hok eq_refl). congruence.
      - specialize (Hok eq_refl). congruence. }
    destruct err; simpl.
    + eexists _, e, w. split; [by rewrite <- app_assoc|].
      split; [trace_simpl; by rewrite Hcmd|]. by right.
    + eexists _, e, w. split; [reflexivity|]. split; [simpl; by rewrite Hcmd|]. by right.
Qed.

Lemma flushOneByOne_spec currentChains deletedJumpRule st e :
  (flushOneByOne currentChains deletedJumpRule st).1 = Some e →
  deletedJumpRule = false ∧
  ∃ evs c cause,
    trace (flushOneByOne currentChains deletedJumpRule st).2 = trace st ++ evs ∧
    commandsOf evs
    = [(Iptables st, allArgsOf IptablesFlushFlag [IptablesAzureChain], Some (ExitError c))] ∧
    e = SimpleErrorWrapper
          "[cleanup] must crash and retry. failed to delete jump rule and flush AZURE-NPM chain with error"
          cause.
Proof.
  unfold flushOneByOne. munfold.
  destruct (decide (IptablesAzureChain ∈ currentChains)) as [Hin|Hin].
  - destruct (runIPTablesCommand_shape IptablesFlushFlag [IptablesAzureChain] st)
      as (o1 & e1 & w1 & evs1 & c1 & r1 & _ & Hrun1 & Hcmd1 & _ & Hnil1 & _).
    rewrite Hrun1. clear Hrun1.
    destruct r1 as [r1|]; [destruct deletedJumpRule|]; simpl.
    + match goal with |- context [flushOtherChains ?c ?a ?s] =>
        destruct (flushOtherChains c a s) end; simpl; discriminate.
    + intros [= <-]. split; [done|].
      assert (exitFailure e1 = true) as Hf.
      { destruct (exitFailure e1); [done|]. by destruct Hnil1 as [_ Hn]; specialize (Hn eq_refl). }
      destruct e1 as [[c|?]|]; try discriminate.
      eexists _, c, r1. split; [reflexivity|]. split; [|done].
      simpl. by rewrite Hcmd1.
    + match goal with |- context [flushOtherChains ?c ?a ?s] =>
        destruct (flushOtherChains c a s) end; simpl; discriminate.
  - simpl.
    match goal with |- context [flushOtherChains ?c ?a ?s] =>
      destruct (flushOtherChains c a s) end; simpl; discriminate.
Qed.

Lemma foldM_aggregating f chains aggregateError st :
  aggregatingStep f →
  ∃ evs,
    trace (foldM f aggregateError chains st).2 = trace st ++ evs ∧
    (aggregateError ≠ None → (foldM f aggregateError chains st).1 ≠ None) ∧
    (∀ c, c ∈ commandsOf evs → failedCommand c → (foldM f aggregateError chains st).1 ≠ None).
Proof.
  intros Hf. revert aggregateError st.
  induction chains as [|chain chains IH]; intros aggregateError st; simpl.
  - exists []. rewrite app_nil_r. split; [done|]. split; [done|].
    intros c Hc. by apply elem_of_nil in Hc.
  - munfold. destruct (Hf aggregateError chain st) as (evs1 & Ht1 & Hkeep1 & Hfail1).
    destruct (f aggregateError chain st) as [agg1 st1]. simpl in *.
    destruct (IH agg1 st1) as (evs2 & Ht2 & Hkeep2 & Hfail2).
    exists (evs1 ++ evs2). split; [by rewrite Ht2, Ht1, <- app_assoc|].
    split; [auto|].
    intros c Hc Hfailed. rewrite commandsOf_app in Hc.
    apply elem_of_app in Hc as [Hc|Hc]; eauto.
Qed.

Lemma aggregate_is_set cur wrap aggregateError : aggregate cur wrap aggregateError ≠ None.
Proof. by destruct aggregateError. Qed.

(** The step of the loops of steps 3.2 and 4, for the operation [flag]. *)
Lemma run_and_aggregate_step flag (cur : string → option error → text)
    (wrap : string → option error → text) aggregateError chain st :
  ∃ evs,
    trace (('(errCode, err) ← runIPTablesCommand flag [chain];
            if bool_decide (err ≠ None) && bool_decide (errCode ≠ doesNotExistErrorCode)
            then mret (aggregate (cur chain err) (wrap chain err) aggregateError)
            else mret aggregateError) st).2 = trace st ++ evs ∧
    (aggregateError ≠ None →
     (('(errCode, err) ← runIPTablesCommand flag [chain];
       if bool_decide (err ≠ None) && bool_decide (errCode ≠ doesNotExistErrorCode)
       then mret (aggregate (cur chain err) (wrap chain err) aggregateError)
       else mret aggregateError) st).1 ≠ None) ∧
    (∀ c, c ∈ commandsOf evs → failedCommand c →
     (('(errCode, err) ← runIPTablesCommand flag [chain];
       if bool_decide (err ≠ None) && bool_decide (errCode ≠ doesNotExistErrorCode)
       then mret (aggregate (cur chain err) (wrap chain err) aggregateError)
       else mret aggregateError) st).1 ≠ None).
Proof.
  munfold.
  destruct (runIPTablesCommand_shape flag [chain] st)
    as (o1 & e1 & w1 & evs1 & c1 & r1 & _ & Hrun1 & Hcmd1 & _ & Hnil1 & _ & Hcode1).
  rewrite Hrun1. clear Hrun1.
  destruct (bool_decide (r1 ≠ None) && bool_decide (c1 ≠ doesNotExistErrorCode)) eqn:Hcond;
    simpl; eexists; (split; [reflexivity|]).
  - split; intros; apply aggregate_is_set.
  - split; [done|]. intros c Hc (errCode & Hexit & Hne). simpl in Hc. rewrite Hcmd1 in Hc.
    apply list_elem_of_singleton in Hc as ->. simpl in Hexit. subst e1.
    rewrite (Hcode1 errCode eq_refl) in Hcond.
    apply andb_false_iff in Hcond as [Hcond|Hcond]; apply bool_decide_eq_false in Hcond.
    + exfalso. apply Hcond. intros Hn. by apply Hnil1 in Hn.
    + done.
Qed.

Lemma deleteAllChains_spec chains st :
  ∃ evs,
    trace (deleteAllChains chains st).2 = trace st ++ evs ∧
    (∀ c, c ∈ commandsOf evs → failedCommand c → benignFailureLogged evs).
Proof.
  unfold deleteAllChains. munfold.
  match goal with |- context [foldM ?f None chains st] =>
    destruct (foldM_aggregating f chains None st) as (evs & Ht & _ & Hfail);
    [|destruct (foldM f None chains st) as [agg st1]]
  end.
  { intros agg chain s.
    apply (run_and_aggregate_step IptablesDestroyFlag
             (λ chain err, Sprintf "failed to delete chain %s with err [%v]" [ArgS chain; ArgV err])
             (λ chain err, Cat (Sprintf "failed to delete chain %s with err [%v]"
                                  [ArgS chain; ArgV err]) " and had previous error")). }
  simpl in *. destruct agg as [err|]; simpl.
  - eexists. split; [rewrite Ht, <- app_assoc; reflexivity|].
    intros _ _ _. exists "[cleanup] benign failure to delete chains with error: %s", err.
    split; [set_solver|]. apply elem_of_app. right. apply list_elem_of_here.
  - exists evs. split; [by destruct st1|].
    intros c Hc Hfailed. by destruct (Hfail c Hc Hfailed).
Qed.

Lemma flushOtherChains_spec currentChains aggregateError st :
  ∃ evs,
    trace (flushOtherChains currentChains aggregateError st).2 = trace st ++ evs ∧
    (aggregateError ≠ None → benignFailureLogged evs) ∧
    (∀ c, c ∈ commandsOf evs → failedCommand c → benignFailureLogged evs).
Proof.
  unfold flushOtherChains. munfold.
  match goal with |- context [foldM ?f aggregateError ?l st] =>
    destruct (foldM_aggregating f l aggregateError st) as (evs & Ht & Hkeep & Hfail);
    [|destruct (foldM f aggregateError l st) as [agg st1]]
  end.
  { intros agg chain s. destruct (decide (chain = IptablesAzureChain)).
    - exists []. simpl. rewrite app_nil_r. split; [done|]. split; [done|].
      intros c Hc. by apply elem_of_nil in Hc.
    - apply (run_and_aggregate_step IptablesFlushFlag
               (λ chain err, Sprintf "failed to flush chain %s with err [%v]" [ArgS chain; ArgV err])
               (λ chain err, Cat (Sprintf "failed to flush chain %s with err [%v]"
                                    [ArgS chain; ArgV err]) " and had previous error")). }
  simpl in *. destruct agg as [err|]; simpl.
  - assert (benignFailureLogged
              (evs ++ [EvSendErrorLogAndMetric
                         (Sprintf "[cleanup] benign failure to flush chains with error: %s"
                            [ArgV (Some err)])])) as Hlogged.
    { exists "[cleanup] benign failure to flush chains with error: %s", err.
      split; [set_solver|]. apply elem_of_app. right. apply list_elem_of_here. }
    eexists. split; [rewrite Ht, <- app_assoc; reflexivity|]. by split.
  - exists evs. split; [by destruct st1|]. split.
    + intros Hagg. by destruct (Hkeep Hagg).
    + intros c Hc Hfailed. by destruct (Hfail c Hc Hfailed).
Qed.

Lemma benignFailureLogged_app_l evs1 evs2 :
  benignFailureLogged evs1 → benignFailureLogged (evs1 ++ evs2).
Proof.
  intros (format & err & Hf & Hin). exists format, err. split; [done|].
  apply elem_of_app. by left.
Qed.

Lemma benignFailureLogged_app_r evs1 evs2 :
  benignFailureLogged evs2 → benignFailureLogged (evs1 ++ evs2).
Proof.
  intros (format & err & Hf & Hin). exists format, err. split; [done|].
  apply elem_of_app. by right.
Qed.

Lemma flushOneByOne_logs currentChains deletedJumpRule st :
  (flushOneByOne currentChains deletedJumpRule st).1 = None →
  ∃ evs,
    trace (flushOneByOne currentChains deletedJumpRule st).2 = trace st ++ evs ∧
    (∀ c, c ∈ commandsOf evs → failedCommand c → benignFailureLogged evs).
Proof.
  unfold flushOneByOne. munfold.
  destruct (decide (IptablesAzureChain ∈ currentChains)) as [Hin|Hin].
  - destruct (runIPTablesCommand_shape IptablesFlushFlag [IptablesAzureChain] st)
      as (o1 & e1 & w1 & evs1 & c1 & r1 & _ & Hrun1 & Hcmd1 & _ & Hnil1 & _).
    rewrite Hrun1. clear Hrun1.
    destruct r1 as [r1|]; [destruct deletedJumpRule|]; simpl; [|discriminate|]; intros _;
      match goal with |- context [flushOtherChains ?c ?a ?s] =>
        destruct (flushOtherChains_spec c a s) as (evs & Ht & Hagg & Hfail);
        destruct (flushOtherChains c a s) as [[] st1]
      end; simpl in *;
      (eexists; split; [rewrite Ht, <- app_assoc; reflexivity|]).
    + intros _ _ _. apply (benignFailureLogged_app_r (_ :: evs1)). by apply Hagg.
    + intros c Hc Hfailed. rewrite (commandsOf_app (_ :: evs1)) in Hc.
      apply elem_of_app in Hc as [Hc|Hc].
      * simpl in Hc. rewrite Hcmd1 in Hc. apply list_elem_of_singleton in Hc as ->.
        destruct Hfailed as (errCode & Hexit & _). simpl in Hexit. subst e1.
        by destruct Hnil1 as [Hn _]; specialize (Hn eq_refl).
      * apply (benignFailureLogged_app_r (_ :: evs1)). by apply (Hfail c).
  - simpl. intros _.
    match goal with |- context [flushOtherChains ?c ?a ?s] =>
      destruct (flushOtherChains_spec c a s) as (evs & Ht & Hagg & Hfail);
      destruct (flushOtherChains c a s) as [[] st1]
    end. simpl in *. exists evs. by split.
Qed.

Lemma cleanupOtherIptables_body_spec st e :
  (cleanupOtherIptables_body st).1 = Some e →
  ∃ evs,
    trace (cleanupOtherIptables_body st).2 = trace st ++ evs ∧
    ((∃ chains cause,
        last evs = Some (EvAllCurrentAzureChains (Iptables st) chains (Some cause)) ∧
        e = SimpleErrorWrapper "[cleanup] failed to get current chains for bootup" cause)
     ∨
     (∃ c1 c2 cf creator restoreErr cause,
        commandsOf evs
        = [(Iptables st, allArgsOf IptablesDeletionFlag deprecatedJumpFromForwardToAzureChainArgs,
            Some (ExitError c1));
           (Iptables st, deleteJumpArgs, Some (ExitError c2));
           (Iptables st, allArgsOf IptablesFlushFlag [IptablesAzureChain], Some (ExitError cf))] ∧
        c1 ≠ 0 ∧ c2 ≠ 0 ∧
        EvRestore (Iptables st) creator (Some restoreErr) ∈ evs ∧
        e = SimpleErrorWrapper
              "[cleanup] must crash and retry. failed to delete jump rule and flush AZURE-NPM chain with error"
              cause)).
Proof.
  unfold cleanupOtherIptables_body. munfold.
  destruct (deleteJumpRule_spec false deprecatedJumpFromForwardToAzureChainArgs
    "[cleanup] failed to delete deprecated jump rule from FORWARD chain to AZURE-NPM chain for unexpected reason with exit code %d and error: %s" st)
    as (evs1 & e1 & w1 & Hst1 & Hcmd1 & Hd1).
  destruct (deleteJumpRule false deprecatedJumpFromForwardToAzureChainArgs _ st) as [d1 st1].
  simpl in Hst1, Hd1. subst st1.
  match goal with |- context [deleteJumpRule d1 ?a ?m ?s] =>
    destruct (deleteJumpRule_spec d1 a m s) as (evs2 & e2 & w2 & Hst2 & Hcmd2 & Hd2);
    destruct (deleteJumpRule d1 a m s) as [d2 st2]
  end.
  simpl in Hst2, Hd2, Hcmd2. subst st2.
  unfold currentAzureChains, restoreCreator. munfold. simpl.
  destruct (AllCurrentAzureChains (Iptables st) IptablesDefaultWaitTime w2)
    as [[currentChains err] w3]. simpl.
  destruct err as [cause|]; simpl.
  { intros [= <-]. eexists. split; [rewrite <- !app_assoc; reflexivity|].
    left. exists currentChains, cause. split; [|done].
    by rewrite !app_assoc, last_snoc. }
  destruct (decide (size currentChains = 0%nat)); simpl; [discriminate|].
  match goal with |- context [restore ?i ?c ?w] => destruct (restore i c w) as [restoreErr w4] eqn:Hres end.
  simpl. destruct restoreErr as [restoreErr|]; simpl.
  - match goal with |- context [flushOneByOne ?c ?d ?s] =>
      pose proof (flushOneByOne_spec c d s) as Hflush;
      destruct (flushOneByOne c d s) as [[fatal|] st5]
    end; simpl in *.
    + intros [= <-]. destruct (Hflush fatal eq_refl) as (-> & evs5 & cf & cause & Ht5 & Hcmd5 & ->).
      destruct Hd2 as [?|[<- (c2 & -> & Hc2)]]; [done|].
      destruct Hd1 as [?|[_ (c1 & -> & Hc1)]]; [done|].
      eexists. split; [rewrite Ht5, <- !app_assoc; reflexivity|].
      right. eexists c1, c2, cf, _, restoreErr, cause.
      split; [rewrite !commandsOf_app, Hcmd1, Hcmd2, Hcmd5; reflexivity|].
      split; [done|]. split; [done|]. split; [|done].
      apply elem_of_app; right. apply elem_of_app; right.
      apply list_elem_of_further, list_elem_of_here.
    + match goal with |- context [deleteAllChains ?c ?s] => destruct (deleteAllChains c s) end.
      discriminate.
  - match goal with |- context [deleteAllChains ?c ?s] => destruct (deleteAllChains c s) end.
    discriminate.
Qed.

Lemma cleanupOtherIptables_body_logs st :
  (cleanupOtherIptables_body st).1 = None →
  ∃ evs e1 e2 rest,
    trace (cleanupOtherIptables_body st).2 = trace st ++ evs ∧
    commandsOf evs
    = (Iptables st, allArgsOf IptablesDeletionFlag deprecatedJumpFromForwardToAzureChainArgs, e1)
      :: (Iptables st, deleteJumpArgs, e2) :: rest ∧
    (∀ c, c ∈ rest → failedCommand c → benignFailureLogged evs).
Proof.
  unfold cleanupOtherIptables_body. munfold.
  destruct (deleteJumpRule_spec false deprecatedJumpFromForwardToAzureChainArgs
    "[cleanup] failed to delete deprecated jump rule from FORWARD chain to AZURE-NPM chain for unexpected reason with exit code %d and error: %s" st)
    as (evs1 & e1 & w1 & Hst1 & Hcmd1 & _).
  destruct (deleteJumpRule false deprecatedJumpFromForwardToAzureChainArgs _ st) as [d1 st1].
  simpl in Hst1. subst st1.
  match goal with |- context [deleteJumpRule d1 ?a ?m ?s] =>
    destruct (deleteJumpRule_spec d1 a m s) as (evs2 & e2 & w2 & Hst2 & Hcmd2 & _);
    destruct (deleteJumpRule d1 a m s) as [d2 st2]
  end.
  simpl in Hst2, Hcmd2. subst st2.
  unfold currentAzureChains, restoreCreator. munfold. simpl.
  destruct (AllCurrentAzureChains (Iptables st) IptablesDefaultWaitTime w2)
    as [[currentChains err] w3]. simpl.
  destruct err as [cause|]; simpl; [discriminate|].
  destruct (decide (size currentChains = 0%nat)); simpl.
  { intros _. eexists _, e1, e2, []. split; [rewrite <- !app_assoc; reflexivity|].
    split; [by rewrite !commandsOf_app, Hcmd1, Hcmd2|].
    intros c Hc. by apply elem_of_nil in Hc. }
  match goal with |- context [restore ?i ?c ?w] => destruct (restore i c w) as [restoreErr w4] end.
  simpl. destruct restoreErr as [restoreErr|]; simpl.
  - match goal with |- context [flushOneByOne ?c ?d ?s] =>
      pose proof (flushOneByOne_logs c d s) as Hflush;
      destruct (flushOneByOne c d s) as [[fatal|] st5]
    end; simpl in *; [discriminate|].
    destruct (Hflush eq_refl) as (evs5 & Ht5 & Hlog5).
    match goal with |- context [deleteAllChains ?c ?s] =>
      destruct (deleteAllChains_spec c s) as (evs6 & Ht6 & Hlog6);
      destruct (deleteAllChains c s) as [[] st6]
    end. simpl in *. intros _.
    eexists _, e1, e2, (commandsOf evs5 ++ commandsOf evs6).
    split; [rewrite Ht6, Ht5, <- !app_assoc; reflexivity|].
    split; [by rewrite !commandsOf_app, Hcmd1, Hcmd2|].
    intros c Hc Hfailed.
    apply elem_of_app in Hc as [Hc|Hc];
      [destruct (Hlog5 c Hc Hfailed) as (format & err & Hf & Hin)
      |destruct (Hlog6 c Hc Hfailed) as (format & err & Hf & Hin)];
      exists format, err; (split; [done|]); rewrite !elem_of_app; tauto.
  - match goal with |- context [deleteAllChains ?c ?s] =>
      destruct (deleteAllChains_spec c s) as (evs6 & Ht6 & Hlog6);
      destruct (deleteAllChains c s) as [[] st6]
    end. simpl in *. intros _.
    eexists _, e1, e2, (commandsOf evs6).
    split; [rewrite Ht6, <- !app_assoc; reflexivity|].
    split; [by rewrite !commandsOf_app, Hcmd1, Hcmd2|].
    intros c Hc Hfailed.
    destruct (Hlog6 c Hc Hfailed) as (format & err & Hf & Hin).
    exists format, err. split; [done|]. rewrite !elem_of_app. tauto.
Qed.

(** X26.  What [cleanupOtherIptables] returns, as the code has it.  It
    returns a non-nil error in two cases only: when enumerating the current
    chains of the other backend fails, and when neither deletion of a jump
    to AZURE-NPM gave exit code 0, the restore call that flushes all chains
    failed, and the flush of AZURE-NPM failed as well.  Whatever else fails,
    it returns nil, and when a flush or a delete of a chain failed (other
    than with [doesNotExistErrorCode]) a summary of the failures has gone to
    the error log and metrics. *)
Theorem cleanup_other_fails_only_on_enumeration_or_double_failure (st : state) :
  ∃ evs,
    trace (cleanupOtherIptables st).2 = trace st ++ evs ∧
    let other := otherIptables (Iptables st) in
    match (cleanupOtherIptables st).1 with
    | Some e =>
        (∃ chains cause,
           last evs = Some (EvAllCurrentAzureChains other chains (Some cause)) ∧
           e = SimpleErrorWrapper "[cleanup] failed to get current chains for bootup" cause)
        ∨
        (∃ c1 c2 cf creator restoreErr cause,
           commandsOf evs
           = [(other, allArgsOf IptablesDeletionFlag deprecatedJumpFromForwardToAzureChainArgs,
               Some (ExitError c1));
              (other, deleteJumpArgs, Some (ExitError c2));
              (other, allArgsOf IptablesFlushFlag [IptablesAzureChain], Some (ExitError cf))] ∧
           c1 ≠ 0 ∧ c2 ≠ 0 ∧
           EvRestore other creator (Some restoreErr) ∈ evs ∧
           e = SimpleErrorWrapper
                 "[cleanup] must crash and retry. failed to delete jump rule and flush AZURE-NPM chain with error"
                 cause)
    | None =>
        ∃ e1 e2 rest,
          commandsOf evs
          = (other, allArgsOf IptablesDeletionFlag deprecatedJumpFromForwardToAzureChainArgs, e1)
            :: (other, deleteJumpArgs, e2) :: rest ∧
          (∀ c, c ∈ rest → failedCommand c → benignFailureLogged evs)
    end.
Proof.
  unfold cleanupOtherIptables, SetIptablesToNft, SetIptablesToLegacy, otherIptables. munfold.
  destruct (bool_decide (Iptables st = IptablesNft)); simpl;
    match goal with |- context [cleanupOtherIptables_body ?s] =>
      pose proof (cleanupOtherIptables_body_spec s) as Hfail;
      pose proof (cleanupOtherIptables_body_logs s) as Hlogs;
      destruct (cleanupOtherIptables_body s) as [[e|] st']
    end; simpl in *.
  - destruct (Hfail e eq_refl) as (evs & Ht & Hcases). by exists evs.
  - destruct (Hlogs eq_refl) as (evs & e1 & e2 & rest & Ht & Hcmds & Hlog).
    exists evs. split; [done|]. by exists e1, e2, rest.
  - destruct (Hfail e eq_refl) as (evs & Ht & Hcases). by exists evs.
  - destruct (Hlogs eq_refl) as (evs & e1 & e2 & rest & Ht & Hcmds & Hlog).
    exists evs. split; [done|]. by exists e1, e2, rest.
Qed.

(** * Further properties *)

(** ** The stale chain set *)

(** X1.  [emptyAndGetAll] returns every chain of the set exactly once and
    leaves the set empty: a second call returns nothing. *)
Theorem emptyAndGetAll_returns_each_chain_once_and_empties (s : staleChains) :
  NoDup (staleChains_emptyAndGetAll s).1 ∧
  (∀ chain, chain ∈ (staleChains_emptyAndGetAll s).1 ↔ chain ∈ chainsToCleanup s) ∧
  length (staleChains_emptyAndGetAll s).1 = size (chainsToCleanup s) ∧
  chainsToCleanup (staleChains_emptyAndGetAll s).2 = ∅ ∧
  (staleChains_emptyAndGetAll (staleChains_emptyAndGetAll s).2).1 = [].
Proof.
  rewrite !staleChains_emptyAndGetAll_eq. simpl.
  split; [rewrite (rangeOrder_perm (chainsToCleanup s)); apply NoDup_elements|].
  split; [intros chain; apply elem_of_rangeOrder|].
  split; [by rewrite (rangeOrder_perm (chainsToCleanup s))|].
  split; [done|].
  apply Permutation_nil_r. rewrite (rangeOrder_perm ∅). by rewrite elements_empty.
Qed.

(** X2.  [remove] takes out what [add] put in: for a chain that was not in
    the set, [remove] after [add] gives the set back, base chain or not; and
    adding a chain twice is adding it once. *)
Theorem remove_undoes_add (chain : string) (s : staleChains) :
  chain ∉ chainsToCleanup s →
  staleChains_remove chain (staleChains_add chain s) = s ∧
  staleChains_remove chain s = s ∧
  staleChains_add chain (staleChains_add chain s) = staleChains_add chain s.
Proof.
  intros Hnot. destruct s as [m]. unfold staleChains_remove, staleChains_add. simpl in *.
  destruct (isBaseChain chain) eqn:Hb; simpl; rewrite ?Hb; simpl;
    repeat split; f_equal; set_solver.
Qed.

(** ** The command executor, continued *)

Lemma find_ignored_iff ignored errCode output :
  (∃ info, List.find (λ info, bool_decide (errCode = exitCode info)
                              && Contains (TrimSuffix output newline) (stdErr info)) ignored
           = Some info) ↔
  ignorable ignored errCode output.
Proof.
  split.
  - intros (info & Hfind). apply find_some in Hfind as [Hin Hm].
    apply andb_true_iff in Hm as [Hcode Hout]. apply bool_decide_eq_true in Hcode.
    exists info. split; [by apply list_elem_of_In|]. by split.
  - intros (info & Hin & Hcode & Hout).
    destruct (List.find _ ignored) as [info'|] eqn:Hfind; [by exists info'|].
    apply list_elem_of_In in Hin.
    pose proof (find_none _ _ Hfind info Hin) as Hn. simpl in Hn.
    rewrite Hout, andb_true_r, bool_decide_eq_false in Hn. congruence.
Qed.

(** X3.  One call of the executor runs one command: the binary is
    [util.Iptables] as it is at the call, the arguments are the wait flag,
    the default wait time, the operation and the arguments given.  The call
    polls no signal and leaves [util.Iptables] and the stale chain set as
    they are. *)
Theorem executor_runs_one_command_with_wait_prefix
    (ignored : list exitErrorInfo) (operationFlag : string) (args : list string) (st : state) :
  ∃ output err evs,
    trace (ignoreErrorsAndRunIPTablesCommand ignored operationFlag args st).2
    = trace st
      ++ EvCommand (Iptables st)
           ([IptablesWaitFlag; IptablesDefaultWaitTime; operationFlag] ++ args) output err
      :: evs ∧
    commandsOf evs = [] ∧ signalsOf evs = [] ∧
    (CombinedOutput (Iptables st)
       ([IptablesWaitFlag; IptablesDefaultWaitTime; operationFlag] ++ args) (world st)).1
    = (output, err) ∧
    Iptables (ignoreErrorsAndRunIPTablesCommand ignored operationFlag args st).2 = Iptables st ∧
    pMgr_staleChains (ignoreErrorsAndRunIPTablesCommand ignored operationFlag args st).2
    = pMgr_staleChains st.
Proof.
  fold (allArgsOf operationFlag args).
  destruct (CombinedOutput (Iptables st) (allArgsOf operationFlag args) (world st))
    as [[output err] w] eqn:Hc.
  destruct (exitFailure err) eqn:Hf.
  - destruct err as [[c|msg]|]; try discriminate.
    rewrite (ignoreErrors_exit_error ignored _ _ _ _ _ _ Hc).
    destruct (List.find _ ignored); [by exists output, (Some (ExitError c)), []|].
    eexists output, _, _. split; [reflexivity|]. by destruct (decide (c > 0)).
  - rewrite (ignoreErrors_no_exit_error ignored _ _ _ _ _ _ Hc Hf).
    by exists output, err, [].
Qed.

(** X4.  The executor reports to the error log and metrics exactly when the
    command ended with a positive exit status that no entry of the ignore
    table matches; it does so once. *)
Theorem executor_reports_positive_unignored_exit_only
    (ignored : list exitErrorInfo) (operationFlag : string) (args : list string) (st : state) :
  ∃ output err evs,
    (CombinedOutput (Iptables st) (allArgsOf operationFlag args) (world st)).1 = (output, err) ∧
    trace (ignoreErrorsAndRunIPTablesCommand ignored operationFlag args st).2
    = trace st ++ EvCommand (Iptables st) (allArgsOf operationFlag args) output err :: evs ∧
    (evs = [] ∨ ∃ msg, evs = [EvSendErrorLogAndMetric msg]) ∧
    (evs ≠ [] ↔
     ∃ errCode, err = Some (ExitError errCode) ∧ errCode > 0 ∧
                ¬ ignorable ignored errCode output).
Proof.
  destruct (CombinedOutput (Iptables st) (allArgsOf operationFlag args) (world st))
    as [[output err] w] eqn:Hc.
  destruct (exitFailure err) eqn:Hf.
  - destruct err as [[c|msg]|]; try discriminate.
    rewrite (ignoreErrors_exit_error ignored _ _ _ _ _ _ Hc).
    pose proof (find_ignored_iff ignored c output) as Hfind.
    destruct (List.find _ ignored) as [info|].
    + exists output, (Some (ExitError c)), []. split; [done|]. split; [done|].
      split; [by left|]. split; [done|].
      intros (c' & [= <-] & _ & Hno). destruct Hno. apply Hfind. by exists info.
    + eexists output, _, _. split; [done|]. split; [reflexivity|].
      destruct (decide (c > 0)) as [Hpos|Hpos].
      * split; [right; by eexists|]. split; [|done]. intros _. exists c.
        split; [done|]. split; [done|]. intros Hi. apply Hfind in Hi as [? ?]. done.
      * split; [by left|]. split; [done|]. intros (c' & [= <-] & ? & _). done.
  - rewrite (ignoreErrors_no_exit_error ignored _ _ _ _ _ _ Hc Hf).
    exists output, err, []. split; [done|]. split; [done|]. split; [by left|].
    split; [done|]. intros (c & -> & _). discriminate.
Qed.

(** X5.  Without an ignore table the executor returns a nil error exactly
    when the command did not end with an exit error, and the code it returns
    is the exit status, 0 when there is none.  An exit error with status 0
    is an error all the same. *)
Theorem plain_executor_error_iff_exit_error
    (operationFlag : string) (args : list string) (st : state) :
  let err := (CombinedOutput (Iptables st) (allArgsOf operationFlag args) (world st)).1.2 in
  ((runIPTablesCommand operationFlag args st).1.2 = None ↔ exitFailure err = false) ∧
  (runIPTablesCommand operationFlag args st).1.1
  = match err with Some (ExitError errCode) => errCode | _ => 0 end.
Proof.
  destruct (runIPTablesCommand_shape operationFlag args st)
    as (o & e & w & evs & code & r & Hc & Hrun & _ & _ & Hnil & Hzero & Hcode).
  rewrite Hc, Hrun. simpl. split; [done|].
  destruct e as [[c|m]|]; [by apply Hcode|by apply Hzero|by apply Hzero].
Qed.

(** ** Reading a line number *)

Lemma string_app_cons a (s t : string) : String a s +:+ t = String a (s +:+ t).
Proof. reflexivity. Qed.

Lemma string_app_empty_r (s : string) : s +:+ "" = s.
Proof. induction s as [|a s IH]; [done|by rewrite string_app_cons, IH]. Qed.

Lemma string_app_assoc (a b c : string) : (a +:+ b) +:+ c = a +:+ (b +:+ c).
Proof. induction a as [|x a IH]; [done|by rewrite !string_app_cons, IH]. Qed.

Lemma string_length_app (a b : string) :
  String.length (a +:+ b) = (String.length a + String.length b)%nat.
Proof.
  induction a as [|x a IH]; [done|]. rewrite string_app_cons. simpl. by rewrite IH.
Qed.

Lemma parse_digits_app (a b : string) (acc : Z) :
  parse_digits acc (a +:+ b)
  = match parse_digits acc a with Some v => parse_digits v b | None => None end.
Proof.
  revert acc. induction a as [|x a IH]; intros acc; [done|].
  rewrite string_app_cons. simpl. destruct (digit_of x); [apply IH|done].
Qed.

Lemma isDigits_app (a b : string) : isDigits (a +:+ b) = isDigits a && isDigits b.
Proof.
  induction a as [|x a IH]; [done|]. rewrite string_app_cons. simpl.
  by rewrite IH, andb_assoc.
Qed.

Lemma digit_of_pretty_N_char (d : N) :
  (d < 10)%N → digit_of (pretty_N_char d) = Some (Z.of_N d).
Proof.
  intros Hd.
  assert (d = 0 ∨ d = 1 ∨ d = 2 ∨ d = 3 ∨ d = 4 ∨ d = 5 ∨ d = 6 ∨ d = 7 ∨ d = 8 ∨ d = 9)%N
    as Hcases by lia.
  repeat (destruct Hcases as [->|Hcases]; [reflexivity|]). by subst.
Qed.

(** [pretty_N_go x] puts the digits of [x] in front. *)
Lemma pretty_N_go_digits (x : N) :
  ∃ ds, isDigits ds = true ∧ ((0 < x)%N → ds ≠ "") ∧
        parse_digits 0 ds = Some (Z.of_N x) ∧
        ∀ s, pretty_N_go x s = ds +:+ s.
Proof.
  induction (N.lt_wf_0 x) as [x _ IH].
  assert (x = 0 ∨ 0 < x)%N as [->|Hpos] by lia.
  - exists "". repeat split; try done.
  - destruct (IH (x `div` 10)%N) as (ds & Hd & _ & Hp & Happ); [by apply N.div_lt|].
    exists (ds +:+ String (pretty_N_char (x `mod` 10)) "").
    assert (x `mod` 10 < 10)%N as Hmod by (apply N.mod_lt; lia).
    split; [|split; [|split]].
    + rewrite isDigits_app, Hd. simpl. rewrite (digit_of_pretty_N_char _ Hmod). done.
    + intros _. by destruct ds.
    + rewrite parse_digits_app, Hp. simpl. rewrite (digit_of_pretty_N_char _ Hmod).
      f_equal. rewrite (N.div_mod x 10) at 3 by lia. lia.
    + intros s. rewrite pretty_N_go_step by done. rewrite Happ, string_app_assoc. done.
Qed.

Lemma Itoa_digits (n : Z) :
  0 ≤ n →
  isDigits (Itoa n) = true ∧ Itoa n ≠ "" ∧ parse_digits 0 (Itoa n) = Some n.
Proof.
  intros Hn. destruct n as [|p|p]; [done| |lia].
  unfold Itoa, pretty, pretty_Z, pretty, pretty_positive, pretty, pretty_N.
  rewrite decide_False by done.
  destruct (pretty_N_go_digits (N.pos p)) as (ds & Hd & Hne & Hp & Happ).
  rewrite Happ, string_app_empty_r. split; [done|]. split; [apply Hne; lia|done].
Qed.

Lemma Atoi_digits (s : string) :
  isDigits s = true → s ≠ "" →
  Atoi s = match parse_digits 0 s with
           | Some n => if decide (- 2 ^ 63 ≤ n ≤ 2 ^ 63 - 1) then Some n else None
           | None => None
           end.
Proof.
  intros Hd Hne. destruct s as [|a s]; [done|]. clear Hne.
  simpl in Hd. apply andb_true_iff in Hd as [Ha _]. apply bool_decide_eq_true in Ha.
  destruct a as [[] [] [] [] [] [] [] []];
    try (by destruct Ha as [? Ha]; vm_compute in Ha); reflexivity.
Qed.

Lemma Index_digits_space (ds rest : string) :
  isDigits ds = true →
  Index (ds +:+ String " " rest) spaceByte = Z.of_nat (String.length ds).
Proof.
  intros Hd. induction ds as [|a ds IH]; [by destruct rest|].
  simpl in Hd. apply andb_true_iff in Hd as [Ha Hd]. apply bool_decide_eq_true in Ha.
  specialize (IH Hd). rewrite string_app_cons. cbn [Index String.length].
  replace (HasPrefix (String a (ds +:+ String " " rest)) spaceByte) with false.
  - rewrite IH. rewrite decide_False by lia. lia.
  - simpl. symmetry. apply andb_false_iff. left. apply bool_decide_eq_false.
    intros <-. by destruct Ha as [? Ha]; vm_compute in Ha.
Qed.

Lemma substring_app_l (a b : string) :
  String.substring 0 (String.length a) (a +:+ b) = a.
Proof.
  induction a as [|x a IH]; [by destruct b|]. rewrite string_app_cons. simpl. by rewrite IH.
Qed.

(** X6.  [chainLineNumber] reads back the line number iptables prints: when
    grep gives a line of at least three bytes that starts with the decimal
    of [n], a line number that fits in an [int], and a space, the result is
    [n] and a nil error. *)
Theorem chainLineNumber_reads_decimal_line_number
    (chain : string) (st : state) (n : Z) (rest : string) :
  0 ≤ n ≤ 2 ^ 63 - 1 →
  (3 ≤ String.length (Itoa n +:+ String " " rest))%nat →
  (PipeCommandToGrep (Iptables st, listForwardEntriesArgs) (Grep, [chain]) (world st)).1
  = (Itoa n +:+ String " " rest, true, None) →
  (chainLineNumber chain st).1 = (n, None).
Proof.
  intros Hn Hlen Hgrep. unfold chainLineNumber. munfold. simpl.
  destruct (PipeCommandToGrep _ _ (world st)) as [[[searchResults gotMatches] err] w].
  simpl in Hgrep. injection Hgrep as -> -> ->. simpl.
  destruct (Itoa_digits n) as (Hd & Hne & Hp); [lia|].
  rewrite decide_True by (unfold minLineNumberStringLength; lia).
  rewrite (Index_digits_space _ _ Hd).
  rewrite decide_True.
  - rewrite Nat2Z.id, substring_app_l, (Atoi_digits _ Hd Hne), Hp.
    by rewrite decide_True by lia.
  - rewrite string_length_app. simpl. destruct (Itoa n); [done|]. simpl. lia.
Qed.

(** X7.  [chainLineNumber] never gives a line number together with an error,
    and gives 0 when grep has no match.  A line number other than 0 is what
    [Atoi] reads in front of the first space of a match of at least three
    bytes; a shorter match is an error even when it starts with a number.
    The function runs one listing and no command. *)
Theorem chainLineNumber_is_zero_unless_a_number_is_read (chain : string) (st : state) :
  let grep := (PipeCommandToGrep (Iptables st, listForwardEntriesArgs) (Grep, [chain])
                 (world st)).1 in
  let searchResults := grep.1.1 in
  let len := Z.of_nat (String.length searchResults) in
  ((chainLineNumber chain st).1.2 ≠ None → (chainLineNumber chain st).1.1 = 0) ∧
  (grep.2 = None → grep.1.2 = false → (chainLineNumber chain st).1 = (0, None)) ∧
  (grep.2 ≠ None → (chainLineNumber chain st).1.2 ≠ None) ∧
  (grep.1.2 = true → len < 3 → (chainLineNumber chain st).1.2 ≠ None) ∧
  ((chainLineNumber chain st).1.1 ≠ 0 →
   3 ≤ len ∧ 0 < Index searchResults spaceByte < len ∧
   Atoi (String.substring 0 (Z.to_nat (Index searchResults spaceByte)) searchResults)
   = Some (chainLineNumber chain st).1.1) ∧
  trace (chainLineNumber chain st).2
  = trace st ++ [EvPipeToGrep (Iptables st, listForwardEntriesArgs) (Grep, [chain])
                   searchResults grep.1.2 grep.2].
Proof.
  unfold chainLineNumber. munfold. simpl.
  destruct (PipeCommandToGrep _ _ (world st)) as [[[searchResults gotMatches] err] w]. simpl.
  unfold minLineNumberStringLength.
  destruct err as [e|]; simpl; [by repeat split|].
  destruct gotMatches; simpl; [|by repeat split].
  destruct (decide (3 ≤ Z.of_nat (String.length searchResults))) as [Hlen|Hlen];
    [|repeat split; try done; lia].
  destruct (decide (Index searchResults spaceByte > 0
                    ∧ Index searchResults spaceByte < Z.of_nat (String.length searchResults)))
    as [Hidx|Hidx]; [|repeat split; try done; lia].
  destruct (Atoi _) as [lineNum|] eqn:Hatoi; simpl; repeat split; try done; lia.
Qed.

(** ** Frames *)

Lemma frames_refl st : frames st st [].
Proof. unfold frames. by rewrite app_nil_r. Qed.

Lemma frames_trans st1 st2 st3 evs1 evs2 :
  frames st1 st2 evs1 → frames st2 st3 evs2 → frames st1 st3 (evs1 ++ evs2).
Proof.
  intros (Ht1 & Hi1 & Hs1) (Ht2 & Hi2 & Hs2). unfold frames.
  rewrite Ht2, Ht1, Hi2, Hi1, Hs2, Hs1, app_assoc. done.
Qed.

Lemma frames_emit st ev :
  frames st {| world := world st; Iptables := Iptables st;
               pMgr_staleChains := pMgr_staleChains st; trace := trace st ++ [ev] |} [ev].
Proof. done. Qed.

Lemma onlyReports_commandsOf evs : onlyReports evs → commandsOf evs = [].
Proof. induction 1 as [|[] evs Hev _ IH]; simpl; done. Qed.

Lemma onlyReports_signalsOf evs : onlyReports evs → signalsOf evs = [].
Proof. induction 1 as [|[] evs Hev _ IH]; simpl; done. Qed.

Lemma onlyReports_runsUnder iptables evs : onlyReports evs → runsUnder iptables evs.
Proof.
  intros Hall ev Hin. apply (proj1 (Forall_forall _ _) Hall) in Hin. by destruct ev.
Qed.

Lemma runsUnder_nil iptables : runsUnder iptables [].
Proof. intros ev Hin. by apply elem_of_nil in Hin. Qed.

Lemma runsUnder_app iptables evs1 evs2 :
  runsUnder iptables evs1 → runsUnder iptables evs2 → runsUnder iptables (evs1 ++ evs2).
Proof.
  intros H1 H2 ev Hin. apply elem_of_app in Hin as [Hin|Hin]; [by apply H1|by apply H2].
Qed.

Lemma runsUnder_cons iptables ev evs :
  runsUnder iptables [ev] → runsUnder iptables evs → runsUnder iptables (ev :: evs).
Proof. apply (runsUnder_app iptables [ev]). Qed.

Lemma runsUnder_command iptables args output err :
  runsUnder iptables [EvCommand iptables args output err].
Proof. intros ev Hin. by apply list_elem_of_singleton in Hin as ->. Qed.

Lemma runsUnder_report iptables ev : isReport ev → runsUnder iptables [ev].
Proof. intros Hr ev' Hin. apply list_elem_of_singleton in Hin as ->. by destruct ev. Qed.

Lemma runsUnder_grep iptables args grep searchResults gotMatches err :
  runsUnder iptables [EvPipeToGrep (iptables, args) grep searchResults gotMatches err].
Proof. intros ev Hin. by apply list_elem_of_singleton in Hin as ->. Qed.

Ltac solve_runsUnder :=
  repeat match goal with
  | |- runsUnder _ [] => apply runsUnder_nil
  | H : runsUnder ?i ?l |- runsUnder ?i ?l => exact H
  | H : onlyReports ?l |- runsUnder _ ?l => apply onlyReports_runsUnder, H
  | |- runsUnder _ [EvCommand _ _ _ _] => apply runsUnder_command
  | |- runsUnder _ [EvPipeToGrep _ _ _ _ _] => apply runsUnder_grep
  | |- runsUnder _ [EvSendErrorLogAndMetric _] => by apply runsUnder_report
  | |- runsUnder _ [EvSendLog _] => by apply runsUnder_report
  | |- runsUnder _ (_ ++ _) => apply runsUnder_app
  | |- runsUnder _ (_ :: _) => apply runsUnder_cons
  end.

(** One run of the executor, framed. *)
Lemma ignoreErrors_frame ignored operationFlag args st :
  ∃ output err evs,
    frames st (ignoreErrorsAndRunIPTablesCommand ignored operationFlag args st).2
      (EvCommand (Iptables st) (allArgsOf operationFlag args) output err :: evs) ∧
    onlyReports evs ∧
    (exitFailure err = false →
       (ignoreErrorsAndRunIPTablesCommand ignored operationFlag args st).1 = (0, None)) ∧
    (∀ c, err = Some (ExitError c) →
       (ignoreErrorsAndRunIPTablesCommand ignored operationFlag args st).1.1 = c) ∧
    (ignored = [] →
       ((ignoreErrorsAndRunIPTablesCommand ignored operationFlag args st).1.2 = None
        ↔ exitFailure err = false)).
Proof.
  destruct (CombinedOutput (Iptables st) (allArgsOf operationFlag args) (world st))
    as [[output err] w] eqn:Hc.
  destruct (exitFailure err) eqn:Hf.
  - destruct err as [[c|msg]|]; try discriminate.
    rewrite (ignoreErrors_exit_error ignored _ _ _ _ _ _ Hc).
    destruct ignored as [|info ignored]; simpl.
    + eexists output, _, _. split; [done|].
      split; [destruct (decide (c > 0)); repeat constructor|].
      split; [done|]. split; [by intros c' [= ->]|]. done.
    + destruct (if _ : bool then Some info else _).
      * exists output, (Some (ExitError c)), []. split; [done|]. split; [constructor|].
        split; [done|]. split; [by intros c' [= ->]|]. done.
      * eexists output, _, _. split; [done|].
        split; [destruct (decide (c > 0)); repeat constructor|].
        split; [done|]. split; [by intros c' [= ->]|]. done.
  - rewrite (ignoreErrors_no_exit_error ignored _ _ _ _ _ _ Hc Hf).
    exists output, err, []. split; [done|]. split; [constructor|].
    split; [done|]. split; [|done]. intros c ->. discriminate.
Qed.

Lemma runIPTablesCommand_frame operationFlag args st :
  ∃ output err evs,
    frames st (runIPTablesCommand operationFlag args st).2
      (EvCommand (Iptables st) (allArgsOf operationFlag args) output err :: evs) ∧
    onlyReports evs ∧
    ((runIPTablesCommand operationFlag args st).1.2 = None ↔ exitFailure err = false) ∧
    (∀ c, err = Some (ExitError c) → (runIPTablesCommand operationFlag args st).1.1 = c).
Proof.
  destruct (ignoreErrors_frame [] operationFlag args st)
    as (output & err & evs & Hfr & Hrep & _ & Hcode & Hnil).
  exists output, err, evs. split; [done|]. split; [done|]. split; [by apply Hnil|done].
Qed.

Lemma chainLineNumber_frame chain st :
  ∃ searchResults gotMatches err,
    frames st (chainLineNumber chain st).2
      [EvPipeToGrep (Iptables st, listForwardEntriesArgs) (Grep, [chain])
         searchResults gotMatches err].
Proof.
  unfold chainLineNumber. munfold. simpl.
  destruct (PipeCommandToGrep _ _ (world st)) as [[[searchResults gotMatches] err] w]. simpl.
  exists searchResults, gotMatches, err.
  destruct err; [done|]. destruct gotMatches; simpl; [|done].
  repeat case_decide; try done. by destruct (Atoi _).
Qed.


(** ** Positioning the jump, continued *)

Lemma insert_step_frame targetIndex st :
  let m :=
    (let args :=
       if decide (targetIndex = 1) then jumpFromForwardToAzureChainArgs
       else [IptablesForwardChain; Itoa targetIndex] ++ jumpToAzureChainArgs in
     '(insertErrCode, err) ← runIPTablesCommand IptablesInsertionFlag args;
     match err with
     | Some e =>
         let baseErrString := "failed to insert jump from FORWARD chain to AZURE-NPM chain" in
         _ ← SendErrorLogAndMetric
               (Sprintf "error: %s with error code %d and error %s"
                  [ArgS baseErrString; ArgD insertErrCode; ArgV err]);
         mret (Some (SimpleErrorWrapper baseErrString e))
     | None => mret None
     end) in
  ∃ evs e,
    frames st (m st).2 evs ∧ signalsOf evs = [] ∧ runsUnder (Iptables st) evs ∧
    commandsOf evs = [(Iptables st, insertArgsAt targetIndex, e)] ∧
    ((m st).1 = None ↔ exitFailure e = false).
Proof.
  munfold. cbv zeta.
  destruct (runIPTablesCommand_frame IptablesInsertionFlag
              (if decide (targetIndex = 1) then jumpFromForwardToAzureChainArgs
               else [IptablesForwardChain; Itoa targetIndex] ++ jumpToAzureChainArgs) st)
    as (o1 & e1 & evs1 & Hfr1 & Hrep1 & Hnil1 & _).
  rewrite insert_args_eq in Hfr1.
  destruct (runIPTablesCommand _ _ st) as [[code r] st1]. simpl in *.
  destruct r as [r|]; simpl.
  - eexists _, e1. split; [exact (frames_trans _ _ _ _ _ Hfr1 (frames_emit _ _))|].
    rewrite signalsOf_app, commandsOf_app. simpl.
    rewrite (onlyReports_signalsOf _ Hrep1), (onlyReports_commandsOf _ Hrep1).
    split; [done|]. split; [|split; [done|]].
    + solve_runsUnder.
    + split; [done|]. intros Hf. by apply Hnil1 in Hf.
  - eexists _, e1. split; [exact Hfr1|]. simpl.
    rewrite (onlyReports_signalsOf _ Hrep1), (onlyReports_commandsOf _ Hrep1).
    split; [done|]. split; [|split; [done|]].
    + solve_runsUnder.
    + split; [intros _; by apply Hnil1|done].
Qed.

Lemma placeAzureChainJumpRule_frame azure target st :
  ∃ evs,
    frames st (placeAzureChainJumpRule azure target st).2 evs ∧
    signalsOf evs = [] ∧ runsUnder (Iptables st) evs ∧
    positionerCommands (Iptables st) azure target (commandsOf evs)
      (placeAzureChainJumpRule azure target st).1.
Proof.
  unfold placeAzureChainJumpRule.
  destruct (decide (azure = target)) as [->|Hne].
  { exists []. split; [apply frames_refl|]. split; [done|]. split; [apply runsUnder_nil|].
    left. done. }
  destruct (decide (azure ≠ 0)) as [Ha|Ha].
  - munfold. simpl.
    match goal with |- context [runIPTablesCommand _ _ ?s] => set (st0 := s) end.
    assert (frames st st0 [EvSendErrorLogAndMetric
      "Info: Reconciler deleting and re-adding jump from FORWARD chain to AZURE-NPM chain table."])
      as Hfr0 by done.
    destruct (runIPTablesCommand_frame IptablesDeletionFlag jumpFromForwardToAzureChainArgs st0)
      as (o1 & e1 & evs1 & Hfr1 & Hrep1 & Hnil1 & _).
    destruct (runIPTablesCommand IptablesDeletionFlag jumpFromForwardToAzureChainArgs st0)
      as [[code r] st1]. simpl in Hfr1, Hnil1. simpl.
    pose proof (frames_trans _ _ _ _ _ Hfr0 Hfr1) as Hfr01.
    assert (runsUnder (Iptables st)
              ([EvSendErrorLogAndMetric
                  "Info: Reconciler deleting and re-adding jump from FORWARD chain to AZURE-NPM chain table."]
               ++ EvCommand (Iptables st0) (allArgsOf IptablesDeletionFlag
                    jumpFromForwardToAzureChainArgs) o1 e1 :: evs1)) as Hunder.
    { solve_runsUnder. }
    destruct r as [r|]; simpl.
    + eexists. split; [exact (frames_trans _ _ _ _ _ Hfr01 (frames_emit _ _))|].
      rewrite !signalsOf_app, !commandsOf_app. simpl.
      rewrite (onlyReports_signalsOf _ Hrep1), (onlyReports_commandsOf _ Hrep1).
      split; [done|]. split; [solve_runsUnder|].
      right; right; left. exists e1, r. split; [done|]. split; [|done].
      destruct (exitFailure e1); [done|]. by destruct Hnil1 as [_ Hn]; specialize (Hn eq_refl).
    + match goal with |- context [decide (?t = 1)] =>
        destruct (insert_step_frame t st1) as (evs2 & e2 & Hfr2 & Hsig2 & Hunder2 & Hcmd2 & Hres2)
      end.
      munfold. cbv zeta in *. simpl in *.
      eexists. split; [exact (frames_trans _ _ _ _ _ Hfr01 Hfr2)|].
      rewrite !signalsOf_app, !commandsOf_app. simpl.
      rewrite (onlyReports_signalsOf _ Hrep1), (onlyReports_commandsOf _ Hrep1), Hsig2, Hcmd2.
      destruct Hfr1 as (_ & Hi1 & _). rewrite Hi1 in *.
      split; [done|]. split; [solve_runsUnder|].
      right; right; right. eexists e1, e2, _. split; [done|].
      split; [by apply Hnil1|done].
  - assert (azure = 0) as -> by (destruct (decide (azure = 0)); [done|by destruct Ha]).
    munfold. simpl.
    destruct (insert_step_frame target st) as (evs2 & e2 & Hfr2 & Hsig2 & Hunder2 & Hcmd2 & Hres2).
    munfold. cbv zeta in *.
    exists evs2. split; [done|]. split; [done|]. split; [done|].
    right; left. exists e2. rewrite Hcmd2. done.
Qed.

Lemma lineNumbers_frame cfg st :
  ∃ evs,
    frames st
      (match cfg with
       | PlaceAzureChainFirst => (chainLineNumber IptablesAzureChain st).2
       | PlaceAzureChainAfterKubeServices =>
           (chainLineNumber IptablesKubeServicesChain
              (chainLineNumber IptablesAzureChain st).2).2
       end) evs ∧
    commandsOf evs = [] ∧ signalsOf evs = [] ∧ runsUnder (Iptables st) evs.
Proof.
  destruct (chainLineNumber_frame IptablesAzureChain st) as (s1 & g1 & e1 & Hfr1).
  destruct cfg.
  - eexists. split; [exact Hfr1|]. split; [done|]. split; [done|]. solve_runsUnder.
  - destruct (chainLineNumber_frame IptablesKubeServicesChain
                (chainLineNumber IptablesAzureChain st).2) as (s2 & g2 & e2 & Hfr2).
    eexists. split; [exact (frames_trans _ _ _ _ _ Hfr1 Hfr2)|].
    destruct Hfr1 as (_ & -> & _). split; [done|]. split; [done|]. solve_runsUnder.
Qed.

(** Either both listings are read, or the positioner stops with an error
    before any command. *)
Lemma positioner_listing_cases cfg st :
  (∃ azure kube, lineNumbersRead cfg st azure kube) ∨
  ((∀ azure kube, ¬ lineNumbersRead cfg st azure kube) ∧
   (positionAzureChainJumpRule cfg st).1 ≠ None ∧
   ∃ evs, frames st (positionAzureChainJumpRule cfg st).2 evs ∧
          commandsOf evs = [] ∧ signalsOf evs = [] ∧ runsUnder (Iptables st) evs).
Proof.
  unfold lineNumbersRead, positionAzureChainJumpRule. munfold.
  destruct (chainLineNumber_frame IptablesAzureChain st) as (s1 & g1 & e1 & Hfr1).
  destruct (chainLineNumber IptablesAzureChain st) as [[azure ea] st1]. simpl in *.
  destruct ea as [ea|]; simpl.
  { right. split; [intros a k [? _]; congruence|]. split; [done|].
    eexists. split; [exact (frames_trans _ _ _ _ _ Hfr1 (frames_emit _ _))|].
    split; [done|]. split; [done|]. solve_runsUnder. }
  destruct cfg.
  { left. exists azure, 0. split; [done|]. intros ?. done. }
  simpl.
  destruct (chainLineNumber_frame IptablesKubeServicesChain st1) as (s2 & g2 & e2 & Hfr2).
  destruct (chainLineNumber IptablesKubeServicesChain st1) as [[kube ek] st2]. simpl in *.
  destruct ek as [ek|]; simpl.
  - right. split; [intros a k [_ Hk]; specialize (Hk eq_refl); congruence|]. split; [done|].
    eexists.
    split; [exact (frames_trans _ _ _ _ _ (frames_trans _ _ _ _ _ Hfr1 Hfr2) (frames_emit _ _))|].
    destruct Hfr1 as (_ & -> & _). split; [done|]. split; [done|]. solve_runsUnder.
  - left. by exists azure, kube.
Qed.

Lemma positioner_after_listings cfg st azure kube :
  lineNumbersRead cfg st azure kube →
  ∃ evs,
    frames st (positionAzureChainJumpRule cfg st).2 evs ∧
    signalsOf evs = [] ∧ runsUnder (Iptables st) evs ∧
    positionerCommands (Iptables st) azure (wrappedTargetIndex cfg kube) (commandsOf evs)
      (positionAzureChainJumpRule cfg st).1.
Proof.
  intros Hread. rewrite (positionAzureChainJumpRule_eq _ _ _ _ Hread).
  destruct (lineNumbers_frame cfg st) as (evs0 & Hfr0 & Hcmd0 & Hsig0 & Hunder0).
  match goal with |- context [placeAzureChainJumpRule _ _ ?s] => set (st2 := s) in * end.
  destruct (placeAzureChainJumpRule_frame azure (wrappedTargetIndex cfg kube) st2)
    as (evs & Hfr & Hsig & Hunder & Hcmds).
  exists (evs0 ++ evs). split; [exact (frames_trans _ _ _ _ _ Hfr0 Hfr)|].
  rewrite signalsOf_app, commandsOf_app, Hsig0, Hsig, Hcmd0. simpl.
  destruct Hfr0 as (_ & Hi0 & _). rewrite Hi0 in *.
  split; [done|]. split; [solve_runsUnder|done].
Qed.



(** X9.  When a listing of FORWARD fails, or its match cannot be read as a
    line number, [positionAzureChainJumpRule] returns an error and runs no
    command: it neither deletes nor inserts on a guess. *)
Theorem positioner_runs_no_command_when_listing_fails
    (cfg : placement) (st : state) (evs : list event) :
  (∀ azureChainLineNum kubeChainLineNum,
     ¬ lineNumbersRead cfg st azureChainLineNum kubeChainLineNum) →
  trace (positionAzureChainJumpRule cfg st).2 = trace st ++ evs →
  (positionAzureChainJumpRule cfg st).1 ≠ None ∧ commandsOf evs = [].
Proof.
  intros Hno Ht.
  destruct (positioner_listing_cases cfg st)
    as [(azure & kube & Hread)|(_ & Hr & evs' & (Ht' & _) & Hcmd & _)].
  - by destruct (Hno azure kube).
  - rewrite Ht in Ht'. apply app_inv_head in Ht' as ->. done.
Qed.


(** ** Detecting the backend, continued *)


(** ** The restore files, continued *)

(** X12.  [creatorForBootup] leaves as stale exactly the chains present that
    are not base chains, whatever was stale before; it runs nothing and does
    not touch [util.Iptables]. *)
Theorem creatorForBootup_marks_present_policy_chains_stale
    (currentChains : gset string) (st : state) :
  (∀ chain, chain ∈ chainsToCleanup (pMgr_staleChains (creatorForBootup currentChains st).2) ↔
            chain ∈ currentChains ∧ isBaseChain chain = false) ∧
  trace (creatorForBootup currentChains st).2 = trace st ∧
  world (creatorForBootup currentChains st).2 = world st ∧
  Iptables (creatorForBootup currentChains st).2 = Iptables st.
Proof.
  unfold creatorForBootup. munfold. simpl. rewrite bootup_flush_loop. simpl.
  split; [|done]. intros chain. rewrite elem_of_foldl_add, elem_of_rangeOrder. simpl.
  set_solver.
Qed.

Lemma creatorForCleanup_loop (chains : list string) (creator : FileCreator) :
  foldl (λ creator chain, AddLine ["-F " +:+ chain] creator) creator chains
  = creator ++ ((λ chain, ["-F " +:+ chain]) <$> chains).
Proof.
  revert creator. induction chains as [|chain chains IH]; intros creator; simpl.
  - by rewrite app_nil_r.
  - rewrite IH. unfold AddLine. by rewrite <- app_assoc.
Qed.

(** X13.  The payload of [creatorForCleanup] flushes the chains given, in
    their order, and commits: it declares no chain and appends no rule, and
    for no chain at all it is the commit line alone. *)
Theorem creatorForCleanup_flushes_each_chain_and_commits (chains : list string) :
  creatorForCleanup chains
  = ((λ chain, ["-F " +:+ chain]) <$> chains) ++ [[IptablesRestoreCommit]] ∧
  length (creatorForCleanup chains) = S (length chains) ∧
  (∀ i chain, chains !! i = Some chain → creatorForCleanup chains !! i = Some ["-F " +:+ chain]).
Proof.
  assert (creatorForCleanup chains
          = ((λ chain, ["-F " +:+ chain]) <$> chains) ++ [[IptablesRestoreCommit]]) as Heq.
  { unfold creatorForCleanup, newCreatorWithChains. simpl.
    by rewrite creatorForCleanup_loop. }
  split; [done|]. rewrite Heq. split.
  - rewrite length_app, length_fmap. simpl. lia.
  - intros i chain Hi. unfold FileCreator. rewrite lookup_app_l.
    + by rewrite list_lookup_fmap, Hi.
    + rewrite length_fmap. by apply lookup_lt_Some in Hi.
Qed.

(** ** Cleaning up stale chains, continued *)

Lemma requeued_cons_iff chain rest c0 cmds x :
  requeued (chain :: rest) (c0 :: cmds) x ↔
  (x = chain ∧ failedCommand c0) ∨ requeued rest cmds x.
Proof.
  unfold requeued. split.
  - intros ([|i] & Hi & Hcase); simpl in *.
    + injection Hi as <-. left. split; [done|].
      destruct Hcase as [?|(c & [= <-] & ?)]; [lia|done].
    + right. exists i. split; [done|].
      destruct Hcase as [?|?]; [left; lia|by right].
  - intros [[-> Hf]|(i & Hi & Hcase)].
    + exists 0%nat. split; [done|]. right. by exists c0.
    + exists (S i). split; [done|].
      destruct Hcase as [?|?]; [left; simpl; lia|by right].
Qed.

Lemma deleteLoop_outcome chains aggregateError st :
  ∃ evs,
    trace (deleteLoop chains aggregateError st).2 = trace st ++ evs ∧
    ((deleteLoop chains aggregateError st).1 = None ↔
     aggregateError = None ∧ ∀ c, c ∈ commandsOf evs → ¬ failedCommand c) ∧
    (∀ x, x ∈ chainsToCleanup (pMgr_staleChains (deleteLoop chains aggregateError st).2) ↔
          x ∈ chainsToCleanup (pMgr_staleChains st) ∨
          (isBaseChain x = false ∧ requeued chains (commandsOf evs) x)).
Proof.
  revert aggregateError st. induction chains as [|chain rest IH]; intros aggregateError st.
  - exists []. simpl. rewrite app_nil_r. split; [done|]. split.
    + split; [intros ->; split; [done|]; intros c Hc; by apply elem_of_nil in Hc|by intros [? _]].
    + intros x. split; [by left|]. intros [?|[_ (i & Hi & _)]]; done.
  - simpl. munfold.
    destruct (selectReleaseLockSignal (world st)) as [received w] eqn:Hsel. simpl.
    destruct received.
    + rewrite forM_staleChainsAdd. cbn [fst snd trace Iptables pMgr_staleChains].
      exists [EvSelectSignal true]. split; [done|]. split.
      * split; [intros ->; split; [done|]; intros c Hc; by apply elem_of_nil in Hc|by intros [? _]].
      * intros x. rewrite elem_of_foldl_add. simpl. split.
        -- intros [?|[Hin Hb]]; [by left|]. right. split; [done|].
           apply list_elem_of_lookup in Hin as [i Hi]. exists i. split; [done|]. left.
           simpl. lia.
        -- intros [?|[Hb (i & Hi & _)]]; [by left|]. right. split; [|done].
           apply list_elem_of_lookup. by exists i.
    + match goal with |- context [runIPTablesCommand _ _ ?s] => set (st0 := s) end.
      destruct (runIPTablesCommand_frame IptablesDestroyFlag [chain] st0)
        as (o1 & e1 & evs1 & (Ht1 & Hi1 & Hs1) & Hrep1 & Hnil1 & Hcode1).
      destruct (runIPTablesCommand IptablesDestroyFlag [chain] st0) as [[code r] st1].
      cbn [fst snd] in *.
      set (c0 := (Iptables st0, allArgsOf IptablesDestroyFlag [chain], e1)).
      assert (bool_decide (r ≠ None) && bool_decide (code ≠ doesNotExistErrorCode) = true
              ↔ failedCommand c0) as Hcond.
      { rewrite andb_true_iff, !bool_decide_eq_true. unfold failedCommand, c0. simpl. split.
        - intros [Hr Hc]. destruct e1 as [[c|m]|].
          + exists c. split; [done|]. by rewrite <- (Hcode1 c eq_refl).
          + destruct Hr. by apply Hnil1.
          + destruct Hr. by apply Hnil1.
        - intros (c & -> & Hc). rewrite (Hcode1 c eq_refl). split; [|done].
          intros Hr. apply Hnil1 in Hr. done. }
      destruct (bool_decide (r ≠ None) && bool_decide (code ≠ doesNotExistErrorCode));
        match goal with |- context [deleteLoop rest ?agg ?s] =>
          destruct (IH agg s) as (evs2 & Ht2 & Hres2 & Hst2);
          set (st' := deleteLoop rest agg s) in *
        end;
        cbn [trace Iptables pMgr_staleChains world] in *;
        exists (EvSelectSignal false
                :: EvCommand (Iptables st0) (allArgsOf IptablesDestroyFlag [chain]) o1 e1
                :: evs1 ++ evs2);
        (split; [rewrite Ht2, Ht1; simpl; by rewrite <- !app_assoc|]);
        cbn [commandsOf]; rewrite commandsOf_app, (onlyReports_commandsOf _ Hrep1), app_nil_l;
        fold c0.
      * split.
        -- split; [intros Hn; apply Hres2 in Hn as [Hn _]; by destruct aggregateError|].
           intros [_ Hall]. destruct (Hall c0 (list_elem_of_here _ _)). by apply Hcond.
        -- intros x. rewrite Hst2, requeued_cons_iff, elem_of_staleChains_add, Hs1. simpl.
           pose proof (proj1 Hcond eq_refl). naive_solver.
      * split.
        -- rewrite Hres2. split.
           ++ intros [-> Hall]. split; [done|]. intros c Hc.
              apply elem_of_cons in Hc as [->|Hc]; [|by apply Hall].
              intros Hf. apply Hcond in Hf. done.
           ++ intros [-> Hall]. split; [done|]. intros c Hc. apply Hall.
              by apply list_elem_of_further.
        -- intros x. rewrite Hst2, requeued_cons_iff, Hs1. simpl.
           assert (¬ failedCommand c0) by (intros Hf; apply Hcond in Hf; done).
           naive_solver.
Qed.

(** X14.  [cleanupChains] returns nil exactly when no destroy command it ran
    failed, where a command that ends with [doesNotExistErrorCode], or with
    an error that is not an exit error, does not count as failed. *)
Theorem cleanupChains_nil_iff_no_destroy_failed (chains : list string) (st : state) :
  ∃ evs,
    trace (cleanupChains chains st).2 = trace st ++ evs ∧
    ((cleanupChains chains st).1 = None ↔ ∀ c, c ∈ commandsOf evs → ¬ failedCommand c).
Proof.
  destruct (deleteLoop_outcome chains None st) as (evs & Ht & Hres & _).
  exists evs. rewrite cleanupChains_state. split; [done|].
  unfold cleanupChains. munfold.
  destruct (deleteLoop chains None st) as [[e|] st']; simpl in *.
  - split; [done|]. intros Hall. discriminate (proj2 Hres (conj eq_refl Hall)).
  - split; [|done]. intros _. by apply Hres.
Qed.


(** ** Reconciling *)

Lemma positioner_frame cfg st :
  ∃ evs,
    frames st (positionAzureChainJumpRule cfg st).2 evs ∧
    signalsOf evs = [] ∧ runsUnder (Iptables st) evs.
Proof.
  destruct (positioner_listing_cases cfg st)
    as [(azure & kube & Hread)|(_ & Hr & evs & Hfr & Hcmd & Hsig & Hunder)].
  - destruct (positioner_after_listings cfg st azure kube Hread)
      as (evs & Hfr & Hsig & Hunder & _). by exists evs.
  - by exists evs.
Qed.

(** [reconcile] up to the drain: the state [st1] in which the stale chains
    are cleaned up, and what comes after. *)
Lemma reconcileLocked_drain st :
  let chains := rangeOrder (chainsToCleanup (pMgr_staleChains st)) in
  let st1 := {| world := world st; Iptables := Iptables st;
                pMgr_staleChains := newStaleChains; trace := trace st |} in
  (chains = [] → reconcileLocked st = (tt, st1)) ∧
  (chains ≠ [] →
   ∃ evs2, onlyReports evs2 ∧
     trace (reconcileLocked st).2 = trace (cleanupChains chains st1).2 ++ evs2 ∧
     Iptables (reconcileLocked st).2 = Iptables (cleanupChains chains st1).2 ∧
     pMgr_staleChains (reconcileLocked st).2 = pMgr_staleChains (cleanupChains chains st1).2).
Proof.
  intros chains st1. unfold reconcileLocked. munfold.
  rewrite staleChains_emptyAndGetAll_eq. simpl. fold chains. fold st1.
  destruct (decide (length chains = 0%nat)) as [Hlen|Hlen].
  - split; [done|]. intros Hne. destruct chains; done.
  - split; [intros Heq; exfalso; apply Hlen; by rewrite Heq|]. intros _.
    destruct (cleanupChains chains st1) as [[e|] st2]; simpl.
    + eexists [EvSendErrorLogAndMetric _]. split; [by repeat constructor|]. done.
    + exists []. split; [constructor|]. by rewrite app_nil_r.
Qed.

Lemma reconcile_drain cfg st :
  let chains := rangeOrder (chainsToCleanup (pMgr_staleChains st)) in
  ∃ st1 evs0,
    trace st1 = trace st ++ evs0 ∧ signalsOf evs0 = [] ∧
    Iptables st1 = Iptables st ∧ pMgr_staleChains st1 = newStaleChains ∧
    (chains = [] → (reconcile cfg st).2 = st1) ∧
    (chains ≠ [] →
     ∃ evs2, onlyReports evs2 ∧
       trace (reconcile cfg st).2 = trace (cleanupChains chains st1).2 ++ evs2 ∧
       Iptables (reconcile cfg st).2 = Iptables (cleanupChains chains st1).2 ∧
       pMgr_staleChains (reconcile cfg st).2 = pMgr_staleChains (cleanupChains chains st1).2).
Proof.
  intros chains. unfold reconcile. munfold.
  destruct (positioner_frame cfg st) as (evsp & (Htp & Hip & Hsp) & Hsigp & _).
  destruct (positionAzureChainJumpRule cfg st) as [r [wp ip sp tp]]. simpl in *. subst ip sp tp.
  destruct r as [r|]; simpl;
    match goal with |- context [reconcileLocked ?s] =>
      destruct (reconcileLocked_drain s) as [Hnil Hcons];
      cbn [world Iptables pMgr_staleChains trace] in Hnil, Hcons;
      fold chains in Hnil, Hcons
    end.
  - eexists _, (evsp ++ [_]).
    split; [|split; [|split; [|split; [|split; [intros Hc; rewrite (Hnil Hc); reflexivity|
                                                 exact Hcons]]]]]; simpl; try done.
    + by rewrite <- app_assoc.
    + by rewrite signalsOf_app, Hsigp.
  - eexists _, evsp.
    split; [|split; [|split; [|split; [|split; [intros Hc; rewrite (Hnil Hc); reflexivity|
                                                 exact Hcons]]]]]; simpl; try done.
Qed.

(** X16.  [reconcile] goes on to the stale chains whatever the positioning
    of the jump gave: it polls the release-lock signal exactly when the
    stale set is not empty. *)
Theorem reconcile_polls_signal_iff_stale_chains (cfg : placement) (st : state) :
  ∃ evs,
    trace (reconcile cfg st).2 = trace st ++ evs ∧
    (signalsOf evs = [] ↔ chainsToCleanup (pMgr_staleChains st) = ∅).
Proof.
  destruct (reconcile_drain cfg st) as (st1 & evs0 & Ht1 & Hsig0 & _ & _ & Hnil & Hcons).
  assert (rangeOrder (chainsToCleanup (pMgr_staleChains st)) = []
          ↔ chainsToCleanup (pMgr_staleChains st) = ∅) as Hempty.
  { split.
    - intros Hr. apply set_eq. intros x. rewrite <- elem_of_rangeOrder, Hr. set_solver.
    - intros ->. apply Permutation_nil_r. by rewrite (rangeOrder_perm ∅), elements_empty. }
  destruct (rangeOrder (chainsToCleanup (pMgr_staleChains st))) as [|chain chains] eqn:Hr.
  - rewrite (Hnil eq_refl). exists evs0. split; [done|]. rewrite Hsig0. by rewrite <- Hempty.
  - destruct (Hcons ltac:(done)) as (evs2 & Hrep2 & Ht2 & _).
    rewrite cleanupChains_state in Ht2.
    destruct (deleteLoop_spec (chain :: chains) None st1)
      as (evs1 & n & Ht & _ & _ & _ & _ & Hcase).
    exists (evs0 ++ evs1 ++ evs2). split; [by rewrite Ht2, Ht, Ht1, <- !app_assoc|].
    rewrite <- Hempty. split; [|done]. intros Hsig.
    rewrite !signalsOf_app, Hsig0 in Hsig. simpl in Hsig.
    apply app_eq_nil in Hsig as [Hsig _].
    destruct Hcase as [[-> Hs]|(_ & Hs & _)]; rewrite Hs in Hsig; [done|].
    by apply app_eq_nil in Hsig as [_ ?].
Qed.

(** X17.  [reconcile] puts no new chain in the stale set and no base chain:
    a chain that is stale afterwards was stale before and is not a base
    chain.  [util.Iptables] is as it was. *)
Theorem reconcile_adds_no_stale_chain (cfg : placement) (st : state) :
  (∀ chain, chain ∈ chainsToCleanup (pMgr_staleChains (reconcile cfg st).2) →
            chain ∈ chainsToCleanup (pMgr_staleChains st) ∧ isBaseChain chain = false) ∧
  Iptables (reconcile cfg st).2 = Iptables st.
Proof.
  destruct (reconcile_drain cfg st) as (st1 & evs0 & Ht1 & Hsig0 & Hi1 & Hs1 & Hnil & Hcons).
  destruct (rangeOrder (chainsToCleanup (pMgr_staleChains st))) as [|chain chains] eqn:Hr.
  - rewrite (Hnil eq_refl), Hs1. split; [|done]. intros c Hc. simpl in Hc. set_solver.
  - destruct (Hcons ltac:(done)) as (evs2 & _ & _ & Hi2 & Hs2).
    rewrite Hs2, Hi2, cleanupChains_state.
    destruct (deleteLoop_spec (chain :: chains) None st1)
      as (evs1 & n & _ & Hi & Hin & _).
    split; [|by rewrite Hi]. intros c Hc.
    destruct (Hin c Hc) as [Hc'|[Hc' Hb]].
    + rewrite Hs1 in Hc'. simpl in Hc'. set_solver.
    + split; [|done]. apply elem_of_rangeOrder. by rewrite Hr.
Qed.

(** X18.  A forced takeover before the first deletion loses nothing: when
    the first receive of [reconcile] gets the signal and the stale set holds
    no base chain, the stale set is afterwards what it was. *)
Theorem reconcile_interrupted_at_once_keeps_stale_set
    (cfg : placement) (st : state) (evs : list event) :
  trace (reconcile cfg st).2 = trace st ++ evs →
  signalsOf evs !! 0%nat = Some true →
  noBaseChain (pMgr_staleChains st) →
  chainsToCleanup (pMgr_staleChains (reconcile cfg st).2)
  = chainsToCleanup (pMgr_staleChains st).
Proof.
  intros Ht Hsig Hbase.
  destruct (reconcile_drain cfg st) as (st1 & evs0 & Ht1 & Hsig0 & Hi1 & Hs1 & Hnil & Hcons).
  destruct (rangeOrder (chainsToCleanup (pMgr_staleChains st))) as [|chain chains] eqn:Hr.
  - rewrite (Hnil eq_refl) in Ht. rewrite Ht1 in Ht. apply app_inv_head in Ht as <-.
    by rewrite Hsig0 in Hsig.
  - destruct (Hcons ltac:(done)) as (evs2 & Hrep2 & Ht2 & _ & Hs2).
    rewrite Hs2. rewrite cleanupChains_state in *.
    destruct (deleteLoop_spec (chain :: chains) None st1)
      as (evs1 & n & Ht' & _ & Hin & _ & _ & Hcase).
    rewrite Ht2, Ht', Ht1, <- !app_assoc in Ht. apply app_inv_head in Ht as <-.
    rewrite !signalsOf_app, Hsig0, (onlyReports_signalsOf _ Hrep2), app_nil_r in Hsig.
    simpl in Hsig.
    destruct Hcase as [[-> Hs]|(_ & Hs & Hrest)]; rewrite Hs in Hsig; [done|].
    destruct n as [|n]; [|done].
    apply set_eq. intros x. split.
    + intros Hx. destruct (Hin x Hx) as [Hx'|[Hx' _]].
      * rewrite Hs1 in Hx'. simpl in Hx'. set_solver.
      * apply elem_of_rangeOrder. by rewrite Hr.
    + intros Hx. apply Hrest.
      * simpl. apply elem_of_rangeOrder in Hx. by rewrite Hr in Hx.
      * destruct (isBaseChain x) eqn:Hb; [|done]. by destruct (Hbase x Hb).
Qed.

(** ** Booting up *)

Lemma creatorForBootup_state currentChains st :
  (creatorForBootup currentChains st).2
  = {| world := world st; Iptables := Iptables st;
       pMgr_staleChains :=
         foldl (λ s chain, staleChains_add chain s) newStaleChains (rangeOrder currentChains);
       trace := trace st |}.
Proof. unfold creatorForBootup. munfold. simpl. by rewrite bootup_flush_loop. Qed.

Lemma creatorForBootup_payload_indep currentChains st1 st2 :
  (creatorForBootup currentChains st1).1 = (creatorForBootup currentChains st2).1.
Proof. unfold creatorForBootup. munfold. simpl. by rewrite !bootup_flush_loop. Qed.

Lemma staleIsPresentPolicyChains_creator currentChains st st' :
  pMgr_staleChains st' = pMgr_staleChains (creatorForBootup currentChains st).2 →
  staleIsPresentPolicyChains currentChains st'.
Proof.
  intros Hs chain. rewrite Hs, creatorForBootup_state. simpl.
  rewrite elem_of_foldl_add, elem_of_rangeOrder. simpl. set_solver.
Qed.

Ltac list_norm := simpl; rewrite <- ?app_assoc; simpl; rewrite <- ?app_assoc; simpl.

(** The three ways [bootupAfterDetectAndCleanup] ends, after the deletion of
    the deprecated jump ([evs1]) and the enumeration of the chains. *)
Lemma bootupAfterDetectAndCleanup_cases cfg st :
  ∃ evs1 e1 currentChains,
    commandsOf evs1 = [(Iptables st, deleteDeprecatedJumpArgs, e1)] ∧
    signalsOf evs1 = [] ∧
    Iptables (bootupAfterDetectAndCleanup cfg st).2 = Iptables st ∧
    ((∃ cause,
        trace (bootupAfterDetectAndCleanup cfg st).2
        = trace st ++ evs1 ++ [EvAllCurrentAzureChains (Iptables st) currentChains (Some cause)] ∧
        (bootupAfterDetectAndCleanup cfg st).1
        = Some (SimpleErrorWrapper "failed to get current chains for bootup" cause) ∧
        pMgr_staleChains (bootupAfterDetectAndCleanup cfg st).2 = pMgr_staleChains st)
     ∨
     (∃ cause,
        trace (bootupAfterDetectAndCleanup cfg st).2
        = trace st ++ evs1
          ++ [EvAllCurrentAzureChains (Iptables st) currentChains None;
              EvRestore (Iptables st) (creatorForBootup currentChains st).1 (Some cause)] ∧
        (bootupAfterDetectAndCleanup cfg st).1
        = Some (SimpleErrorWrapper "failed to run iptables-restore for bootup" cause) ∧
        staleIsPresentPolicyChains currentChains (bootupAfterDetectAndCleanup cfg st).2)
     ∨
     (∃ evsp,
        trace (bootupAfterDetectAndCleanup cfg st).2
        = trace st ++ evs1
          ++ [EvAllCurrentAzureChains (Iptables st) currentChains None;
              EvRestore (Iptables st) (creatorForBootup currentChains st).1 None]
          ++ evsp ∧
        signalsOf evsp = [] ∧ runsUnder (Iptables st) evsp ∧
        staleIsPresentPolicyChains currentChains (bootupAfterDetectAndCleanup cfg st).2 ∧
        ((bootupAfterDetectAndCleanup cfg st).1 = None ∨
         ∃ cause,
           (bootupAfterDetectAndCleanup cfg st).1
           = Some (SimpleErrorWrapper
                     "failed to add/reposition jump from FORWARD chain to AZURE-NPM chain"
                     cause)))).
Proof.
  unfold bootupAfterDetectAndCleanup. munfold.
  destruct (ignoreErrors_frame removeDeprecatedJumpIgnoredErrors IptablesDeletionFlag
              deprecatedJumpFromForwardToAzureChainArgs st)
    as (o1 & e1 & evs1 & (Ht1 & Hi1 & Hs1) & Hrep1 & _).
  destruct (ignoreErrorsAndRunIPTablesCommand _ _ _ st) as [[code r] [w1 i1 s1 t1]].
  simpl in Ht1, Hi1, Hs1. subst i1 s1 t1.
  assert (∃ evsm, onlyReports evsm ∧
            ((if decide (code = 0) then mret ()
              else match r with
                   | Some _ =>
                       SendErrorLogAndMetric
                         (Sprintf "failed to delete deprecated jump rule from FORWARD chain to AZURE-NPM chain for unexpected reason with exit code %d and error: %s"
                            [ArgD code; ArgV r])
                   | None => mret ()
                   end) : M unit)
              {| world := w1; Iptables := Iptables st; pMgr_staleChains := pMgr_staleChains st;
                 trace := trace st ++ EvCommand (Iptables st)
                            (allArgsOf IptablesDeletionFlag deprecatedJumpFromForwardToAzureChainArgs)
                            o1 e1 :: evs1 |}
            = (tt, {| world := w1; Iptables := Iptables st;
                      pMgr_staleChains := pMgr_staleChains st;
                      trace := trace st ++ (EvCommand (Iptables st)
                                 (allArgsOf IptablesDeletionFlag
                                    deprecatedJumpFromForwardToAzureChainArgs)
                                 o1 e1 :: evs1) ++ evsm |})) as (evsm & Hrepm & Hm).
  { destruct (decide (code = 0)); [|destruct r].
    - exists []. split; [constructor|]. munfold. by rewrite app_nil_r.
    - eexists [EvSendErrorLogAndMetric _]. split; [by repeat constructor|].
      unfold SendErrorLogAndMetric. munfold. simpl. by rewrite <- app_assoc.
    - exists []. split; [constructor|]. munfold. by rewrite app_nil_r. }
  munfold. munfold. simpl in *. rewrite Hm. clear Hm.
  set (evsd := (EvCommand (Iptables st)
                  (allArgsOf IptablesDeletionFlag deprecatedJumpFromForwardToAzureChainArgs)
                  o1 e1 :: evs1) ++ evsm).
  unfold currentAzureChains, restoreCreator. munfold. simpl.
  destruct (AllCurrentAzureChains (Iptables st) IptablesDefaultWaitTime w1)
    as [[currentChains err] w2]. simpl.
  exists evsd, e1, currentChains.
  split; [unfold evsd; rewrite commandsOf_app; simpl;
          by rewrite (onlyReports_commandsOf _ Hrep1), (onlyReports_commandsOf _ Hrepm)|].
  split; [unfold evsd; rewrite signalsOf_app; simpl;
          by rewrite (onlyReports_signalsOf _ Hrep1), (onlyReports_signalsOf _ Hrepm)|].
  destruct err as [cause|]; simpl.
  { split; [done|]. left. exists cause. split; [by list_norm|]. done. }
  match goal with |- context [creatorForBootup currentChains ?s] =>
    pose proof (creatorForBootup_state currentChains s) as Hcs;
    pose proof (creatorForBootup_payload_indep currentChains s st) as Hcp;
    destruct (creatorForBootup currentChains s) as [creator sc]
  end.
  simpl in Hcs, Hcp. subst creator sc. simpl.
  match goal with |- context [restore ?i ?c ?w] => destruct (restore i c w) as [restoreErr w3] end.
  simpl. destruct restoreErr as [cause|]; simpl.
  { split; [done|]. right; left. exists cause. split; [by list_norm|].
    split; [done|]. apply (staleIsPresentPolicyChains_creator _ st). simpl.
    by rewrite creatorForBootup_state. }
  match goal with |- context [positionAzureChainJumpRule cfg ?s] =>
    destruct (positioner_frame cfg s) as (evsp & (Htp & Hip & Hsp) & Hsigp & Hunderp);
    destruct (positionAzureChainJumpRule cfg s) as [rp stp]
  end.
  simpl in *.
  assert (staleIsPresentPolicyChains currentChains stp) as Hstale.
  { apply (staleIsPresentPolicyChains_creator _ st). rewrite Hsp.
    by rewrite creatorForBootup_state. }
  destruct rp as [cause|]; simpl.
  - split; [done|]. right; right. eexists (evsp ++ [_]).
    rewrite Htp. split; [by list_norm|].
    rewrite signalsOf_app, Hsigp. split; [done|]. split; [solve_runsUnder|].
    split; [done|]. right. by exists cause.
  - split; [done|]. right; right. exists evsp.
    rewrite Htp. split; [by list_norm|]. split; [done|]. split; [done|].
    split; [done|]. by left.
Qed.

(** X19. [bootupAfterDetectAndCleanup] first runs one command, the deletion
    of the deprecated jump from FORWARD to AZURE-NPM, and whatever that
    command gives, it enumerates the Azure chains next, under the same
    command.  It polls no signal and leaves [util.Iptables] as it was.  When
    the enumeration fails nothing follows it: the result is that error
    wrapped, and the stale set is untouched. *)
Theorem bootup_enumerates_after_deleting_deprecated_jump cfg st :
  ∃ evs1 e1 currentChains err rest,
    trace (bootupAfterDetectAndCleanup cfg st).2
    = trace st ++ evs1 ++ EvAllCurrentAzureChains (Iptables st) currentChains err :: rest ∧
    commandsOf evs1 = [(Iptables st, deleteDeprecatedJumpArgs, e1)] ∧
    signalsOf (evs1 ++ EvAllCurrentAzureChains (Iptables st) currentChains err :: rest) = [] ∧
    Iptables (bootupAfterDetectAndCleanup cfg st).2 = Iptables st ∧
    (∀ cause, err = Some cause →
       rest = [] ∧
       (bootupAfterDetectAndCleanup cfg st).1
       = Some (SimpleErrorWrapper "failed to get current chains for bootup" cause) ∧
       pMgr_staleChains (bootupAfterDetectAndCleanup cfg st).2 = pMgr_staleChains st).
Proof.
  destruct (bootupAfterDetectAndCleanup_cases cfg st)
    as (evs1 & e1 & currentChains & Hcmd & Hsig & Hipt &
        [(cause & Ht & Hr & Hs)|[(cause & Ht & Hr & Hs)|(evsp & Ht & Hsigp & _ & Hs & Hr)]]).
  - exists evs1, e1, currentChains, (Some cause), [].
    split; [done|]. split; [done|].
    split; [by rewrite signalsOf_app, Hsig|]. split; [done|].
    by intros cause' [= <-].
  - eexists evs1, e1, currentChains, None, [_].
    split; [exact Ht|]. split; [done|].
    split; [by rewrite signalsOf_app, Hsig|]. split; [done|]. by intros cause' [=].
  - eexists evs1, e1, currentChains, None, (_ :: evsp).
    split; [exact Ht|]. split; [done|].
    split; [rewrite signalsOf_app, Hsig; simpl; exact Hsigp|]. split; [done|].
    by intros cause' [=].
Qed.


(** X21. When [bootupAfterDetectAndCleanup] returns nil, the Azure chains
    were enumerated and the payload of [creatorForBootup] for them was
    applied by one successful restore call, after the deletion of the
    deprecated jump and before anything the positioning of the jump does;
    the stale set is the enumerated chains that are not base chains. *)
Theorem bootup_nil_applied_payload_before_positioning cfg st :
  (bootupAfterDetectAndCleanup cfg st).1 = None →
  ∃ evs1 e1 currentChains evsp,
    trace (bootupAfterDetectAndCleanup cfg st).2
    = trace st ++ evs1
      ++ [EvAllCurrentAzureChains (Iptables st) currentChains None;
          EvRestore (Iptables st) (creatorForBootup currentChains st).1 None]
      ++ evsp ∧
    commandsOf evs1 = [(Iptables st, deleteDeprecatedJumpArgs, e1)] ∧
    runsUnder (Iptables st) evsp ∧
    staleIsPresentPolicyChains currentChains (bootupAfterDetectAndCleanup cfg st).2.
Proof.
  intros Hres.
  destruct (bootupAfterDetectAndCleanup_cases cfg st)
    as (evs1 & e1 & currentChains & Hcmd & Hsig & Hipt &
        [(cause' & Ht & Hr & Hs)|[(cause' & Ht & Hr & Hs)|(evsp & Ht & Hsigp & Hunder & Hs & Hr)]]).
  - rewrite Hr in Hres. discriminate.
  - rewrite Hr in Hres. discriminate.
  - by exists evs1, e1, currentChains, evsp.
Qed.

(** ** Cleaning up the other backend *)

Lemma Quiet_ret {A} (a : A) : Quiet (mret a).
Proof.
  intros st. exists []. munfold. simpl.
  split; [apply frames_refl|]. split; [done|apply runsUnder_nil].
Qed.

Lemma quiet_trans st1 st2 st3 evs1 evs2 :
  quiet st1 st2 evs1 → quiet st2 st3 evs2 → quiet st1 st3 (evs1 ++ evs2).
Proof.
  intros (Hf1 & Hs1 & Hu1) (Hf2 & Hs2 & Hu2).
  split; [by eapply frames_trans|]. split; [by rewrite signalsOf_app, Hs1, Hs2|].
  apply runsUnder_app; [done|]. destruct Hf1 as (_ & <- & _). done.
Qed.

Lemma Quiet_bind {A B} (m : M A) (f : A → M B) :
  Quiet m → (∀ a, Quiet (f a)) → Quiet (m ≫= f).
Proof.
  intros Hm Hf st. munfold.
  destruct (Hm st) as (evs1 & H1). destruct (m st) as [a st1]. simpl in *.
  destruct (Hf a st1) as (evs2 & H2). exists (evs1 ++ evs2). by eapply quiet_trans.
Qed.

Lemma Quiet_foldM {A B} (f : B → A → M B) (l : list A) (b : B) :
  (∀ b a, Quiet (f b a)) → Quiet (foldM f b l).
Proof.
  intros Hf. revert b. induction l as [|a l IH]; intros b; simpl.
  - apply Quiet_ret.
  - apply Quiet_bind; [apply Hf|]. intros b'. apply IH.
Qed.

Lemma Quiet_report msg : Quiet (SendErrorLogAndMetric msg).
Proof.
  intros st. eexists [_]. munfold. simpl.
  split; [apply frames_emit|]. split; [done|]. by apply runsUnder_report.
Qed.

Lemma Quiet_ignoreErrors ignored operationFlag args :
  Quiet (ignoreErrorsAndRunIPTablesCommand ignored operationFlag args).
Proof.
  intros st.
  destruct (ignoreErrors_frame ignored operationFlag args st)
    as (output & err & evs & Hfr & Hrep & _).
  eexists. split; [exact Hfr|]. simpl.
  split; [by apply onlyReports_signalsOf|]. solve_runsUnder.
Qed.

Lemma Quiet_runIPTablesCommand operationFlag args :
  Quiet (runIPTablesCommand operationFlag args).
Proof. apply Quiet_ignoreErrors. Qed.

Lemma Quiet_currentAzureChains : Quiet currentAzureChains.
Proof.
  intros st. unfold currentAzureChains. munfold. simpl.
  destruct (AllCurrentAzureChains (Iptables st) IptablesDefaultWaitTime (world st))
    as [[currentChains err] w]. simpl.
  eexists [_]. split; [done|]. split; [done|].
  intros ev Hin. by apply list_elem_of_singleton in Hin as ->.
Qed.

Lemma Quiet_restoreCreator creator : Quiet (restoreCreator creator).
Proof.
  intros st. unfold restoreCreator. munfold. simpl.
  destruct (restore (Iptables st) creator (world st)) as [err w]. simpl.
  eexists [_]. split; [done|]. split; [done|].
  intros ev Hin. by apply list_elem_of_singleton in Hin as ->.
Qed.

Ltac quiet_step :=
  first
    [ apply Quiet_ret | apply Quiet_report | apply Quiet_runIPTablesCommand
    | apply Quiet_ignoreErrors | apply Quiet_currentAzureChains | apply Quiet_restoreCreator
    | apply Quiet_foldM; intros ??
    | apply Quiet_bind; [|intros ?]
    | match goal with
      | |- Quiet (let '(_, _) := ?p in _) => destruct p
      | |- Quiet (if ?c then _ else _) => destruct c
      | |- Quiet (match ?x with _ => _ end) => destruct x
      end ].

Lemma Quiet_deleteJumpRule deletedJumpRule args msg :
  Quiet (deleteJumpRule deletedJumpRule args msg).
Proof. unfold deleteJumpRule. repeat quiet_step. Qed.

Lemma Quiet_flushOtherChains currentChains aggregateError :
  Quiet (flushOtherChains currentChains aggregateError).
Proof. unfold flushOtherChains. repeat quiet_step. Qed.

Lemma Quiet_flushOneByOne currentChains deletedJumpRule :
  Quiet (flushOneByOne currentChains deletedJumpRule).
Proof. unfold flushOneByOne. repeat quiet_step; apply Quiet_flushOtherChains. Qed.

Lemma Quiet_deleteAllChains chains : Quiet (deleteAllChains chains).
Proof. unfold deleteAllChains. repeat quiet_step. Qed.

Lemma Quiet_cleanupOtherIptables_body : Quiet cleanupOtherIptables_body.
Proof.
  unfold cleanupOtherIptables_body.
  repeat first [apply Quiet_deleteJumpRule | apply Quiet_flushOneByOne
               | apply Quiet_deleteAllChains | quiet_step].
Qed.

(** [cleanupOtherIptables] is its body run from the state with the other
    backend, followed by the switch back. *)
Lemma cleanupOtherIptables_unfold st :
  let st0 := {| world := world st; Iptables := otherIptables (Iptables st);
                pMgr_staleChains := pMgr_staleChains st; trace := trace st |} in
  (cleanupOtherIptables st).1 = (cleanupOtherIptables_body st0).1 ∧
  trace (cleanupOtherIptables st).2 = trace (cleanupOtherIptables_body st0).2 ∧
  pMgr_staleChains (cleanupOtherIptables st).2
  = pMgr_staleChains (cleanupOtherIptables_body st0).2 ∧
  Iptables (cleanupOtherIptables st).2
  = (if bool_decide (Iptables st = IptablesNft) then IptablesNft else IptablesLegacy).
Proof.
  unfold cleanupOtherIptables, otherIptables, SetIptablesToNft, SetIptablesToLegacy.
  munfold. simpl.
  destruct (bool_decide (Iptables st = IptablesNft)); simpl;
    match goal with |- context [cleanupOtherIptables_body ?s] =>
      destruct (cleanupOtherIptables_body s) as [r st1]
    end; done.
Qed.

(** X22. Whatever [cleanupOtherIptables] does, every command, enumeration
    and restore call of it runs under the backend that is not in use
    (legacy when [util.Iptables] is nft, nft otherwise); it polls no signal
    and leaves the stale set alone; and when it returns [util.Iptables] is
    nft if it was nft, and legacy in every other case. *)
Theorem cleanupOtherIptables_runs_under_other_backend_and_switches_back st :
  ∃ evs,
    trace (cleanupOtherIptables st).2 = trace st ++ evs ∧
    runsUnder (otherIptables (Iptables st)) evs ∧
    signalsOf evs = [] ∧
    pMgr_staleChains (cleanupOtherIptables st).2 = pMgr_staleChains st ∧
    Iptables (cleanupOtherIptables st).2
    = (if bool_decide (Iptables st = IptablesNft) then IptablesNft else IptablesLegacy).
Proof.
  destruct (cleanupOtherIptables_unfold st) as (_ & Ht & Hs & Hi).
  match type of Ht with context [cleanupOtherIptables_body ?s] =>
    destruct (Quiet_cleanupOtherIptables_body s) as (evs & (Hte & _ & Hse) & Hsig & Hunder)
  end.
  exists evs. rewrite Ht, Hs, Hi. done.
Qed.

Lemma cleanupChainOrder_filter (currentChains : gset string) :
  cleanupChainOrder currentChains
  = (if decide (IptablesAzureChain ∈ currentChains) then [IptablesAzureChain] else [])
    ++ filter (λ chain, chain ≠ IptablesAzureChain) (rangeOrder currentChains).
Proof.
  unfold cleanupChainOrder.
  generalize (if decide (IptablesAzureChain ∈ currentChains)
              then [IptablesAzureChain] else []) as acc.
  induction (rangeOrder currentChains) as [|chain l IH]; intros acc; simpl.
  - by rewrite app_nil_r.
  - rewrite IH. destruct (decide (chain = IptablesAzureChain)) as [Heq|Hne].
    + by rewrite filter_cons_False by (intros ?; done).
    + rewrite filter_cons_True by done. by rewrite <- app_assoc.
Qed.

Lemma NoDup_rangeOrder (m : gset string) : NoDup (rangeOrder m).
Proof. rewrite (rangeOrder_perm m). apply NoDup_elements. Qed.

(** X23. The list of chains [cleanupOtherIptables] flushes by the restore
    call and destroys afterwards holds every enumerated chain exactly once:
    it is a rearrangement of the enumerated set, with AZURE-NPM at its head
    when that chain was enumerated, and the others in the order the map
    ranges. *)
Theorem cleanup_order_is_enumerated_chains_with_azure_chain_first (currentChains : gset string) :
  cleanupChainOrder currentChains ≡ₚ elements currentChains ∧
  NoDup (cleanupChainOrder currentChains) ∧
  (∀ chain, chain ∈ cleanupChainOrder currentChains ↔ chain ∈ currentChains) ∧
  (IptablesAzureChain ∈ currentChains →
     cleanupChainOrder currentChains
     = IptablesAzureChain
       :: filter (λ chain, chain ≠ IptablesAzureChain) (rangeOrder currentChains)) ∧
  (IptablesAzureChain ∉ currentChains →
     cleanupChainOrder currentChains = rangeOrder currentChains).
Proof.
  assert (NoDup (cleanupChainOrder currentChains)) as Hnodup.
  { rewrite cleanupChainOrder_filter.
    destruct (decide (IptablesAzureChain ∈ currentChains)); simpl.
    - apply NoDup_cons. split.
      + rewrite list_elem_of_filter. by intros [? _].
      + apply NoDup_filter, NoDup_rangeOrder.
    - apply NoDup_filter, NoDup_rangeOrder. }
  assert (∀ chain, chain ∈ cleanupChainOrder currentChains ↔ chain ∈ currentChains) as Helem.
  { intros chain. rewrite cleanupChainOrder_filter, elem_of_app, list_elem_of_filter,
      elem_of_rangeOrder.
    destruct (decide (IptablesAzureChain ∈ currentChains)) as [Hin|Hin].
    - rewrite list_elem_of_singleton.
      destruct (decide (chain = IptablesAzureChain)) as [->|Hne]; naive_solver.
    - rewrite elem_of_nil.
      destruct (decide (chain = IptablesAzureChain)) as [->|Hne]; naive_solver. }
  split; [|split; [done|split; [done|split]]].
  - apply NoDup_Permutation; [done|apply NoDup_elements|].
    intros chain. by rewrite Helem, elem_of_elements.
  - intros Hin. rewrite cleanupChainOrder_filter. by rewrite decide_True by done.
  - intros Hin. rewrite cleanupChainOrder_filter. rewrite decide_False by done. simpl.
    assert (∀ chain, chain ∈ rangeOrder currentChains → chain ≠ IptablesAzureChain) as Hall.
    { intros chain Hc ->. by apply elem_of_rangeOrder in Hc. }
    induction (rangeOrder currentChains) as [|chain l IH]; [done|].
    rewrite filter_cons_True by (apply Hall; left).
    f_equal. apply IH. intros c Hc. apply Hall. by right.
Qed.

Lemma foldM_commands {B} (f : B → string → M B)
    (cmd : string → string → string * list string) chains b st :
  (∀ b chain st,
     ∃ evs, frames st (f b chain st).2 evs ∧
            fst <$> commandsOf evs = [cmd (Iptables st) chain]) →
  ∃ evs, frames st (foldM f b chains st).2 evs ∧
         fst <$> commandsOf evs = cmd (Iptables st) <$> chains.
Proof.
  intros Hf. revert b st. induction chains as [|chain chains IH]; intros b st; simpl.
  - exists []. split; [apply frames_refl|done].
  - munfold. destruct (Hf b chain st) as (evs1 & Hfr1 & Hcmd1).
    destruct (f b chain st) as [b1 st1]. simpl in *.
    destruct (IH b1 st1) as (evs2 & Hfr2 & Hcmd2).
    exists (evs1 ++ evs2). split; [by eapply frames_trans|].
    rewrite commandsOf_app, fmap_app, Hcmd1, Hcmd2.
    destruct Hfr1 as (_ & -> & _). done.
Qed.

Lemma deleteAllChains_commands chains st :
  ∃ evs,
    frames st (deleteAllChains chains st).2 evs ∧
    fst <$> commandsOf evs = destroyCommand (Iptables st) <$> chains.
Proof.
  unfold deleteAllChains. munfold.
  match goal with |- context [foldM ?f None chains st] =>
    destruct (foldM_commands f destroyCommand chains None st) as (evs & Hfr & Hcmd)
  end.
  { intros b chain s.
    destruct (runIPTablesCommand_frame IptablesDestroyFlag [chain] s)
      as (output & err & evs & Hfr & Hrep & _).
    destruct (runIPTablesCommand IptablesDestroyFlag [chain] s) as [[errCode r] s1].
    simpl in *. eexists. 
    split; [destruct (bool_decide (r ≠ None) && bool_decide (errCode ≠ doesNotExistErrorCode));
            exact Hfr|].
    simpl. by rewrite (onlyReports_commandsOf _ Hrep). }
  match goal with |- context [foldM ?f None chains st] =>
    destruct (foldM f None chains st) as [agg st1]
  end.
  simpl in *. destruct agg as [e|]; simpl.
  - eexists (evs ++ [_]). split; [eapply frames_trans; [exact Hfr|apply frames_emit]|].
    rewrite commandsOf_app. simpl. by rewrite app_nil_r.
  - by exists evs.
Qed.

(** What [cleanupOtherIptables_body] does: two deletions, the enumeration,
    and then nothing, or the restore call and what follows it. *)
Lemma cleanupOtherIptables_body_cases st :
  ∃ evsd e1 e2 currentChains err rest,
    trace (cleanupOtherIptables_body st).2
    = trace st ++ evsd ++ EvAllCurrentAzureChains (Iptables st) currentChains err :: rest ∧
    commandsOf evsd
    = [(Iptables st, deleteDeprecatedJumpArgs, e1); (Iptables st, deleteJumpArgs, e2)] ∧
    match err with
    | Some cause =>
        rest = [] ∧
        (cleanupOtherIptables_body st).1
        = Some (SimpleErrorWrapper "[cleanup] failed to get current chains for bootup" cause)
    | None =>
        if decide (size currentChains = 0%nat)
        then rest = [] ∧ (cleanupOtherIptables_body st).1 = None
        else
          ∃ restoreErr rest',
            rest = EvRestore (Iptables st) (creatorForCleanup (cleanupChainOrder currentChains))
                     restoreErr :: rest' ∧
            ((cleanupOtherIptables_body st).1 = None →
             ∃ flushes,
               fst <$> commandsOf rest'
               = flushes ++ (destroyCommand (Iptables st) <$> cleanupChainOrder currentChains) ∧
               (restoreErr = None → flushes = []))
    end.
Proof.
  unfold cleanupOtherIptables_body. munfold.
  destruct (deleteJumpRule_spec false deprecatedJumpFromForwardToAzureChainArgs
    "[cleanup] failed to delete deprecated jump rule from FORWARD chain to AZURE-NPM chain for unexpected reason with exit code %d and error: %s" st)
    as (evs1 & e1 & w1 & Hst1 & Hcmd1 & _).
  destruct (deleteJumpRule false deprecatedJumpFromForwardToAzureChainArgs _ st) as [d1 st1].
  simpl in Hst1. subst st1.
  match goal with |- context [deleteJumpRule d1 ?a ?m ?s] =>
    destruct (deleteJumpRule_spec d1 a m s) as (evs2 & e2 & w2 & Hst2 & Hcmd2 & _);
    destruct (deleteJumpRule d1 a m s) as [d2 st2]
  end.
  simpl in Hst2, Hcmd2. subst st2.
  unfold currentAzureChains, restoreCreator. munfold. simpl.
  destruct (AllCurrentAzureChains (Iptables st) IptablesDefaultWaitTime w2)
    as [[currentChains err] w3]. simpl.
  exists (evs1 ++ evs2), e1, e2, currentChains, err.
  assert (commandsOf (evs1 ++ evs2)
          = [(Iptables st, deleteDeprecatedJumpArgs, e1); (Iptables st, deleteJumpArgs, e2)])
    as Hcmd by (by rewrite commandsOf_app, Hcmd1, Hcmd2).
  destruct err as [cause|]; simpl.
  { exists []. split; [by list_norm|]. done. }
  destruct (decide (size currentChains = 0%nat)); simpl.
  { exists []. split; [by list_norm|]. done. }
  match goal with |- context [restore ?i ?c ?w] => destruct (restore i c w) as [restoreErr w4] end.
  simpl. destruct restoreErr as [restoreErr|]; simpl.
  - match goal with |- context [flushOneByOne ?c ?d ?s] =>
      destruct (Quiet_flushOneByOne c d s) as (evs5 & (Ht5 & Hi5 & _) & _);
      destruct (flushOneByOne c d s) as [[fatal|] st5]
    end; simpl in *.
    + eexists (_ :: _ :: evs5). split; [rewrite Ht5; by list_norm|]. split; [done|].
      eexists _, _. split; [reflexivity|]. discriminate.
    + match goal with |- context [deleteAllChains ?c ?s] =>
        destruct (deleteAllChains_commands c s) as (evs6 & (Ht6 & _) & Hcmd6);
        destruct (deleteAllChains c s) as [[] st6]
      end. simpl in *.
      eexists (_ :: _ :: evs5 ++ evs6). split; [rewrite Ht6, Ht5; by list_norm|].
      split; [done|]. eexists _, _. split; [reflexivity|]. intros _.
      exists (fst <$> commandsOf evs5). simpl. rewrite commandsOf_app, fmap_app, Hcmd6, Hi5.
      done.
  - match goal with |- context [deleteAllChains ?c ?s] =>
      destruct (deleteAllChains_commands c s) as (evs6 & (Ht6 & _) & Hcmd6);
      destruct (deleteAllChains c s) as [[] st6]
    end. simpl in *.
    eexists (_ :: evs6). split; [rewrite Ht6; by list_norm|]. split; [done|].
    eexists _, _. split; [reflexivity|]. intros _. exists []. done.
Qed.

Lemma size_zero_empty (X : gset string) : size X = 0%nat ↔ X = ∅.
Proof. rewrite size_empty_iff. by unfold_leibniz. Qed.


(** X24. [cleanupOtherIptables] starts with two commands under the other
    backend, the deletion of the deprecated jump and the deletion of the
    jump to AZURE-NPM, and whatever they give it enumerates the chains of
    that backend next.  A failed enumeration ends it with that error
    wrapped; an enumeration of no chain ends it with nil: no restore call
    and no further command.  Otherwise the restore call follows at once,
    with the payload that flushes the enumerated chains, AZURE-NPM first. *)
Theorem cleanupOtherIptables_deletes_both_jumps_then_enumerates st :
  ∃ evsd e1 e2 currentChains err rest,
    trace (cleanupOtherIptables st).2
    = trace st ++ evsd
      ++ EvAllCurrentAzureChains (otherIptables (Iptables st)) currentChains err :: rest ∧
    commandsOf evsd
    = [(otherIptables (Iptables st), deleteDeprecatedJumpArgs, e1);
       (otherIptables (Iptables st), deleteJumpArgs, e2)] ∧
    (∀ cause, err = Some cause →
       rest = [] ∧
       (cleanupOtherIptables st).1
       = Some (SimpleErrorWrapper "[cleanup] failed to get current chains for bootup" cause)) ∧
    (err = None → currentChains = ∅ → rest = [] ∧ (cleanupOtherIptables st).1 = None) ∧
    (err = None → currentChains ≠ ∅ →
       ∃ restoreErr rest',
         rest = EvRestore (otherIptables (Iptables st))
                  (creatorForCleanup (cleanupChainOrder currentChains)) restoreErr :: rest').
Proof.
  destruct (cleanupOtherIptables_unfold st) as (Hr & Ht & _).
  match type of Ht with context [cleanupOtherIptables_body ?s] =>
    destruct (cleanupOtherIptables_body_cases s)
      as (evsd & e1 & e2 & currentChains & err & rest & Htb & Hcmd & Hcases)
  end.
  simpl in Htb, Hcmd, Hcases.
  exists evsd, e1, e2, currentChains, err, rest.
  rewrite Ht, Hr. split; [done|]. split; [done|].
  destruct err as [cause|].
  - split; [by intros cause' [= <-]|]. split; intros; discriminate.
  - split; [intros; discriminate|].
    destruct (decide (size currentChains = 0%nat)) as [Hsize|Hsize].
    + split; [done|]. intros _ Hne. by apply size_zero_empty in Hsize.
    + split.
      * intros _ ->. by rewrite size_empty in Hsize.
      * intros _ _. destruct Hcases as (restoreErr & rest' & -> & _). eauto.
Qed.


End Properties.


(** * The theorems at work *)

Section Examples.

#[local] Existing Instance npmUtil.
#[local] Existing Instance elementsRange.
#[local] Existing Instance scriptedShim.

Lemma stale_set_never_holds_base_chain_witness :
  let ops := [Add "A"; Add "AZURE-NPM"; EmptyAndGetAll; Add "AZURE-NPM-ACCEPT"; Add "B"] in
  "AZURE-NPM" ∈ iptablesAzureChains ∧
  "AZURE-NPM" ∉ chainsToCleanup (runStaleOps ops newStaleChains).1 ∧
  (∀ result, result ∈ (runStaleOps ops newStaleChains).2 → "AZURE-NPM" ∉ result).
Proof.
  intros ops.
  assert ("AZURE-NPM" ∈ iptablesAzureChains) as Hb
    by (apply (bool_decide_unpack _); vm_compute; exact I).
  split; [exact Hb|].
  destruct (stale_set_never_holds_base_chain ops "AZURE-NPM" Hb) as (_ & H1 & H2 & _).
  exact (conj H1 H2).
Defined.

Example runStaleOps_ex :
  runStaleOps [Add "A"; Add "AZURE-NPM"; EmptyAndGetAll; Add "AZURE-NPM-ACCEPT"; Add "B"]
    newStaleChains
  = ({| chainsToCleanup := {["B"]} |}, [["A"]]).
Proof. vm_compute. reflexivity. Qed.

Lemma bootup_payload_has_no_rule_for_root_chain_witness :
  let creator :=
    (creatorForBootup {["A"; "B"; "AZURE-NPM"]} (initialState "iptables" emptyScript)).1 in
  NoDup iptablesAzureChains ∧
  HasPrefix IptablesAppendFlag ":" = false ∧
  (∀ chain rest, "-A" :: chain :: rest ∈ creator → chain ≠ "AZURE-NPM") ∧
  last creator = Some ["COMMIT"].
Proof.
  intros creator.
  assert (NoDup iptablesAzureChains) as Hnodup
    by (apply (bool_decide_unpack _); vm_compute; exact I).
  assert (HasPrefix IptablesAppendFlag ":" = false) as Hflag by reflexivity.
  split; [exact Hnodup|]. split; [exact Hflag|].
  destruct (bootup_payload_has_no_rule_for_root_chain {["A"; "B"; "AZURE-NPM"]}
              (initialState "iptables" emptyScript) Hnodup Hflag) as (_ & _ & _ & H & Hlast).
  split; [|exact Hlast].
  intros chain rest Hin. exact (proj2 (H chain rest Hin)).
Defined.

Example creatorForBootup_ex :
  (creatorForBootup {["A"; "B"; "AZURE-NPM"]} (initialState "iptables" emptyScript)).1
  = [[":AZURE-NPM-INGRESS"; "-"; "-"];
     [":AZURE-NPM-INGRESS-ALLOW-MARK"; "-"; "-"];
     [":AZURE-NPM-EGRESS"; "-"; "-"];
     [":AZURE-NPM-ACCEPT"; "-"; "-"];
     ["-F AZURE-NPM"]; ["-F A"]; ["-F B"];
     ["-A"; "AZURE-NPM-INGRESS"; "-j"; "DROP"; "-m"; "mark"; "--mark"; "0x4000";
      "-m"; "comment"; "--comment"; "DROP-ON-INGRESS-DROP-MARK-0x4000"];
     ["-A"; "AZURE-NPM-INGRESS-ALLOW-MARK"; "-j"; "MARK"; "--set-mark"; "0x2000";
      "-m"; "comment"; "--comment"; "SET-INGRESS-ALLOW-MARK-0x2000"];
     ["-A"; "AZURE-NPM-INGRESS-ALLOW-MARK"; "-j"; "AZURE-NPM-EGRESS"];
     ["-A"; "AZURE-NPM-EGRESS"; "-j"; "DROP"; "-m"; "mark"; "--mark"; "0x5000";
      "-m"; "comment"; "--comment"; "DROP-ON-EGRESS-DROP-MARK-0x5000"];
     ["-A"; "AZURE-NPM-EGRESS"; "-j"; "AZURE-NPM-ACCEPT"; "-m"; "mark"; "--mark"; "0x2000";
      "-m"; "comment"; "--comment"; "ACCEPT-ON-INGRESS-ALLOW-MARK-0x2000"];
     ["-A"; "AZURE-NPM-ACCEPT"; "-j"; "ACCEPT"];
     ["COMMIT"]].
Proof. vm_compute. reflexivity. Qed.

Lemma forced_takeover_requeues_remaining_chains_witness :
  let evs := [EvSelectSignal false;
              EvCommand "iptables" ["-w"; "60"; "-X"; "A"] "" None;
              EvSelectSignal true] in
  trace (cleanupChains ["A"; "AZURE-NPM"; "B"] takeoverState).2 = trace takeoverState ++ evs ∧
  signalsOf evs !! 1%nat = Some true ∧
  (λ c, c.1) <$> commandsOf evs = [("iptables", ["-w"; "60"; "-X"; "A"])] ∧
  (∀ j chain, (1 ≤ j)%nat → ["A"; "AZURE-NPM"; "B"] !! j = Some chain →
     isBaseChain chain = false →
     chain ∈ chainsToCleanup (pMgr_staleChains (cleanupChains ["A"; "AZURE-NPM"; "B"] takeoverState).2)).
Proof.
  intros evs.
  assert (trace (cleanupChains ["A"; "AZURE-NPM"; "B"] takeoverState).2
          = trace takeoverState ++ evs) as Ht by (vm_compute; reflexivity).
  assert (signalsOf evs !! 1%nat = Some true) as Hk by reflexivity.
  split; [exact Ht|]. split; [exact Hk|].
  destruct (forced_takeover_requeues_remaining_chains
              ["A"; "AZURE-NPM"; "B"] takeoverState evs 1 Ht Hk) as (_ & _ & Hcmds & Hrest & _).
  exact (conj Hcmds Hrest).
Defined.

Example cleanupChains_takeover_ex :
  pMgr_staleChains (cleanupChains ["A"; "AZURE-NPM"; "B"] takeoverState).2
  = {| chainsToCleanup := {["B"]} |}.
Proof. vm_compute. reflexivity. Qed.

Lemma jump_in_place_runs_no_command_witness :
  let st := forwardState (Some "3") (Some "2") in
  lineNumbersRead PlaceAzureChainAfterKubeServices st 3 2 ∧
  3 = targetIndexOf PlaceAzureChainAfterKubeServices 2 ∧
  (positionAzureChainJumpRule PlaceAzureChainAfterKubeServices st).1 = None ∧
  commandsOf (trace (positionAzureChainJumpRule PlaceAzureChainAfterKubeServices st).2)
  = commandsOf (trace st).
Proof.
  intros st.
  assert (lineNumbersRead PlaceAzureChainAfterKubeServices st 3 2) as Hread
    by (split; [vm_compute; reflexivity|intros _; vm_compute; reflexivity]).
  assert (3 = targetIndexOf PlaceAzureChainAfterKubeServices 2) as Ht by reflexivity.
  split; [exact Hread|]. split; [exact Ht|].
  destruct (jump_in_place_runs_no_command PlaceAzureChainAfterKubeServices st 3 2 Hread Ht)
    as (Hnil & Hcmds & _).
  exact (conj Hnil Hcmds).
Defined.

(** Scenario C of the spec: place-first policy, jump at line 1. *)
Example position_first_in_place_ex :
  let st := forwardState (Some "1") None in
  (positionAzureChainJumpRule PlaceAzureChainFirst st).1 = None ∧
  commandsOf (trace (positionAzureChainJumpRule PlaceAzureChainFirst st).2) = [].
Proof. vm_compute. done. Qed.

Lemma target_decremented_when_deleted_jump_was_above_target_witness :
  let st := forwardState (Some "1") (Some "3") in
  lineNumbersRead PlaceAzureChainAfterKubeServices st 1 3 ∧
  3 < 2 ^ 63 - 1 ∧
  ∃ evs e rest,
    trace (positionAzureChainJumpRule PlaceAzureChainAfterKubeServices st).2 = trace st ++ evs ∧
    commandsOf evs = (Iptables st, deleteJumpArgs, e) :: rest ∧
    (exitFailure e = false → (λ c, c.1) <$> rest = [(Iptables st, numericInsertArgs 3)]).
Proof.
  intros st.
  assert (lineNumbersRead PlaceAzureChainAfterKubeServices st 1 3) as Hread
    by (split; [vm_compute; reflexivity|intros _; vm_compute; reflexivity]).
  assert (3 < 2 ^ 63 - 1) as Hbound by (vm_compute; reflexivity).
  assert (1 ≠ 0) as Ha by lia.
  assert (1 ≠ targetIndexOf PlaceAzureChainAfterKubeServices 3) as Ht by (vm_compute; lia).
  split; [exact Hread|]. split; [exact Hbound|].
  exact (proj1 (target_decremented_when_deleted_jump_was_above_target
                  PlaceAzureChainAfterKubeServices st 1 3 Hread Hbound Ha Ht)).
Defined.

(** The jump to AZURE-NPM at line 1 and the jump to KUBE-SERVICES below it at
    line 3: after the delete the latter is at line 2, and the insert is at
    line 3. *)
Example position_kube_below_ex :
  commandsOf (trace (positionAzureChainJumpRule PlaceAzureChainAfterKubeServices
                       (forwardState (Some "1") (Some "3"))).2)
  = [("iptables", ["-w"; "60"; "-D"; "FORWARD"; "-j"; "AZURE-NPM"; "-m"; "conntrack";
                   "--ctstate"; "NEW"], None);
     ("iptables", ["-w"; "60"; "-I"; "FORWARD"; "3"; "-j"; "AZURE-NPM"; "-m"; "conntrack";
                   "--ctstate"; "NEW"], None)].
Proof. vm_compute. reflexivity. Qed.

(** C5 as the spec words it fails: with the jump to KUBE-SERVICES at line 1,
    above the jump to AZURE-NPM at line 3, the spec's rule decrements the
    target 2 and inserts at line 1, before the KUBE-SERVICES jump; the code
    inserts at line 2. *)
Lemma decrement_when_kube_jump_above_counterexample :
  ¬ claimed_decrement_rule (forwardState (Some "3") (Some "1")) 3 1.
Proof.
  intros Hclaim.
  assert (lineNumbersRead PlaceAzureChainAfterKubeServices
            (forwardState (Some "3") (Some "1")) 3 1) as Hread
    by (split; [vm_compute; reflexivity|intros _; vm_compute; reflexivity]).
  specialize (Hclaim Hread
    (drop 0 (trace (positionAzureChainJumpRule PlaceAzureChainAfterKubeServices
                      (forwardState (Some "3") (Some "1"))).2))
    None
    [("iptables", numericInsertArgs 2, None)]).
  vm_compute in Hclaim.
  specialize (Hclaim eq_refl eq_refl eq_refl). discriminate Hclaim.
Qed.

Example position_kube_above_ex :
  commandsOf (trace (positionAzureChainJumpRule PlaceAzureChainAfterKubeServices
                       (forwardState (Some "3") (Some "1"))).2)
  = [("iptables", ["-w"; "60"; "-D"; "FORWARD"; "-j"; "AZURE-NPM"; "-m"; "conntrack";
                   "--ctstate"; "NEW"], None);
     ("iptables", ["-w"; "60"; "-I"; "FORWARD"; "2"; "-j"; "AZURE-NPM"; "-m"; "conntrack";
                   "--ctstate"; "NEW"], None)]
  ∧ claimed_insert_index 3 1 = 1.
Proof. vm_compute. done. Qed.

Lemma absent_jump_is_inserted_at_target_witness :
  let st := forwardState None (Some "2") in
  lineNumbersRead PlaceAzureChainAfterKubeServices st 0 2 ∧
  2 < 2 ^ 63 - 1 ∧
  ∃ evs e,
    trace (positionAzureChainJumpRule PlaceAzureChainAfterKubeServices st).2 = trace st ++ evs ∧
    commandsOf evs
    = [("iptables", ["-w"; "60"; "-I"; "FORWARD"; "3"; "-j"; "AZURE-NPM"; "-m"; "conntrack";
                     "--ctstate"; "NEW"], e)].
Proof.
  intros st.
  assert (lineNumbersRead PlaceAzureChainAfterKubeServices st 0 2) as Hread
    by (split; [vm_compute; reflexivity|intros _; vm_compute; reflexivity]).
  assert (2 < 2 ^ 63 - 1) as Hbound by (vm_compute; reflexivity).
  assert (targetIndexOf PlaceAzureChainAfterKubeServices 2 ≠ 0) as Ht by (vm_compute; lia).
  split; [exact Hread|]. split; [exact Hbound|].
  exact (proj1 (absent_jump_is_inserted_at_target
                  PlaceAzureChainAfterKubeServices st 2 Hread Hbound Ht)).
Defined.

(** At the largest [int] the sum wraps, as in Go: with the jump to
    KUBE-SERVICES read at line [2 ^ 63 - 1], the target is [- 2 ^ 63], and a
    jump to AZURE-NPM deleted at line 5 is not below it, so that the target
    is not decremented. *)
Example position_wraps_at_largest_int_ex :
  commandsOf (trace (positionAzureChainJumpRule PlaceAzureChainAfterKubeServices
                       (forwardState None (Some "9223372036854775807"))).2)
  = [("iptables", ["-w"; "60"; "-I"; "FORWARD"; "-9223372036854775808"; "-j"; "AZURE-NPM";
                   "-m"; "conntrack"; "--ctstate"; "NEW"], None)] ∧
  commandsOf (trace (positionAzureChainJumpRule PlaceAzureChainAfterKubeServices
                       (forwardState (Some "5") (Some "9223372036854775807"))).2)
  = [("iptables", ["-w"; "60"; "-D"; "FORWARD"; "-j"; "AZURE-NPM"; "-m"; "conntrack";
                   "--ctstate"; "NEW"], None);
     ("iptables", ["-w"; "60"; "-I"; "FORWARD"; "-9223372036854775808"; "-j"; "AZURE-NPM";
                   "-m"; "conntrack"; "--ctstate"; "NEW"], None)].
Proof. vm_compute. split; reflexivity. Qed.

(** With no jump at all in FORWARD the insert has no index. *)
Example position_empty_forward_ex :
  commandsOf (trace (positionAzureChainJumpRule PlaceAzureChainAfterKubeServices
                       (forwardState None None)).2)
  = [("iptables", ["-w"; "60"; "-I"; "FORWARD"; "-j"; "AZURE-NPM"; "-m"; "conntrack";
                   "--ctstate"; "NEW"], None)].
Proof. vm_compute. reflexivity. Qed.

Lemma ignorable_exit_is_success_other_exit_is_error_witness :
  let output := "iptables: Bad rule (does a matching rule exist in that chain?)." +:+ newline in
  let args := deprecatedJumpFromForwardToAzureChainArgs in
  CombinedOutput (Iptables badRuleState) (allArgsOf IptablesDeletionFlag args) (world badRuleState)
    = ((output, Some (ExitError 1)), emptyScript) ∧
  1 ≠ 0 ∧
  (ignoreErrorsAndRunIPTablesCommand removeDeprecatedJumpIgnoredErrors
     IptablesDeletionFlag args badRuleState).1 = (1, None) ∧
  (ignoreErrorsAndRunIPTablesCommand [] IptablesDeletionFlag args badRuleState).1
  = (1, Some (Errorf "failed to run iptables command [%s %s] Stderr: [%s]. err: [%w]"
                [ArgS "iptables"; ArgS "-w 60 -D FORWARD -j AZURE-NPM";
                 ArgS "iptables: Bad rule (does a matching rule exist in that chain?).";
                 ArgW (ExitError 1)])).
Proof.
  intros output args.
  assert (CombinedOutput (Iptables badRuleState) (allArgsOf IptablesDeletionFlag args)
            (world badRuleState) = ((output, Some (ExitError 1)), emptyScript)) as Hc
    by reflexivity.
  assert (1 ≠ 0) as Hne by lia.
  split; [exact Hc|]. split; [exact Hne|]. split.
  - apply (proj1 (ignorable_exit_is_success_other_exit_is_error
                    removeDeprecatedJumpIgnoredErrors _ _ _ _ _ _ Hc Hne)).
    exists {| exitCode := doesNotExistErrorCode;
              stdErr := "Bad rule (does a matching rule exist in that chain?)";
              messageToLog := "probably tried to delete a jump rule that didn't exist in nft tables" |}.
    split; [|split; vm_compute; reflexivity].
    unfold removeDeprecatedJumpIgnoredErrors. do 3 apply list_elem_of_further.
    apply list_elem_of_here.
  - apply (proj1 (proj2 (ignorable_exit_is_success_other_exit_is_error
                           [] _ _ _ _ _ _ Hc Hne))).
    intros info Hin. by apply elem_of_nil in Hin.
Defined.

Lemma non_exit_error_is_reported_as_success_witness :
  CombinedOutput (Iptables noBinaryState) (allArgsOf IptablesListFlag listHintChainArgs)
    (world noBinaryState)
    = (("", Some (StartError "exec: iptables: executable file not found in $PATH")), emptyScript) ∧
  (ignoreErrorsAndRunIPTablesCommand removeDeprecatedJumpIgnoredErrors
     IptablesListFlag listHintChainArgs noBinaryState).1 = (0, None) ∧
  (runIPTablesCommand IptablesListFlag listHintChainArgs noBinaryState).1 = (0, None).
Proof.
  assert (CombinedOutput (Iptables noBinaryState) (allArgsOf IptablesListFlag listHintChainArgs)
            (world noBinaryState)
          = (("", Some (StartError "exec: iptables: executable file not found in $PATH")),
             emptyScript)) as Hc by reflexivity.
  split; [exact Hc|].
  exact (non_exit_error_is_reported_as_success removeDeprecatedJumpIgnoredErrors
           IptablesListFlag listHintChainArgs noBinaryState _ _ _ Hc).
Defined.

(** With no iptables binary at all, detection settles on nft. *)
Example detect_without_binary_ex :
  (detectIptablesVersion noBinaryState).1 = None ∧
  Iptables (detectIptablesVersion noBinaryState).2 = "iptables-nft".
Proof. vm_compute. done. Qed.

(** Neither jump could be deleted, the restore call failed and so did the
    flush of AZURE-NPM: the cleanup gives up with an error. *)
Example cleanup_double_failure_ex :
  (cleanupOtherIptables doubleFailureState).1
  = Some (SimpleErrorWrapper
            "[cleanup] must crash and retry. failed to delete jump rule and flush AZURE-NPM chain with error"
            (Errorf "failed to run iptables command [%s %s] Stderr: [%s]. err: [%w]"
               [ArgS "iptables"; ArgS "-w 60 -F AZURE-NPM";
                ArgS "iptables: Resource temporarily unavailable."; ArgW (ExitError 4)])) ∧
  commandsOf (trace (cleanupOtherIptables doubleFailureState).2)
  = [("iptables", ["-w"; "60"; "-D"; "FORWARD"; "-j"; "AZURE-NPM"], Some (ExitError 1));
     ("iptables", ["-w"; "60"; "-D"; "FORWARD"; "-j"; "AZURE-NPM"; "-m"; "conntrack";
                   "--ctstate"; "NEW"], Some (ExitError 1));
     ("iptables", ["-w"; "60"; "-F"; "AZURE-NPM"], Some (ExitError 4))] ∧
  Iptables (cleanupOtherIptables doubleFailureState).2 = "iptables-nft".
Proof. vm_compute. done. Qed.

(** C9.  The code against its own description.  [cleanupOtherIptables] is
    documented to return an error only if it fails to delete a jump rule and
    to flush the AZURE-NPM chain, and so says the claim.  Here both jumps to
    AZURE-NPM are deleted with exit code 0 and no flush is tried, but the
    chains of the other backend cannot be enumerated: the function returns
    the enumeration error wrapped, and the claim fails. *)
Theorem cleanup_other_returns_error_when_only_enumeration_fails :
  (cleanupOtherIptables enumerationFailureState).1
  = Some (SimpleErrorWrapper "[cleanup] failed to get current chains for bootup"
            (ExternalError "iptables-save failed")) ∧
  commandsOf (trace (cleanupOtherIptables enumerationFailureState).2)
  = [("iptables", ["-w"; "60"; "-D"; "FORWARD"; "-j"; "AZURE-NPM"], None);
     ("iptables", ["-w"; "60"; "-D"; "FORWARD"; "-j"; "AZURE-NPM"; "-m"; "conntrack";
                   "--ctstate"; "NEW"], None)] ∧
  ¬ claimed_error_only_on_double_failure enumerationFailureState.
Proof.
  split; [vm_compute; reflexivity|]. split; [vm_compute; reflexivity|].
  intros Hclaim.
  assert ((cleanupOtherIptables enumerationFailureState).1 ≠ None) as Herr
    by (vm_compute; discriminate).
  destruct (Hclaim Herr
              (drop 0 (trace (cleanupOtherIptables enumerationFailureState).2)) eq_refl)
    as [(name & args & err & Hin & Hfail) _].
  vm_compute in Hin.
  repeat (apply elem_of_cons in Hin as [Hin|Hin];
          [injection Hin as -> _ ->; discriminate Hfail|]).
  by apply elem_of_nil in Hin.
Qed.

(** ** Further properties at work *)

Lemma remove_undoes_add_witness :
  let s := {| chainsToCleanup := {["AZURE-NPM-INGRESS-123"]} |} in
  "AZURE-NPM-EGRESS-456" ∉ chainsToCleanup s ∧
  staleChains_remove "AZURE-NPM-EGRESS-456" (staleChains_add "AZURE-NPM-EGRESS-456" s) = s ∧
  staleChains_remove "AZURE-NPM-EGRESS-456" s = s ∧
  staleChains_add "AZURE-NPM-EGRESS-456" (staleChains_add "AZURE-NPM-EGRESS-456" s)
  = staleChains_add "AZURE-NPM-EGRESS-456" s.
Proof.
  intros s.
  assert ("AZURE-NPM-EGRESS-456" ∉ chainsToCleanup s) as Hout
    by (apply (bool_decide_unpack _); vm_compute; exact I).
  split; [exact Hout|].
  exact (remove_undoes_add "AZURE-NPM-EGRESS-456" s Hout).
Defined.

Lemma chainLineNumber_reads_decimal_line_number_witness :
  (chainLineNumber "AZURE-NPM" (forwardState (Some "12") None)).1 = (12, None).
Proof.
  apply (chainLineNumber_reads_decimal_line_number "AZURE-NPM"
           (forwardState (Some "12") None) 12
           "   AZURE-NPM  all  --  0.0.0.0/0            0.0.0.0/0            ctstate NEW").
  - lia.
  - vm_compute. lia.
  - vm_compute. reflexivity.
Defined.

Lemma positioner_runs_no_command_when_listing_fails_witness :
  (positionAzureChainJumpRule PlaceAzureChainFirst listingFailureState).1 ≠ None ∧
  commandsOf (trace (positionAzureChainJumpRule PlaceAzureChainFirst listingFailureState).2) = [].
Proof.
  apply (positioner_runs_no_command_when_listing_fails PlaceAzureChainFirst listingFailureState).
  - intros azureChainLineNum kubeChainLineNum [Hazure _].
    vm_compute in Hazure. discriminate.
  - reflexivity.
Defined.


Example positioner_moves_jump_ex :
  commandsOf
    (trace (positionAzureChainJumpRule PlaceAzureChainAfterKubeServices
              (forwardState (Some "3") (Some "1"))).2)
  = [("iptables", ["-w"; "60"; "-D"; "FORWARD"; "-j"; "AZURE-NPM"; "-m"; "conntrack";
                   "--ctstate"; "NEW"], None);
     ("iptables", ["-w"; "60"; "-I"; "FORWARD"; "2"; "-j"; "AZURE-NPM"; "-m"; "conntrack";
                   "--ctstate"; "NEW"], None)].
Proof. vm_compute. reflexivity. Qed.

Lemma reconcile_interrupted_at_once_keeps_stale_set_witness :
  let st := interruptedReconcileState in
  signalsOf (trace (reconcile PlaceAzureChainFirst st).2) !! 0%nat = Some true ∧
  chainsToCleanup (pMgr_staleChains (reconcile PlaceAzureChainFirst st).2)
  = chainsToCleanup (pMgr_staleChains st).
Proof.
  intros st.
  assert (signalsOf (trace (reconcile PlaceAzureChainFirst st).2) !! 0%nat = Some true)
    as Hsignal by (vm_compute; reflexivity).
  split; [exact Hsignal|].
  apply (reconcile_interrupted_at_once_keeps_stale_set PlaceAzureChainFirst st
           (trace (reconcile PlaceAzureChainFirst st).2)).
  - reflexivity.
  - exact Hsignal.
  - intros chain Hbase Hin. simpl in Hin. set_unfold in Hin.
    destruct Hin as [->| ->]; vm_compute in Hbase; discriminate.
Defined.


Example bootup_failed_restore_ex :
  pMgr_staleChains (bootupAfterDetectAndCleanup PlaceAzureChainFirst bootRestoreFailureState).2
  = {| chainsToCleanup := {["AZURE-NPM-INGRESS-123"]} |} ∧
  commandsOf (trace (bootupAfterDetectAndCleanup PlaceAzureChainFirst bootRestoreFailureState).2)
  = [("iptables-nft", ["-w"; "60"; "-D"; "FORWARD"; "-j"; "AZURE-NPM"],
      Some (ExitError 1))].
Proof. vm_compute. split; reflexivity. Qed.

Lemma bootup_nil_applied_payload_before_positioning_witness :
  let st := twoChainsState in
  ∃ evs1 e1 currentChains evsp,
    trace (bootupAfterDetectAndCleanup PlaceAzureChainFirst st).2
    = trace st ++ evs1
      ++ [EvAllCurrentAzureChains (Iptables st) currentChains None;
          EvRestore (Iptables st) (creatorForBootup currentChains st).1 None]
      ++ evsp ∧
    commandsOf evs1 = [(Iptables st, deleteDeprecatedJumpArgs, e1)] ∧
    runsUnder (Iptables st) evsp ∧
    staleIsPresentPolicyChains currentChains (bootupAfterDetectAndCleanup PlaceAzureChainFirst st).2.
Proof.
  intros st.
  apply (bootup_nil_applied_payload_before_positioning PlaceAzureChainFirst st).
  vm_compute. reflexivity.
Defined.


Example cleanupOtherIptables_restore_failure_ex :
  fst <$> commandsOf (trace (cleanupOtherIptables restoreFailureCleanupState).2)
  = [("iptables", ["-w"; "60"; "-D"; "FORWARD"; "-j"; "AZURE-NPM"]);
     ("iptables", ["-w"; "60"; "-D"; "FORWARD"; "-j"; "AZURE-NPM"; "-m"; "conntrack";
                   "--ctstate"; "NEW"]);
     ("iptables", ["-w"; "60"; "-F"; "AZURE-NPM"]);
     ("iptables", ["-w"; "60"; "-F"; "AZURE-NPM-INGRESS-123"]);
     ("iptables", ["-w"; "60"; "-X"; "AZURE-NPM"]);
     ("iptables", ["-w"; "60"; "-X"; "AZURE-NPM-INGRESS-123"])] ∧
  Iptables (cleanupOtherIptables restoreFailureCleanupState).2 = "iptables-nft".
Proof. vm_compute. split; reflexivity. Qed.

End Examples.
